(** * bus1 transactions: a shallow embedding of ipc/bus1/transaction.c

    The development follows the C file top to bottom.  Kernel objects that
    live behind pointers (peers, user memory) are kept in an explicit
    [world]; every primitive of a neighbouring subsystem that the
    transaction code calls leaves an [event] in the world's trace, so that
    ordering properties of the commit protocol can be stated on traces.
    The lockdep annotations ([bus1_active_lockdep_acquired] and
    [bus1_active_lockdep_released]) and [WARN_ON] have no effect on the
    state and leave no event. *)

From Stdlib Require Import NArith ZArith List Bool Lia.
From stdpp Require Import base option list gmap.
Import ListNotations.

Local Open Scope N_scope.

(** ** Machine integers *)

(** [u64] values are kept in [N]; C's [int] status codes in [Z].  An errno
    constant is a [positive], so that [-e] is negative by construction. *)
Definition errno := positive.
Definition neg_errno (e : errno) : Z := Z.neg e.

Definition ENOMEM : errno := 12%positive.
Definition EFAULT : errno := 14%positive.
Definition EHOSTUNREACH : errno := 113%positive.

Definition U64_MAX : N := 2 ^ 64 - 1.

(** [timestamp - 1] on a [u64]: the only subtraction in the file.  It wraps
    at zero as the C operator does. *)
Definition u64_dec (t : N) : N :=
  if t =? 0 then U64_MAX else t - 1.

(** ** Data model *)

(** [struct bus1_handle_dest]: the pinned destination peer and the user
    address the destination-local id is written back to ([None] is the
    NULL pointer). *)
Record bus1_handle_dest := mk_dest {
  raw_peer : N;
  idp : option N
}.

(** [struct bus1_message], without its [transaction] member: the [next]
    link and the [dest] of that member are the list structure and the
    second component of a transaction entry (see [bus1_transaction]);
    clearing them on unlink is dropping that pair. *)
Record bus1_message := mk_message {
  qnode : N;                      (* identity of the embedded queue node *)
  slice : option N;               (* pool slice, [None] when NULL *)
  data_destination : N;           (* header: destination-local handle id *)
  data_cred : N * N * N * N;      (* header: uid, gid, pid, tid *)
  silent : bool;
  m_files : list (option N)
}.

(** [struct bus1_queue]: the logical clock and the linked nodes with their
    timestamps.  A linked node carries its message. *)
Record bus1_queue := mk_queue {
  clock : N;
  nodes : list (N * (N * bus1_message))   (* qnode, (timestamp, message) *)
}.

(** [struct bus1_peer_info], as far as this file touches it. *)
Record bus1_peer_info := mk_peer {
  queue : bus1_queue;
  n_dropped : N;
  user_ns : N;                    (* cred->user_ns *)
  pid_ns : N;
  user : N;                       (* accounting user *)
  pool : N                        (* the peer's pool, opaque to this file *)
}.

#[global] Instance bus1_peer_info_inhabited : Inhabited bus1_peer_info :=
  populate (mk_peer (mk_queue 0 []) 0 0 0 0 0).

(** One word of user memory: its value and whether it may be written. *)
Record ucell := mk_ucell { u_val : N; u_writable : bool }.

(** Calls into other subsystems and into the kernel, in program order. *)
Inductive event :=
| EvLock (peer : N)
| EvUnlock (peer : N)
| EvTick (peer : N) (now : N)
| EvSync (peer : N) (ts : N) (now : N)
| EvStage (peer : N) (node : N) (ts : N) (front_changed : bool)
| EvRemove (peer : N) (node : N) (front_changed : bool)
| EvWake (peer : N)
| EvDropped (peer : N) (count : N)
| EvPutUser (addr : N) (val : N) (ok : bool)
| EvExport (peer : N) (ts : N) (id : N)
| EvInstall (peer : N) (node : N)
| EvAllocate (peer : N) (node : N) (ok : bool)
| EvDeallocate (peer : N) (node : N)
| EvMessageFree (node : option N)
| EvDestDestroy (peer : option N)
| EvGetFile (file : N)
| EvFput (file : N)
| EvTransferInit (n_handles : N)
| EvTransferDestroy
| EvKfree
| EvConsume (node : N) (timestamp : N).   (* entry of bus1_transaction_consume *)

(** The part of the machine the transaction code acts on. *)
Record world := mk_world {
  peers : gmap N bus1_peer_info;
  umem : gmap N ucell;
  next_node : N;                  (* allocator of message identities *)
  trace : list event
}.

Definition set_peers (f : gmap N bus1_peer_info -> gmap N bus1_peer_info)
    (w : world) : world :=
  mk_world (f (peers w)) (umem w) (next_node w) (trace w).

Definition set_umem (f : gmap N ucell -> gmap N ucell) (w : world) : world :=
  mk_world (peers w) (f (umem w)) (next_node w) (trace w).

Definition set_trace (f : list event -> list event) (w : world) : world :=
  mk_world (peers w) (umem w) (next_node w) (f (trace w)).

Definition set_queue (f : bus1_queue -> bus1_queue) (p : bus1_peer_info)
    : bus1_peer_info :=
  mk_peer (f (queue p)) (n_dropped p) (user_ns p) (pid_ns p) (user p) (pool p).

(** ** A state monad over the world *)

Definition M (A : Type) : Type := world -> A * world.

Definition ret {A} (a : A) : M A := fun w => (a, w).

Definition bind {A B} (m : M A) (k : A -> M B) : M B :=
  fun w => let (a, w') := m w in k a w'.

Declare Scope bus1_scope.
Delimit Scope bus1_scope with bus1.
Notation "'do' x <- m ; k" := (bind m (fun x => k))
  (at level 10, x name, m at level 100, k at level 200) : bus1_scope.
Notation "'run' m ; k" := (bind m (fun _ => k))
  (at level 10, m at level 100, k at level 200) : bus1_scope.
Local Open Scope bus1_scope.

Definition emit (e : event) : M unit :=
  fun w => (tt, set_trace (fun tr => tr ++ [e]) w).

Definition when (b : bool) (m : M unit) : M unit :=
  if b then m else ret tt.

(** [bus1_peer_dereference]: pinned peers are always present; the total
    lookup stands for the pointer dereference. *)
Definition bus1_peer_dereference (peer : N) : M bus1_peer_info :=
  fun w => (peers w !!! peer, w).

Definition update_peer (peer : N) (f : bus1_peer_info -> bus1_peer_info)
    : M unit :=
  fun w => (tt, set_peers (fun ps => <[peer := f (ps !!! peer)]> ps) w).

Definition mutex_lock (peer : N) : M unit := emit (EvLock peer).
Definition mutex_unlock (peer : N) : M unit := emit (EvUnlock peer).
Definition bus1_peer_wake (peer : N) : M unit := emit (EvWake peer).

(** [put_user(val, addr)]: stores when the word is mapped writable, faults
    otherwise.  The result is [true] on a fault, as in C where a non-zero
    return is the failure. *)
Definition put_user (val addr : N) : M bool :=
  fun w =>
    match umem w !! addr with
    | Some c =>
        if u_writable c
        then (false, set_trace (fun tr => tr ++ [EvPutUser addr val true])
                       (set_umem (fun um => <[addr := mk_ucell val true]> um) w))
        else (true, set_trace (fun tr => tr ++ [EvPutUser addr val false]) w)
    | None => (true, set_trace (fun tr => tr ++ [EvPutUser addr val false]) w)
    end.

Definition get_user (addr : N) : M (option N) :=
  fun w => (u_val <$> umem w !! addr, w).

(** ** Neighbouring subsystems

    The queue, handle, message and pool code, the uapi constants and the
    user-copy helpers are declared in headers that are not part of this
    file.  What the transaction code needs from them and cannot be read off
    this file is gathered in one record; every definition and theorem below
    holds for any value of it. *)
Record collaborators := mk_collaborators {
  (* queue.h: how far one tick advances a clock *)
  x_tick_step : positive;
  (* queue.h: the node a receiver would dequeue next, if any *)
  x_queue_front : list (N * (N * bus1_message)) -> option N;
  (* uapi/linux/bus1.h *)
  BUS1_HANDLE_INVALID : N;
  BUS1_SEND_FLAG_CONTINUE : N;
  BUS1_SEND_FLAG_SILENT : N;
  (* handle.h: sender peer, handle id -> destination peer *)
  x_handle_resolve : N -> N -> errno + N;
  x_handle_dest_export : bus1_handle_dest -> bus1_peer_info -> N -> N;
  x_handle_inflight_instantiate : bus1_peer_info -> N -> option errno;
  x_handle_transfer_import : gmap N ucell -> N -> N -> N -> option errno;
  (* message.h *)
  x_message_new : N -> N -> N -> option errno;
  x_message_allocate : bus1_peer_info -> N -> N -> errno + N;
  (* pool.h *)
  x_pool_write_iovec : gmap N ucell -> N -> list (N * N) -> N -> option errno;
  (* slab.h: the words found in freshly allocated memory, if any *)
  x_kmalloc : N -> option (list (option N));
  (* layout: sizeof(struct bus1_transaction), bus1_handle_batch_inline_size *)
  x_sizeof_transaction : N;
  x_handle_batch_inline_size : N -> N;
  (* util.h *)
  x_import_vecs : gmap N ucell -> N -> N -> errno + (list (N * N) * N);
  x_import_fd : gmap N ucell -> N -> errno + N;
  (* uidgid.h, pid.h *)
  x_from_kuid_munged : N -> N -> N;
  x_from_kgid_munged : N -> N -> N;
  x_pid_nr_ns : N -> N -> N
}.

(** [struct bus1_cmd_send] *)
Record bus1_cmd_send := mk_param {
  flags : N;
  ptr_vecs : N;
  n_vecs : N;
  ptr_handles : N;
  n_handles : N;
  ptr_fds : N;
  n_fds : N
}.

(** [struct bus1_transaction].  [entries] is the singly linked list threaded
    through [message->transaction.next]; each element pairs the message
    with its [message->transaction.dest]. *)
Record bus1_transaction := mk_transaction {
  peer : N;
  param : bus1_cmd_send;
  cred : N * N;                   (* uid, gid *)
  pid : N;
  tid : N;
  vecs : list (N * N);
  files : list (option N);        (* the slots from transaction->files on *)
  length_vecs : N;
  entries : list (bus1_message * bus1_handle_dest);
  handles : N;
  on_heap : bool                  (* the object is not the caller's stack buffer *)
}.

Definition set_entries (l : list (bus1_message * bus1_handle_dest))
    (t : bus1_transaction) : bus1_transaction :=
  mk_transaction (peer t) (param t) (cred t) (pid t) (tid t) (vecs t)
    (files t) (length_vecs t) l (handles t) (on_heap t).

Definition set_files (fs : list (option N)) (t : bus1_transaction)
    : bus1_transaction :=
  mk_transaction (peer t) (param t) (cred t) (pid t) (tid t) (vecs t)
    fs (length_vecs t) (entries t) (handles t) (on_heap t).

Definition set_vecs (vs : list (N * N)) (len : N) (t : bus1_transaction)
    : bus1_transaction :=
  mk_transaction (peer t) (param t) (cred t) (pid t) (tid t) vs
    (files t) len (entries t) (handles t) (on_heap t).

Section Model.

Context (X : collaborators).

(** ** The queue primitives *)

(** Modelled from the spec: queue.h is missing.  [tick(q)] advances the
    clock and returns the new value; the clock is monotonically
    non-decreasing, so it is not wrapped at 2^64 here. *)
Definition queue_tick (q : bus1_queue) : bus1_queue * N :=
  let now := clock q + Npos (x_tick_step X) in
  (mk_queue now (nodes q), now).

(** Modelled from the spec: queue.h is missing.  [sync(q, t)] advances the
    clock to at least [t] and returns the resulting value. *)
Definition queue_sync (q : bus1_queue) (ts : N) : bus1_queue * N :=
  let now := N.max (clock q) ts in
  (mk_queue now (nodes q), now).

Definition node_lookup (node : N) (l : list (N * (N * bus1_message)))
    : option (N * bus1_message) :=
  snd <$> List.find (fun e => fst e =? node) l.

Definition node_delete (node : N) (l : list (N * (N * bus1_message)))
    : list (N * (N * bus1_message)) :=
  List.filter (fun e => negb (fst e =? node)) l.

(** Modelled from the spec: queue.h is missing.  A node is queued when it
    is linked in a queue; a message's node is only ever linked in the queue
    of the message's destination, which is where it is looked up. *)
Definition queue_node_is_queued (q : bus1_queue) (node : N) : bool :=
  bool_decide (is_Some (node_lookup node (nodes q))).

Definition front_changed (before after : bus1_queue) : bool :=
  negb (bool_decide (x_queue_front X (nodes before) = x_queue_front X (nodes after))).

(** Modelled from the spec: queue.h is missing.  [stage(q, node, t)] links
    the node at logical time [t], moving it when it is already linked, and
    returns true iff the earliest visible event of the queue changed. *)
Definition queue_stage (q : bus1_queue) (m : bus1_message) (ts : N)
    : bus1_queue * bool :=
  let q' := mk_queue (clock q) (node_delete (qnode m) (nodes q) ++ [(qnode m, (ts, m))]) in
  (q', front_changed q q').

(** Modelled from the spec: queue.h is missing.  [remove(q, node)] detaches
    the node if it is still present and returns true iff that altered what
    is visible at the front of the queue. *)
Definition queue_remove (q : bus1_queue) (node : N) : bus1_queue * bool :=
  let q' := mk_queue (clock q) (node_delete node (nodes q)) in
  (q', front_changed q q').

(** The same primitives acting on the queue of a peer in the world. *)
Definition on_queue {A} (p : N) (f : bus1_queue -> bus1_queue * A) : M A :=
  fun w =>
    let r := f (queue (peers w !!! p)) in
    (snd r, set_peers (fun ps => <[p := set_queue (fun _ => fst r) (ps !!! p)]> ps) w).

Definition bus1_queue_tick (p : N) : M N :=
  do now <- on_queue p queue_tick;
  run emit (EvTick p now);
  ret now.

Definition bus1_queue_sync (p : N) (ts : N) : M N :=
  do now <- on_queue p (fun q => queue_sync q ts);
  run emit (EvSync p ts now);
  ret now.

Definition bus1_queue_stage (p : N) (m : bus1_message) (ts : N) : M bool :=
  do b <- on_queue p (fun q => queue_stage q m ts);
  run emit (EvStage p (qnode m) ts b);
  ret b.

Definition bus1_queue_remove (p : N) (node : N) : M bool :=
  do b <- on_queue p (fun q => queue_remove q node);
  run emit (EvRemove p node b);
  ret b.

Definition bus1_queue_node_is_queued (p : N) (node : N) : M bool :=
  fun w => (queue_node_is_queued (queue (peers w !!! p)) node, w).

(** ** Other helpers of the neighbouring subsystems *)

Definition set_slice (s : option N) (m : bus1_message) : bus1_message :=
  mk_message (qnode m) s (data_destination m) (data_cred m) (silent m)
    (m_files m).

Definition set_destination (id : N) (m : bus1_message) : bus1_message :=
  mk_message (qnode m) (slice m) id (data_cred m) (silent m) (m_files m).

(** Modelled from the spec: message.h is missing.  Deallocation releases
    the pool slice of the message, leaving it without one. *)
Definition bus1_message_deallocate (m : bus1_message) (p : N)
    : M bus1_message :=
  run emit (EvDeallocate p (qnode m));
  ret (set_slice None m).

(** Modelled from the spec: message.h is missing.  Freeing accepts NULL. *)
Definition bus1_message_free (m : option bus1_message) : M unit :=
  emit (EvMessageFree (qnode <$> m)).

(** Modelled from the spec: handle.h is missing.  Destroying a destination
    releases the pin on its peer; an empty destination holds none. *)
Definition bus1_handle_dest_destroy (d : option bus1_handle_dest) : M unit :=
  emit (EvDestDestroy (raw_peer <$> d)).

(** Modelled from the spec: handle.h is missing.  The destination is
    resolved from the handle id stored at [idp] against the sender's handle
    table; the address is kept for the write-back at commit. *)
Definition bus1_handle_dest_import (sender : N) (idp : N)
    : M (Z * option bus1_handle_dest) :=
  do id <- get_user idp;
  match id with
  | None => ret (neg_errno EFAULT, None)
  | Some id =>
      match x_handle_resolve X sender id with
      | inl e => ret (neg_errno e, None)
      | inr p => ret (0%Z, Some (mk_dest p (Some idp)))
      end
  end.

(** Modelled from the spec: handle.h is missing.  The export translates
    the destination into the id local to the destination peer, or yields
    [BUS1_HANDLE_INVALID] when the node is gone; which id is left to the
    handle subsystem. *)
Definition bus1_handle_dest_export (d : bus1_handle_dest) (ts : N) : M N :=
  do peer_info <- bus1_peer_dereference (raw_peer d);
  let id := x_handle_dest_export X d peer_info ts in
  run emit (EvExport (raw_peer d) ts id);
  ret id.

(** Modelled from the spec: handle.h is missing.  Installing the handles a
    message carries acts on the handle tables only; the call is recorded. *)
Definition bus1_handle_inflight_install (m : bus1_message)
    (d : bus1_handle_dest) : M unit :=
  emit (EvInstall (raw_peer d) (qnode m)).

(** Modelled from the spec: message.h is missing.  A new message carries
    the payload length, fd count and handle count and the silent flag; its
    destination id is unset and it has no slice yet. *)
Definition bus1_message_new (len nfds nhandles : N) (is_silent : bool)
    : M (Z + bus1_message) :=
  match x_message_new X len nfds nhandles with
  | Some e => ret (inl (neg_errno e))
  | None =>
      fun w =>
        (inr (mk_message (next_node w) None (BUS1_HANDLE_INVALID X)
                (0, 0, 0, 0) is_silent (replicate (N.to_nat nfds) None)),
         mk_world (peers w) (umem w) (N.succ (next_node w)) (trace w))
  end.

(** Modelled from the spec: message.h is missing.  Allocation reserves a
    slice of the destination's pool, charged to the sender's accounting user;
    whether there is room is left to the pool. *)
Definition bus1_message_allocate (m : bus1_message) (p : N) (account : N)
    (len : N) : M (Z * bus1_message) :=
  do peer_info <- bus1_peer_dereference p;
  match x_message_allocate X peer_info len account with
  | inl e =>
      run emit (EvAllocate p (qnode m) false);
      ret (neg_errno e, m)
  | inr s =>
      run emit (EvAllocate p (qnode m) true);
      ret (0%Z, set_slice (Some s) m)
  end.

Definition status_of (o : option errno) : Z :=
  match o with Some e => neg_errno e | None => 0%Z end.

(** [atomic_inc_return(&peer_info->n_dropped)] *)
Definition atomic_inc_return_n_dropped (p : N) : M N :=
  do peer_info <- bus1_peer_dereference p;
  let n := n_dropped peer_info + 1 in
  run update_peer p (fun pi =>
        mk_peer (queue pi) n (user_ns pi) (pid_ns pi) (user pi) (pool pi));
  run emit (EvDropped p n);
  ret n.

Fixpoint for_each {A} (l : list A) (body : A -> M unit) : M unit :=
  match l with
  | [] => ret tt
  | a :: rest => run body a; for_each rest body
  end.

Definition upto (n : N) : list nat := seq 0 (N.to_nat n).

(** ** transaction.c *)

(** [size_t] is 64 bits wide on the targets of the module; sums and
    products of [size_t] values wrap at 2^64. *)
Definition size_add (a b : N) : N := (a + b) mod 2 ^ 64.
Definition size_mul (a b : N) : N := (a * b) mod 2 ^ 64.

(** [sizeof(struct iovec)] is 16 and [sizeof(struct file * )] is 8 on the
    64-bit targets of the module.  The [BUILD_BUG_ON]s bound the constants
    [BUS1_VEC_MAX] and [BUS1_FD_MAX], not the counts found in [param], so
    the sum is the wrapping one. *)
Definition bus1_transaction_size (p : bus1_cmd_send) : N :=
  size_add
    (size_add
       (size_add (x_sizeof_transaction X) (size_mul (n_vecs p) 16))
       (size_mul (n_fds p) 8))
    (x_handle_batch_inline_size X (n_handles p)).

(** [memset(p, 0, n * sizeof(struct file * ))] on the pointer slots that
    start at [p]: the first [n] slots are NULL afterwards, however many
    slots the list describes; the slots behind them keep their value. *)
Fixpoint memset_null (n : nat) (slots : list (option N)) : list (option N) :=
  match n with
  | O => slots
  | S n' => None :: memset_null n' (tail slots)
  end.

(** The running task: credentials, thread-group id, task id. *)
Record task := mk_task { task_cred : N * N; task_tgid : N; task_pid : N }.

(** [backing] holds what the pointer slots starting at
    [transaction->files] contain before initialisation.  The file array is
    the first [n_fds] of them; [files] keeps the slots behind the array as
    well (the inline handle storage, then whatever follows the object), so
    that a [memset] that runs past the array shows in the model.  The
    length handed to [memset] is [n_vecs * sizeof(struct file * )] as a
    [size_t], which is that many bytes and an eighth as many slots. *)
Definition bus1_transaction_init (backing : list (option N)) (heap : bool)
    (sender : N) (p : bus1_cmd_send) (current : task) : M bus1_transaction :=
  let fs := memset_null (N.to_nat (size_mul (n_vecs p) 8 / 8)) backing in
  run emit (EvTransferInit (n_handles p));
  ret (mk_transaction sender p (task_cred current) (task_tgid current)
         (task_pid current) [] fs 0 [] (n_handles p) heap).

(** The parameter sets for which the object is laid out as its size formula
    intends: the size is the sum of the parts, without a wrap, and the
    [memset] of [bus1_transaction_init] stays inside the file array. *)
Definition well_sized (p : bus1_cmd_send) : Prop :=
  x_sizeof_transaction X + n_vecs p * 16 + n_fds p * 8
    + x_handle_batch_inline_size X (n_handles p) < 2 ^ 64 /\
  n_vecs p <= n_fds p.

Fixpoint destroy_entries (l : list (bus1_message * bus1_handle_dest))
    : M unit :=
  match l with
  | [] => ret tt
  | (message, dest) :: rest =>
      let p := raw_peer dest in
      run mutex_lock p;
      do woke <- bus1_queue_remove p (qnode message);
      run when woke (bus1_peer_wake p);
      do message <- bus1_message_deallocate message p;
      run mutex_unlock p;
      run bus1_message_free (Some message);
      run bus1_handle_dest_destroy (Some dest);
      destroy_entries rest
  end.

Definition fput (f : N) : M unit := emit (EvFput f).

Definition bus1_transaction_destroy (t : bus1_transaction)
    : M bus1_transaction :=
  run destroy_entries (entries t);
  run for_each (upto (n_fds (param t))) (fun i =>
        match files t !! i with
        | Some (Some f) => fput f
        | _ => ret tt
        end);
  run emit EvTransferDestroy;
  ret (set_entries [] t).

Definition bus1_transaction_import_vecs (t : bus1_transaction)
    : M (Z * bus1_transaction) :=
  fun w =>
    match x_import_vecs X (umem w) (ptr_vecs (param t)) (n_vecs (param t)) with
    | inl e => ((neg_errno e, t), w)
    | inr (vs, len) => ((0%Z, set_vecs vs len t), w)
    end.

Definition bus1_transaction_import_handles (t : bus1_transaction) : M Z :=
  fun w =>
    (status_of (x_handle_transfer_import X (umem w) (peer t)
                  (ptr_handles (param t)) (n_handles (param t))), w).

Fixpoint import_files_loop (t : bus1_transaction) (slots : list nat)
    : M (Z * bus1_transaction) :=
  match slots with
  | [] => ret (0%Z, t)
  | i :: rest =>
      fun w =>
        match x_import_fd X (umem w) (ptr_fds (param t) + 4 * N.of_nat i) with
        | inl e => ((neg_errno e, t), w)
        | inr f => import_files_loop (set_files (<[i := Some f]> (files t)) t) rest w
        end
  end.

Definition bus1_transaction_import_files (t : bus1_transaction)
    : M (Z * bus1_transaction) :=
  import_files_loop t (upto (n_fds (param t))).

(** [bus1_transaction_free]: NULL is a no-op; the object is released with
    [kfree] unless it is the caller's stack buffer. *)
Definition bus1_transaction_free (t : option bus1_transaction) : M unit :=
  match t with
  | None => ret tt
  | Some t =>
      do t <- bus1_transaction_destroy t;
      when (on_heap t) (emit EvKfree)
  end.

Definition bus1_transaction_new_from_user (stack_buffer : list (option N))
    (stack_size : N) (sender : N) (p : bus1_cmd_send) (current : task)
    : M (Z + bus1_transaction) :=
  let size := bus1_transaction_size p in
  let place :=
    if stack_size <? size
    then match x_kmalloc X size with
         | None => None
         | Some mem => Some (mem, true)
         end
    else Some (stack_buffer, false) in
  match place with
  | None => ret (inl (neg_errno ENOMEM))
  | Some (backing, heap) =>
      do t <- bus1_transaction_init backing heap sender p current;
      do rt <- bus1_transaction_import_vecs t;
      let '(r, t) := rt in
      if (r <? 0)%Z
      then run bus1_transaction_free (Some t); ret (inl r)
      else
        do r <- bus1_transaction_import_handles t;
        if (r <? 0)%Z
        then run bus1_transaction_free (Some t); ret (inl r)
        else
          do rt <- bus1_transaction_import_files t;
          let '(r, t) := rt in
          if (r <? 0)%Z
          then run bus1_transaction_free (Some t); ret (inl r)
          else ret (inr t)
  end.

Definition flag_set (fl bit : N) : bool := negb (N.land fl bit =? 0).

(** The [error:] label of [bus1_transaction_instantiate]. *)
Definition instantiate_error (message : option bus1_message) (p : N) (r : Z)
    : M (Z + bus1_message) :=
  do message <-
    match message with
    | Some m =>
        run mutex_lock p;
        do m <- bus1_message_deallocate m p;
        run mutex_unlock p;
        ret (Some m)
    | None => ret None
    end;
  if (r <? 0)%Z
  then run bus1_message_free message; ret (inl r)
  else match message with
       | Some m => ret (inr m)
       | None => ret (inl r)       (* not reached: r = 0 only with a message *)
       end.

Definition get_files (t : bus1_transaction) (m : bus1_message)
    : M bus1_message :=
  run for_each (upto (n_fds (param t))) (fun i =>
        match files t !! i with
        | Some (Some f) => emit (EvGetFile f)
        | _ => ret tt
        end);
  ret (mk_message (qnode m) (slice m) (data_destination m) (data_cred m)
         (silent m)
         (map (fun i => mjoin (files t !! i)) (upto (n_fds (param t))))).

(** The result pairs the returned pointer (or [ERR_PTR]) with what the
    caller's [dest] holds on return. *)
Definition bus1_transaction_instantiate (t : bus1_transaction) (idp : N)
    : M ((Z + bus1_message) * option bus1_handle_dest) :=
  do imported <- bus1_handle_dest_import (peer t) idp;
  match imported with
  | (r, None) => ret (inl r, None)
  | (r, Some dest) =>
    if (r <? 0)%Z then ret (inl r, Some dest) else
    let p := raw_peer dest in
    do created <- bus1_message_new (length_vecs t) (n_fds (param t))
                    (n_handles (param t))
                    (flag_set (flags (param t)) (BUS1_SEND_FLAG_SILENT X));
    match created with
    | inl r =>
        do res <- instantiate_error None p r;
        ret (res, Some dest)
    | inr message =>
        do sender_info <- bus1_peer_dereference (peer t);
        run mutex_lock p;
        do allocated <- bus1_message_allocate message p (user sender_info)
                          (length_vecs t);
        run mutex_unlock p;
        let '(r, message) := allocated in
        if (r <? 0)%Z
        then
          let r := if flag_set (flags (param t)) (BUS1_SEND_FLAG_CONTINUE X)
                   then 0%Z else r in
          do res <- instantiate_error (Some message) p r;
          ret (res, Some dest)
        else
          do peer_info <- bus1_peer_dereference p;
          do r <- (fun w =>
                     (status_of (x_pool_write_iovec X (umem w)
                                   (default 0 (slice message)) (vecs t)
                                   (length_vecs t)), w));
          if (r <? 0)%Z
          then do res <- instantiate_error (Some message) p r;
               ret (res, Some dest)
          else
            let r := status_of (x_handle_inflight_instantiate X peer_info
                                  (handles t)) in
            if (r <? 0)%Z
            then do res <- instantiate_error (Some message) p r;
                 ret (res, Some dest)
            else
              let message :=
                mk_message (qnode message) (slice message)
                  (data_destination message)
                  (x_from_kuid_munged X (user_ns peer_info) (fst (cred t)),
                   x_from_kgid_munged X (user_ns peer_info) (snd (cred t)),
                   x_pid_nr_ns X (pid t) (pid_ns peer_info),
                   x_pid_nr_ns X (tid t) (pid_ns peer_info))
                  (silent message) (m_files message) in
              do message <- get_files t message;
              ret (inr message, Some dest)
    end
  end.

Definition bus1_transaction_instantiate_for_id (t : bus1_transaction)
    (idp : N) : M (Z * bus1_transaction) :=
  do res <- bus1_transaction_instantiate t idp;
  match res with
  | (inr message, Some dest) =>
      ret (0%Z, set_entries ((message, dest) :: entries t) t)
  | (inr message, None) =>         (* not reached: a message has a dest *)
      ret (0%Z, t)
  | (inl r, dest) =>
      run bus1_handle_dest_destroy dest;
      ret (r, t)
  end.

Definition write_back (dest : bus1_handle_dest) (id : N) : M bool :=
  match idp dest with
  | Some a => put_user id a
  | None => ret false
  end.

Definition bus1_transaction_consume (t : bus1_transaction)
    (message : bus1_message) (dest : bus1_handle_dest) (timestamp : N)
    : M Z :=
  run emit (EvConsume (qnode message) timestamp);
  let p := raw_peer dest in
  let id := BUS1_HANDLE_INVALID X in
  do ts <- (if timestamp =? 0
            then run mutex_lock (peer t);
                 do ts <- bus1_queue_tick (peer t);
                 run mutex_unlock (peer t);
                 ret ts
            else ret timestamp);
  run bus1_handle_inflight_install message dest;
  run mutex_lock p;
  do ts <- (if timestamp =? 0
            then do ts <- bus1_queue_sync p ts;
                 bus1_queue_tick p
            else ret ts);
  do idf <-
    match slice message with
    | None =>
        do faulted <- write_back dest id;
        do n <- atomic_inc_return_n_dropped p;
        run when (n =? 1) (bus1_peer_wake p);
        ret (id, faulted)
    | Some _ =>
        do queued <- bus1_queue_node_is_queued p (qnode message);
        if queued
        then do id <- bus1_handle_dest_export dest ts;
             do faulted <- write_back dest id;
             ret (id, faulted)
        else ret (id, false)
    end;
  let '(id, faulted) := idf in
  do r <-
    (if negb (id =? BUS1_HANDLE_INVALID X)
     then
       let message := set_destination id message in
       do woke <- bus1_queue_stage p message ts;
       run when woke (bus1_peer_wake p);
       run mutex_unlock p;
       run bus1_message_free None;
       ret 0%Z
     else
       let r := match slice message with
                | Some _ => neg_errno EHOSTUNREACH
                | None => 0%Z
                end in
       do _x <- bus1_queue_remove p (qnode message);
       do message <- bus1_message_deallocate message p;
       run mutex_unlock p;
       run bus1_message_free (Some message);
       ret r);
  run bus1_handle_dest_destroy (Some dest);
  ret (if faulted then neg_errno EFAULT else r).

(** The three loops of [bus1_transaction_commit]. *)
Fixpoint commit_stage_loop (l : list (bus1_message * bus1_handle_dest))
    (timestamp : N) : M N :=
  match l with
  | [] => ret timestamp
  | (message, dest) :: rest =>
      let p := raw_peer dest in
      run mutex_lock p;
      do timestamp <- bus1_queue_sync p timestamp;
      do timestamp <- bus1_queue_tick p;
      do woke <- bus1_queue_stage p message (u64_dec timestamp);
      run when woke (bus1_peer_wake p);
      run mutex_unlock p;
      commit_stage_loop rest timestamp
  end.

Fixpoint commit_sync_loop (l : list (bus1_message * bus1_handle_dest))
    (timestamp : N) : M unit :=
  match l with
  | [] => ret tt
  | (message, dest) :: rest =>
      let p := raw_peer dest in
      run mutex_lock p;
      do _x <- bus1_queue_sync p timestamp;
      run mutex_unlock p;
      commit_sync_loop rest timestamp
  end.

Fixpoint commit_consume_loop (t : bus1_transaction)
    (l : list (bus1_message * bus1_handle_dest)) (timestamp : N) (res : Z)
    : M Z :=
  match l with
  | [] => ret res
  | (message, dest) :: rest =>
      do r <- bus1_transaction_consume t message dest timestamp;
      commit_consume_loop t rest timestamp
        (if (r =? neg_errno EFAULT)%Z then r else res)
  end.

Definition bus1_transaction_commit (t : bus1_transaction)
    : M (Z * bus1_transaction) :=
  match entries t with
  | [] => ret (0%Z, t)
  | list =>
      let t := set_entries [] t in
      run mutex_lock (peer t);
      do timestamp <- bus1_queue_tick (peer t);
      run mutex_unlock (peer t);
      do timestamp <- commit_stage_loop list timestamp;
      run commit_sync_loop list timestamp;
      do res <- commit_consume_loop t list timestamp 0%Z;
      ret (res, t)
  end.

Definition bus1_transaction_commit_for_id (t : bus1_transaction) (idp : N)
    : M Z :=
  do res <- bus1_transaction_instantiate t idp;
  match res with
  | (inr message, Some dest) =>
      do r <- bus1_transaction_consume t message dest 0;
      run bus1_handle_dest_destroy None;
      ret r
  | (inr message, None) =>         (* not reached: a message has a dest *)
      ret 0%Z
  | (inl r, dest) =>
      run bus1_handle_dest_destroy dest;
      ret r
  end.

(** ** Auxiliary definitions for the statements below *)

(** The part of [bus1_transaction_commit] before the sync pass: the tick on
    the sender and the staging pass. *)
Definition commit_staged (t : bus1_transaction)
    (l : list (bus1_message * bus1_handle_dest)) : M N :=
  run mutex_lock (peer t);
  do timestamp <- bus1_queue_tick (peer t);
  run mutex_unlock (peer t);
  commit_stage_loop l timestamp.

(** [bus1_transaction_commit] with other tasks acting on the world between
    the sync pass and the commit pass. *)
Definition commit_interrupted (race : world -> world) (t : bus1_transaction)
    : M (Z * bus1_transaction) :=
  fun w =>
    match entries t with
    | [] => ((0%Z, t), w)
    | list =>
        let '(t0, w1) := commit_staged t list w in
        let '(_, w2) := commit_sync_loop list t0 w1 in
        let '(res, w3) :=
          commit_consume_loop (set_entries [] t) list t0 0%Z (race w2) in
        ((res, set_entries [] t), w3)
    end.

(** The message [bus1_message_new] hands out in world [w]. *)
Definition fresh_message (t : bus1_transaction) (w : world) : bus1_message :=
  mk_message (next_node w) None (BUS1_HANDLE_INVALID X) (0, 0, 0, 0)
    (flag_set (flags (param t)) (BUS1_SEND_FLAG_SILENT X))
    (replicate (N.to_nat (n_fds (param t))) None).

(** The part of [bus1_transaction_consume] that runs with the destination's
    lock held and the timestamp settled, up to the return. *)
Definition consume_locked (message : bus1_message) (dest : bus1_handle_dest)
    (ts : N) : M Z :=
  let p := raw_peer dest in
  let id := BUS1_HANDLE_INVALID X in
  do idf <-
    match slice message with
    | None =>
        do faulted <- write_back dest id;
        do n <- atomic_inc_return_n_dropped p;
        run when (n =? 1) (bus1_peer_wake p);
        ret (id, faulted)
    | Some _ =>
        do queued <- bus1_queue_node_is_queued p (qnode message);
        if queued
        then do id <- bus1_handle_dest_export dest ts;
             do faulted <- write_back dest id;
             ret (id, faulted)
        else ret (id, false)
    end;
  let '(id, faulted) := idf in
  do r <-
    (if negb (id =? BUS1_HANDLE_INVALID X)
     then
       let message := set_destination id message in
       do woke <- bus1_queue_stage p message ts;
       run when woke (bus1_peer_wake p);
       run mutex_unlock p;
       run bus1_message_free None;
       ret 0%Z
     else
       let r := match slice message with
                | Some _ => neg_errno EHOSTUNREACH
                | None => 0%Z
                end in
       do _x <- bus1_queue_remove p (qnode message);
       do message <- bus1_message_deallocate message p;
       run mutex_unlock p;
       run bus1_message_free (Some message);
       ret r);
  run bus1_handle_dest_destroy (Some dest);
  ret (if faulted then neg_errno EFAULT else r).

End Model.

(** ** A concrete bus

    One sender (peer 1) and three receivers.  Peer 4 has no room left in
    its pool.  The user words at 1008 and 1024 are mapped read-only. *)
Module Scenario.

Definition EBADF : errno := 9%positive.
Definition ENXIO : errno := 6%positive.
Definition EDQUOT : errno := 122%positive.

(** The queue keeps its nodes in the order they were staged here; the
    first node is visible when its timestamp is even (committed). *)
Definition front (l : list (N * (N * bus1_message))) : option N :=
  match l with
  | (n, (ts, _)) :: _ => if N.even ts then Some n else None
  | [] => None
  end.

Definition bus : collaborators :=
  {| x_tick_step := 2%positive;
     x_queue_front := front;
     BUS1_HANDLE_INVALID := U64_MAX;
     BUS1_SEND_FLAG_CONTINUE := 1;
     BUS1_SEND_FLAG_SILENT := 2;
     x_handle_resolve := fun _ id => if id =? 0 then inl ENXIO else inr id;
     x_handle_dest_export := fun d _ _ => raw_peer d + 100;
     x_handle_inflight_instantiate := fun _ _ => None;
     x_handle_transfer_import := fun _ _ _ _ => None;
     x_message_new := fun _ _ _ => None;
     x_message_allocate := fun pi len _ =>
       if len <=? pool pi then inr 7 else inl EDQUOT;
     x_pool_write_iovec := fun _ _ _ _ => None;
     x_kmalloc := fun _ => None;
     x_sizeof_transaction := 128;
     x_handle_batch_inline_size := fun n => 8 * n;
     x_import_vecs := fun _ _ _ => inr ([], 4);
     x_import_fd := fun um a =>
       match um !! a with
       | Some c => inr (u_val c)
       | None => inl EBADF
       end;
     x_from_kuid_munged := fun _ u => u;
     x_from_kgid_munged := fun _ g => g;
     x_pid_nr_ns := fun p _ => p |}.

Definition idle (now room : N) : bus1_peer_info :=
  mk_peer (mk_queue now []) 0 0 0 0 room.

Definition machine : world :=
  {| peers := <[1 := idle 10 64]> (<[2 := idle 100 64]>
                (<[3 := idle 4 64]> (<[4 := idle 50 0]> ∅)));
     umem := <[1000 := mk_ucell 2 true]> (<[1008 := mk_ucell 3 false]>
                (<[1016 := mk_ucell 3 true]> (<[1024 := mk_ucell 4 false]> ∅)));
     next_node := 0;
     trace := [] |}.

Definition send (fl : N) : bus1_transaction :=
  {| peer := 1; param := mk_param fl 0 0 0 0 0 0; cred := (1000, 1000);
     pid := 77; tid := 78; vecs := []; files := []; length_vecs := 4;
     entries := []; handles := 0; on_heap := false |}.

(** A message as instantiation leaves it on this bus. *)
Definition msg (node : N) (s : option N) (creds : N * N * N * N)
    : bus1_message :=
  mk_message node s U64_MAX creds false [].

(** Two destinations instantiated: first peer 2, then peer 3. *)
Definition two_instantiated : bus1_transaction * world :=
  let '((_, t1), w1) := bus1_transaction_instantiate_for_id bus (send 0) 1000 machine in
  let '((_, t2), w2) := bus1_transaction_instantiate_for_id bus t1 1016 w1 in
  (t2, w2).

(** With CONTINUE, the destination with the full pool, addressed through a
    read-only word. *)
Definition dropped_instantiated : (Z * bus1_transaction) * world :=
  bus1_transaction_instantiate_for_id bus (send 1) 1024 machine.

(** The receiver of peer 3 resets its queue. *)
Definition reset_peer_3 (w : world) : world :=
  set_peers (fun ps =>
    <[3 := set_queue (fun q => mk_queue (clock q) []) (ps !!! 3)]> ps) w.

End Scenario.

(** ** A bus whose pools reject writes

    The bus of [Scenario], except that copying a payload into a slice
    fails. *)
Module Faults.

Definition EIO : errno := 5%positive.

Definition bus_write_error : collaborators :=
  {| x_tick_step := x_tick_step Scenario.bus;
     x_queue_front := x_queue_front Scenario.bus;
     BUS1_HANDLE_INVALID := BUS1_HANDLE_INVALID Scenario.bus;
     BUS1_SEND_FLAG_CONTINUE := BUS1_SEND_FLAG_CONTINUE Scenario.bus;
     BUS1_SEND_FLAG_SILENT := BUS1_SEND_FLAG_SILENT Scenario.bus;
     x_handle_resolve := x_handle_resolve Scenario.bus;
     x_handle_dest_export := x_handle_dest_export Scenario.bus;
     x_handle_inflight_instantiate := x_handle_inflight_instantiate Scenario.bus;
     x_handle_transfer_import := x_handle_transfer_import Scenario.bus;
     x_message_new := x_message_new Scenario.bus;
     x_message_allocate := x_message_allocate Scenario.bus;
     x_pool_write_iovec := fun _ _ _ _ => Some EIO;
     x_kmalloc := x_kmalloc Scenario.bus;
     x_sizeof_transaction := x_sizeof_transaction Scenario.bus;
     x_handle_batch_inline_size := x_handle_batch_inline_size Scenario.bus;
     x_import_vecs := x_import_vecs Scenario.bus;
     x_import_fd := x_import_fd Scenario.bus;
     x_from_kuid_munged := x_from_kuid_munged Scenario.bus;
     x_from_kgid_munged := x_from_kgid_munged Scenario.bus;
     x_pid_nr_ns := x_pid_nr_ns Scenario.bus |}.

(** A send of two descriptors and two vectors; the descriptor array is at
    1000, so the second descriptor (at 1004) is not mapped. *)
Definition two_fds : bus1_cmd_send := mk_param 0 0 2 0 0 1000 2.

(** A send of two descriptors and one vector, at the same addresses. *)
Definition one_vec_two_fds : bus1_cmd_send := mk_param 0 0 1 0 0 1000 2.

(** A send of one descriptor and no vector. *)
Definition one_fd : bus1_cmd_send := mk_param 0 0 0 0 0 1000 1.

Definition sender_task : task := mk_task (1000, 1000) 77 78.

End Faults.

(** ** A reset beside a read-only id pointer

    On the bus of [Scenario]: peer 2 is addressed through the writable word
    at 1000 and peer 3 through the read-only word at 1008. *)
Module Race.

Definition mixed_instantiated : bus1_transaction * world :=
  let '((_, t1), w1) :=
    bus1_transaction_instantiate_for_id Scenario.bus (Scenario.send 0) 1000
      Scenario.machine in
  let '((_, t2), w2) :=
    bus1_transaction_instantiate_for_id Scenario.bus t1 1008 w1 in
  (t2, w2).

(** The receiver of peer 2 resets its queue. *)
Definition reset_peer_2 (w : world) : world :=
  set_peers (fun ps =>
    <[2 := set_queue (fun q => mk_queue (clock q) []) (ps !!! 2)]> ps) w.

End Race.


(** * Properties

    ** Observations on a world and on its trace *)

Definition clk (w : world) (p : N) : N := clock (queue (peers w !!! p)).
Definition linked (w : world) (p : N) : list (N * (N * bus1_message)) :=
  nodes (queue (peers w !!! p)).
Definition dropped (w : world) (p : N) : N := n_dropped (peers w !!! p).
Definition writable (w : world) (a : N) : bool :=
  match umem w !! a with Some c => u_writable c | None => false end.

Definition is_fault (e : event) : bool :=
  match e with EvPutUser _ _ false => true | _ => false end.
Definition is_put_user (e : event) : bool :=
  match e with EvPutUser _ _ _ => true | _ => false end.
Definition is_clock_event (e : event) : bool :=
  match e with EvTick _ _ | EvSync _ _ _ => true | _ => false end.
Definition consume_call (e : event) : option (N * N) :=
  match e with EvConsume n ts => Some (n, ts) | _ => None end.
Definition stage_call (e : event) : option (N * N * N) :=
  match e with EvStage p n ts _ => Some (p, n, ts) | _ => None end.
Definition destroy_call (e : event) : option (option N) :=
  match e with EvDestDestroy p => Some p | _ => None end.

(** The id a consumed entry is committed under, if it is committed. *)
Definition committed_id (X : collaborators) (m : bus1_message)
    (d : bus1_handle_dest) (ts : N) (w : world) : option N :=
  match slice m with
  | None => None
  | Some _ =>
      if queue_node_is_queued (queue (peers w !!! raw_peer d)) (qnode m)
      then
        let id := x_handle_dest_export X d (peers w !!! raw_peer d) ts in
        if id =? BUS1_HANDLE_INVALID X then None else Some id
      else None
  end.

(** The commit protocol as the specification words it, over abstract
    clocks. *)
Inductive pstep :=
| PLock (p : N)
| PUnlock (p : N)
| PTick (p now : N)
| PSync (p ts now : N)
| PStage (p node ts : N).

Definition protocol_step (e : event) : option pstep :=
  match e with
  | EvLock p => Some (PLock p)
  | EvUnlock p => Some (PUnlock p)
  | EvTick p now => Some (PTick p now)
  | EvSync p ts now => Some (PSync p ts now)
  | EvStage p n ts _ => Some (PStage p n ts)
  | _ => None
  end.

Definition clocks := N -> N.

Definition set_clock (c : clocks) (p v : N) : clocks :=
  fun q => if q =? p then v else c q.

Definition spec_tick (step : N) (c : clocks) (p : N) : N * clocks :=
  let now := c p + step in (now, set_clock c p now).

Definition spec_sync (c : clocks) (p t : N) : N * clocks :=
  let now := N.max (c p) t in (now, set_clock c p now).

Fixpoint spec_staging_pass (step : N) (c : clocks) (t0 : N)
    (l : list (N * N)) : list pstep * (N * clocks) :=
  match l with
  | [] => ([], (t0, c))
  | (node, p) :: rest =>
      let '(t1, c1) := spec_sync c p t0 in
      let '(t2, c2) := spec_tick step c1 p in
      let '(steps, r) := spec_staging_pass step c2 t2 rest in
      (PLock p :: PSync p t0 t1 :: PTick p t2 :: PStage p node (t2 - 1)
         :: PUnlock p :: steps, r)
  end.

Fixpoint spec_sync_pass (c : clocks) (t0 : N) (l : list (N * N))
    : list pstep * clocks :=
  match l with
  | [] => ([], c)
  | (node, p) :: rest =>
      let '(t1, c1) := spec_sync c p t0 in
      let '(steps, r) := spec_sync_pass c1 t0 rest in
      (PLock p :: PSync p t0 t1 :: PUnlock p :: steps, r)
  end.

Definition spec_commit_protocol (step : N) (c : clocks) (sender : N)
    (l : list (N * N)) : list pstep * (N * clocks) :=
  let '(t0, c0) := spec_tick step c sender in
  let '(s1, (t0, c1)) := spec_staging_pass step c0 t0 l in
  let '(s2, c2) := spec_sync_pass c1 t0 l in
  (PLock sender :: PTick sender (c sender + step) :: PUnlock sender
     :: s1 ++ s2, (t0, c2)).

Definition entry_key (e : bus1_message * bus1_handle_dest) : N * N :=
  (qnode (fst e), raw_peer (snd e)).

(** Events of the staging and sync passes: no consume call, no write to
    user memory. *)
Definition quiet_event (e : event) : bool :=
  match e with
  | EvPutUser _ _ _ | EvConsume _ _ => false
  | _ => true
  end.

Definition quiet (tl : list event) : Prop := forallb quiet_event tl = true.

Definition sliceless_for (p : N) (e : bus1_message * bus1_handle_dest) : bool :=
  bool_decide (p = raw_peer (snd e) /\ slice (fst e) = None).

(** Whatever is linked for [node] in the queue of [p] is linked at [ts]. *)
Definition linked_at (ts : N) (w : world) (p node : N) : Prop :=
  forall x, node_lookup node (linked w p) = Some x -> fst x = ts.

Definition staged_entry (s : pstep) : option (N * N) :=
  match s with PStage p n _ => Some (n, p) | _ => None end.

Definition synced_peer (s : pstep) : option N :=
  match s with PSync p _ _ => Some p | _ => None end.

(** The events a computation added to the trace. *)
Definition trace_since (w w' : world) : list event :=
  drop (length (trace w)) (trace w').



(** Teardown as the specification words it: for each listed entry, under
    the destination's lock, remove the node from the queue and wake the peer
    iff that changed the front, deallocate the slice, then free the message
    and release the destination pin; afterwards release the remaining file
    references and the handle-transfer descriptor. *)
Definition front_moved (X : collaborators)
    (before after : list (N * (N * bus1_message))) : bool :=
  negb (bool_decide (x_queue_front X before = x_queue_front X after)).

Fixpoint spec_teardown_entries (X : collaborators)
    (q : N -> list (N * (N * bus1_message)))
    (l : list (bus1_message * bus1_handle_dest)) : list event :=
  match l with
  | [] => []
  | (m, d) :: rest =>
      let p := raw_peer d in
      let after := node_delete (qnode m) (q p) in
      let changed := front_moved X (q p) after in
      [EvLock p; EvRemove p (qnode m) changed]
      ++ (if changed then [EvWake p] else [])
      ++ [EvDeallocate p (qnode m); EvUnlock p;
          EvMessageFree (Some (qnode m)); EvDestDestroy (Some p)]
      ++ spec_teardown_entries X (fun r => if r =? p then after else q r) rest
  end.

Definition spec_release_files (fs : list (option N)) (n : N) : list event :=
  omap (fun i => EvFput <$> mjoin (fs !! i)) (upto n).


(** Scans the events of a commit pass: [true] when, inside every consume
    call, each write to user memory comes before the call stages its node.
    [staged] says whether the current call has staged already. *)
Fixpoint writes_precede_stage (staged : bool) (tr : list event) : bool :=
  match tr with
  | [] => true
  | EvConsume _ _ :: rest => writes_precede_stage false rest
  | EvStage _ _ _ _ :: rest => writes_precede_stage true rest
  | EvPutUser _ _ _ :: rest => negb staged && writes_precede_stage staged rest
  | _ :: rest => writes_precede_stage staged rest
  end.

Definition starts_with_consume (tr : list event) : bool :=
  match tr with
  | [] | EvConsume _ _ :: _ => true
  | _ => false
  end.


(** The lock of peer [p] is the one held; no lock is held. *)
Definition holds (held : option N) (p : N) : bool :=
  match held with Some q => q =? p | None => false end.

Definition unlocked (held : option N) : bool :=
  match held with Some _ => false | None => true end.

(** The locking discipline, read off a trace.  [held] is the peer whose
    lock the task holds.  A lock is taken only when none is held and
    released only by its holder; a queue operation, a slice operation, a
    drop count, an export or a wake-up on a peer happens under that peer's
    lock; messages are freed, handles installed, files and destination pins
    released with no lock held; at the end no lock is held. *)
Fixpoint lock_discipline (held : option N) (tr : list event) : bool :=
  match tr with
  | [] => unlocked held
  | EvLock p :: rest => unlocked held && lock_discipline (Some p) rest
  | EvUnlock p :: rest => holds held p && lock_discipline None rest
  | EvTick p _ :: rest | EvSync p _ _ :: rest | EvStage p _ _ _ :: rest
  | EvRemove p _ _ :: rest | EvAllocate p _ _ :: rest
  | EvDeallocate p _ :: rest | EvWake p :: rest | EvDropped p _ :: rest
  | EvExport p _ _ :: rest =>
      holds held p && lock_discipline held rest
  | EvMessageFree _ :: rest | EvDestDestroy _ :: rest | EvInstall _ _ :: rest
  | EvFput _ :: rest | EvTransferDestroy :: rest | EvKfree :: rest =>
      unlocked held && lock_discipline held rest
  | _ :: rest => lock_discipline held rest
  end.

(** One clock operation, seen through the observations. *)
Definition same_but_clock (p now : N) (e : event) (w w1 : world) : Prop :=
  trace w1 = trace w ++ [e] /\
  umem w1 = umem w /\ next_node w1 = next_node w /\
  (forall q, linked w1 q = linked w q) /\
  (forall q, dropped w1 q = dropped w q) /\
  (forall q, clk w1 q = if bool_decide (q = p) then now else clk w q).

(** The entries of a transaction are distinct messages, all handed out by
    the allocator already. *)
Definition entries_fresh (t : bus1_transaction) (w : world) : Prop :=
  NoDup (map (fun e => qnode (fst e)) (entries t)) /\
  Forall (fun e => qnode (fst e) < next_node w) (entries t).

(** Calls of [bus1_peer_wake] and of [bus1_message_free] in a trace. *)
Definition is_wake (e : event) : bool :=
  match e with EvWake _ => true | _ => false end.

(** The wake-up an event of a commit calls for: staging that changed the
    front of the queue, and the first drop counted on a peer. *)
Definition wake_due (e : event) : option N :=
  match e with
  | EvStage p _ _ true => Some p
  | EvDropped p n => if n =? 1 then Some p else None
  | _ => None
  end.

(** Scans a trace: a wake-up that is due is the very next event, and no
    other wake-up occurs.  [due] is what the previous event calls for. *)
Fixpoint wakes_as_due (due : option N) (tr : list event) : bool :=
  match tr with
  | [] => match due with None => true | Some _ => false end
  | e :: rest =>
      match due, e with
      | Some p, EvWake q => (p =? q) && wakes_as_due None rest
      | Some _, _ => false
      | None, EvWake _ => false
      | None, _ => wakes_as_due (wake_due e) rest
      end
  end.

Definition free_call (e : event) : option (option N) :=
  match e with EvMessageFree n => Some n | _ => None end.

Section Facts.
Context (X : collaborators).

Lemma node_lookup_delete k n l :
  node_lookup k (node_delete n l) = if k =? n then None else node_lookup k l.
Proof.
  unfold node_lookup, node_delete.
  induction l as [|[a x] l IH]; simpl.
  - by destruct (k =? n).
  - destruct (N.eqb_spec a n) as [->|Hne]; simpl.
    + rewrite IH. destruct (N.eqb_spec k n) as [->|Hk]; [done|].
      destruct (N.eqb_spec n k); [congruence|done].
    + destruct (N.eqb_spec a k) as [->|Hak]; simpl.
      * destruct (N.eqb_spec k n); [congruence|done].
      * exact IH.
Qed.

Lemma node_lookup_app k l n x :
  node_lookup k (l ++ [(n, x)]) =
  match node_lookup k l with
  | Some y => Some y
  | None => if k =? n then Some x else None
  end.
Proof.
  unfold node_lookup.
  induction l as [|[a y] l IH]; simpl.
  - rewrite (N.eqb_sym n k). by destruct (k =? n).
  - destruct (a =? k); simpl; [done|exact IH].
Qed.

Lemma node_lookup_restage k n x l :
  node_lookup k (node_delete n l ++ [(n, x)]) =
  if k =? n then Some x else node_lookup k l.
Proof.
  rewrite node_lookup_app, node_lookup_delete.
  destruct (k =? n); [done|]. by destruct (node_lookup k l).
Qed.

Ltac unfold_m :=
  cbv [bind ret emit when mutex_lock mutex_unlock bus1_peer_wake
       bus1_peer_dereference update_peer
       bus1_queue_tick bus1_queue_sync bus1_queue_stage bus1_queue_remove
       bus1_queue_node_is_queued on_queue
       queue_tick queue_sync queue_stage queue_remove
       bus1_message_deallocate bus1_message_free bus1_handle_dest_destroy
       bus1_handle_dest_export bus1_handle_inflight_install
       atomic_inc_return_n_dropped write_back put_user get_user
       set_trace set_peers set_umem set_queue set_slice
       clk linked dropped writable] in *;
  cbn [trace peers umem next_node fst snd queue n_dropped clock nodes
       user_ns pid_ns user pool qnode slice set_destination
       data_destination data_cred silent m_files raw_peer idp] in *.

Ltac case_inner H :=
  match type of H with
  | context [match ?x with _ => _ end] =>
      lazymatch x with
      | context [match _ with _ => _ end] => fail
      | _ => destruct x eqn:?
      end
  end;
  try match goal with
      | Hn : negb (?a =? ?a) = true |- _ =>
          rewrite N.eqb_refl in Hn; discriminate Hn
      end;
  cbv beta iota zeta in H;
  cbn [trace peers umem next_node fst snd queue n_dropped clock nodes
       user_ns pid_ns user pool qnode slice set_destination] in H.

Ltac peer_lookup :=
  repeat first
    [ rewrite lookup_total_insert_eq
    | rewrite lookup_total_insert_ne by congruence
    | rewrite lookup_insert_eq
    | rewrite lookup_insert_ne by congruence ].

Ltac consume_cases H Hts :=
  unfold bus1_transaction_consume in H;
  apply N.eqb_neq in Hts; rewrite Hts in H;
  unfold_m;
  repeat case_inner H;
  simplify_eq;
  unfold_m.

Ltac at_peer p q :=
  destruct (decide (p = q)) as [?|?]; [subst|]; peer_lookup;
  cbn [trace peers umem next_node fst snd queue n_dropped clock nodes].

Lemma consume_frame t m d ts w r w' :
  ts <> 0 ->
  bus1_transaction_consume X t m d ts w = (r, w') ->
  (forall p, clk w' p = clk w p) /\
  (forall p k, p <> raw_peer d \/ k <> qnode m ->
     node_lookup k (linked w' p) = node_lookup k (linked w p)) /\
  (forall a, writable w' a = writable w a) /\
  (forall p, dropped w' p =
     dropped w p + (if bool_decide (p = raw_peer d /\ slice m = None) then 1 else 0)) /\
  next_node w' = next_node w.
Proof.
  intros Hts H. destruct w as [ps um nn tr].
  consume_cases H Hts.
  all: repeat split; try done.
  all: intros.
  all: try (at_peer (raw_peer d) p; try done).
  all: try (rewrite ?node_lookup_restage, ?node_lookup_delete;
            destruct (N.eqb_spec k (qnode m)); [|done]; subst;
            match goal with Hor : _ \/ _ |- _ => by destruct Hor end).
  all: try (match goal with |- context [<[?a:=_]> _ !! ?b] =>
              destruct (decide (a = b)) as [?|?]; [subst|]; peer_lookup end;
            try done; by simplify_option_eq).
  all: try (rewrite bool_decide_true by done; lia).
  all: try (rewrite bool_decide_false by (intros [? ?]; congruence); lia).
Qed.

Ltac in_trace :=
  solve [ repeat first
    [ assumption
    | apply elem_of_cons; left; reflexivity
    | apply elem_of_cons; right
    | apply elem_of_app; left; assumption
    | apply elem_of_app; right ] ].

Ltac flat_trace :=
  rewrite <- ?app_assoc; cbn [app].

Lemma consume_trace t m d ts w r w' :
  ts <> 0 ->
  bus1_transaction_consume X t m d ts w = (r, w') ->
  exists tl,
    trace w' = trace w ++ EvConsume (qnode m) ts :: tl /\
    omap consume_call tl = [] /\
    forallb (fun e => negb (is_clock_event e)) tl = true /\
    Forall (fun c => c = (raw_peer d, qnode m, ts)) (omap stage_call tl) /\
    omap destroy_call tl = [Some (raw_peer d)] /\
    r = (if existsb is_fault tl then neg_errno EFAULT
         else match slice m, committed_id X m d ts w with
              | Some _, None => neg_errno EHOSTUNREACH
              | _, _ => 0%Z
              end).
Proof.
  intros Hts H. destruct w as [ps um nn tr].
  unfold committed_id.
  consume_cases H Hts.
  all: flat_trace; eexists; split; [reflexivity|].
  all: cbn [omap list_omap consume_call stage_call destroy_call forallb existsb
            is_clock_event is_fault negb andb orb].
  all: repeat match goal with
       | Hq : _ = _ |- _ => rewrite Hq
       end; cbn [negb].
  all: repeat split; try done.
  all: repeat constructor.
  all: match goal with
       | Hn : negb ?b = _ |- _ => destruct b; cbn in Hn; try discriminate
       end; done.
Qed.

Lemma u64_dec_pos ts : ts <> 0 -> u64_dec ts = ts - 1.
Proof. intros H. unfold u64_dec. by destruct (N.eqb_spec ts 0). Qed.

Lemma set_clock_eq c p v : set_clock c p v p = v.
Proof. unfold set_clock. by rewrite N.eqb_refl. Qed.

Lemma set_clock_ne c p v q : q <> p -> set_clock c p v q = c q.
Proof. unfold set_clock. intros. by destruct (N.eqb_spec q p). Qed.

Lemma quiet_app a b : quiet a -> quiet b -> quiet (a ++ b).
Proof. unfold quiet. intros H1 H2. by rewrite forallb_app, H1, H2. Qed.

Lemma quiet_no_fault tl : quiet tl -> existsb is_fault tl = false.
Proof.
  unfold quiet. induction tl as [|e tl IH]; [done|].
  cbn. intros [He Htl]%andb_prop. destruct e; try done; by apply IH.
Qed.

Lemma quiet_no_put_user tl : quiet tl -> existsb is_put_user tl = false.
Proof.
  unfold quiet. induction tl as [|e tl IH]; [done|].
  cbn. intros [He Htl]%andb_prop. destruct e; try done; by apply IH.
Qed.

Ltac norm_in H :=
  repeat (rewrite ?lookup_total_insert_eq, ?insert_insert_eq in H;
          cbn [queue n_dropped clock nodes user_ns pid_ns user pool] in H).

Lemma stage_loop_spec l : forall ts w c t0 w1,
  (forall p, clk w p = c p) ->
  commit_stage_loop X l ts w = (t0, w1) ->
  exists tl,
    trace w1 = trace w ++ tl /\ quiet tl /\
    omap protocol_step tl =
      fst (spec_staging_pass (Npos (x_tick_step X)) c ts (map entry_key l)) /\
    t0 = fst (snd (spec_staging_pass (Npos (x_tick_step X)) c ts (map entry_key l))) /\
    (forall p, clk w1 p =
       snd (snd (spec_staging_pass (Npos (x_tick_step X)) c ts (map entry_key l))) p) /\
    umem w1 = umem w /\ next_node w1 = next_node w /\
    (forall p, dropped w1 p = dropped w p).
Proof.
  induction l as [|[m d] l IH]; intros ts w c t0 w1 Hc H.
  - cbn in H. unfold ret in H. simplify_eq. exists [].
    rewrite app_nil_r. by repeat split.
  - cbn [commit_stage_loop] in H.
    destruct w as [ps um nn tr]. unfold_m.
    norm_in H. rewrite (Hc (raw_peer d)) in H.
    cbn [map entry_key fst snd spec_staging_pass spec_sync spec_tick].
    rewrite !set_clock_eq.
    set (t1 := N.max (c (raw_peer d)) ts) in *.
    set (t2 := t1 + Npos (x_tick_step X)) in *.
    assert (Ht2 : u64_dec t2 = t2 - 1) by (apply u64_dec_pos; lia).
    rewrite Ht2 in H.
    destruct (spec_staging_pass _ (set_clock (set_clock c (raw_peer d) t1) (raw_peer d) t2)
                t2 (map entry_key l)) as [steps [t0' c']] eqn:Hspec.
    repeat case_inner H.
    all: apply (IH _ _ (set_clock (set_clock c (raw_peer d) t1) (raw_peer d) t2)) in H;
      [|intros p; unfold_m; at_peer (raw_peer d) p;
        [by rewrite set_clock_eq | by rewrite !set_clock_ne by done]].
    all: rewrite Hspec in H; destruct H as (tl & Htr & Hq & Hp & Ht0 & Hclk & Hum & Hnn & Hdr).
    all: unfold_m; rewrite Htr; flat_trace.
    all: eexists; split; [reflexivity|].
    all: unfold quiet; cbn [omap list_omap protocol_step fst snd forallb quiet_event andb].
    all: repeat split; try done.
    all: try (intros p; rewrite Hdr; at_peer (raw_peer d) p; done).
    all: try (f_equal; cbn in Hp; by rewrite Hp).
Qed.

Lemma sync_loop_spec l : forall ts w c w1,
  (forall p, clk w p = c p) ->
  commit_sync_loop l ts w = (tt, w1) ->
  exists tl,
    trace w1 = trace w ++ tl /\ quiet tl /\
    omap protocol_step tl = fst (spec_sync_pass c ts (map entry_key l)) /\
    (forall p, clk w1 p = snd (spec_sync_pass c ts (map entry_key l)) p) /\
    (forall p, linked w1 p = linked w p) /\
    umem w1 = umem w /\ next_node w1 = next_node w /\
    (forall p, dropped w1 p = dropped w p).
Proof.
  induction l as [|[m d] l IH]; intros ts w c w1 Hc H.
  - cbn in H. unfold ret in H. simplify_eq. exists [].
    rewrite app_nil_r. by repeat split.
  - cbn [commit_sync_loop] in H.
    destruct w as [ps um nn tr]. unfold_m.
    norm_in H. rewrite (Hc (raw_peer d)) in H.
    cbn [map entry_key fst snd spec_sync_pass spec_sync].
    set (t1 := N.max (c (raw_peer d)) ts) in *.
    destruct (spec_sync_pass (set_clock c (raw_peer d) t1) ts (map entry_key l))
      as [steps c'] eqn:Hspec.
    apply (IH _ _ (set_clock c (raw_peer d) t1)) in H;
      [|intros p; unfold_m; at_peer (raw_peer d) p;
        [by rewrite set_clock_eq | by rewrite !set_clock_ne by done]].
    rewrite Hspec in H; destruct H as (tl & Htr & Hq & Hp & Hclk & Hln & Hum & Hnn & Hdr).
    unfold_m; rewrite Htr; flat_trace.
    eexists; split; [reflexivity|].
    unfold quiet; cbn [omap list_omap protocol_step fst snd forallb quiet_event andb].
    repeat split; try done.
    + f_equal; cbn in Hp; by rewrite Hp.
    + intros p; rewrite Hln; at_peer (raw_peer d) p; done.
    + intros p; rewrite Hdr; at_peer (raw_peer d) p; done.
Qed.

Lemma sync_loop_reaches l : forall c ts e,
  e ∈ l -> ts <= snd (spec_sync_pass c ts (map entry_key l)) (raw_peer (snd e)).
Proof.
  assert (Hmono : forall l c ts p,
    c p <= snd (spec_sync_pass c ts (map entry_key l)) p).
  { clear. induction l as [|[m d] l IH]; intros c ts p; [cbn; lia|].
    cbn [map entry_key fst snd spec_sync_pass spec_sync].
    destruct (spec_sync_pass _ ts (map entry_key l)) as [steps c'] eqn:Hs.
    cbn [snd]. specialize (IH (set_clock c (raw_peer d) (N.max (c (raw_peer d)) ts)) ts p).
    rewrite Hs in IH. cbn [snd] in IH.
    etrans; [|exact IH].
    destruct (decide (p = raw_peer d)) as [->|Hne].
    - rewrite set_clock_eq. lia.
    - rewrite set_clock_ne by done. lia. }
  induction l as [|[m d] l IH]; intros c ts e He; [by apply elem_of_nil in He|].
  cbn [map entry_key fst snd spec_sync_pass spec_sync].
  destruct (spec_sync_pass _ ts (map entry_key l)) as [steps c'] eqn:Hs.
  cbn [snd]. apply elem_of_cons in He as [->|He].
  - cbn [snd].
    specialize (Hmono l (set_clock c (raw_peer d) (N.max (c (raw_peer d)) ts)) ts (raw_peer d)).
    rewrite Hs, set_clock_eq in Hmono. cbn [snd] in Hmono. lia.
  - specialize (IH (set_clock c (raw_peer d) (N.max (c (raw_peer d)) ts)) ts e He).
    by rewrite Hs in IH.
Qed.

Lemma staging_pass_pos step l : forall c ts,
  0 < ts -> 0 < step ->
  0 < fst (snd (spec_staging_pass step c ts (map entry_key l))).
Proof.
  induction l as [|[m d] l IH]; intros c ts Hts Hstep; [done|].
  cbn [map entry_key fst snd spec_staging_pass spec_sync spec_tick].
  rewrite set_clock_eq.
  destruct (spec_staging_pass step _ _ (map entry_key l)) as [steps r] eqn:Hs.
  cbn [snd].
  match type of Hs with spec_staging_pass _ ?c2 ?t2 _ = _ =>
    specialize (IH c2 t2) end.
  rewrite Hs in IH. apply IH; lia.
Qed.

Lemma consume_own_node t m d ts w r w' :
  ts <> 0 ->
  bus1_transaction_consume X t m d ts w = (r, w') ->
  node_lookup (qnode m) (linked w' (raw_peer d)) =
  (fun id => (ts, set_destination id m)) <$> committed_id X m d ts w.
Proof.
  intros Hts H. destruct w as [ps um nn tr].
  unfold committed_id.
  consume_cases H Hts.
  all: peer_lookup; cbn [queue nodes].
  all: rewrite ?node_lookup_restage, ?node_lookup_delete, N.eqb_refl.
  all: repeat match goal with
       | Hq : _ = _ |- _ => rewrite Hq
       end.
  all: try done.
  all: match goal with
       | Hn : negb ?b = _ |- _ => destruct b; cbn in Hn; try discriminate
       end; done.
Qed.

Lemma consume_linked_at t m d ts w r w' p k :
  ts <> 0 ->
  bus1_transaction_consume X t m d ts w = (r, w') ->
  linked_at ts w p k -> linked_at ts w' p k.
Proof.
  intros Hts H Hat x Hx.
  destruct (decide (p = raw_peer d /\ k = qnode m)) as [[-> ->]|Hne].
  - rewrite (consume_own_node _ _ _ _ _ _ _ Hts H) in Hx.
    destruct (committed_id X m d ts w); by simplify_eq/=.
  - destruct (consume_frame _ _ _ _ _ _ _ Hts H) as (_ & Hfr & _).
    rewrite Hfr in Hx; [by apply Hat|].
    destruct (decide (p = raw_peer d)) as [->|?]; [right|left]; [|done].
    intros ->. by apply Hne.
Qed.

Lemma consume_loop_spec t l : forall ts res w res' w',
  ts <> 0 ->
  commit_consume_loop X t l ts res w = (res', w') ->
  exists tl,
    trace w' = trace w ++ tl /\
    omap consume_call tl = map (fun e => (qnode (fst e), ts)) l /\
    forallb (fun e => negb (is_clock_event e)) tl = true /\
    Forall (fun c => snd c = ts) (omap stage_call tl) /\
    omap destroy_call tl = map (fun e => Some (raw_peer (snd e))) l /\
    res' = (if existsb is_fault tl then neg_errno EFAULT else res) /\
    (forall p, clk w' p = clk w p) /\
    (forall a, writable w' a = writable w a) /\
    (forall p, dropped w' p =
       dropped w p + N.of_nat (length (List.filter (sliceless_for p) l))) /\
    next_node w' = next_node w.
Proof.
  induction l as [|[m d] l IH]; intros ts res w res' w' Hts H.
  - cbn in H. unfold ret in H. simplify_eq. exists [].
    rewrite app_nil_r. repeat split; try done. intros p; cbn; lia.
  - cbn [commit_consume_loop] in H. unfold bind at 1 in H.
    destruct (bus1_transaction_consume X t m d ts w) as [r w1] eqn:Hc.
    destruct (consume_frame _ _ _ _ _ _ _ Hts Hc) as (Hclk & _ & Hwr & Hdr & Hnn).
    destruct (consume_trace _ _ _ _ _ _ _ Hts Hc)
      as (tl1 & Htr1 & Hcc1 & Hck1 & Hst1 & Hds1 & Hr1).
    apply IH in H as (tl2 & Htr2 & Hcc2 & Hck2 & Hst2 & Hds2 & Hr2 & Hclk2 & Hwr2 & Hdr2 & Hnn2);
      [|done].
    exists (EvConsume (qnode m) ts :: tl1 ++ tl2).
    rewrite Htr2, Htr1. flat_trace.
    split; [done|].
    cbn [omap list_omap consume_call stage_call destroy_call forallb existsb
         is_clock_event is_fault negb andb orb map fst snd].
    change (list_omap ?f ?l) with (omap f l).
    rewrite !omap_app, Hcc1, Hcc2, Hds1, Hds2, forallb_app, Hck1, Hck2, existsb_app.
    repeat split; try done.
    + apply Forall_app. split; [|done].
      eapply Forall_impl; [exact Hst1|]. by intros c ->.
    + rewrite Hr2, Hr1.
      destruct (existsb is_fault tl1); [by destruct (existsb is_fault tl2)|].
      cbn [orb].
      destruct (slice m), (committed_id X m d ts w); cbn; done.
    + intros p. by rewrite Hclk2, Hclk.
    + intros a. by rewrite Hwr2, Hwr.
    + intros p. rewrite Hdr2, Hdr. cbn [List.filter]. unfold sliceless_for at 2.
      cbn [fst snd]. destruct (bool_decide _); cbn [length]; lia.
    + by rewrite Hnn2, Hnn.
Qed.

Lemma consume_loop_linked_at t l : forall ts res w res' w' p k,
  ts <> 0 ->
  commit_consume_loop X t l ts res w = (res', w') ->
  linked_at ts w p k -> linked_at ts w' p k.
Proof.
  induction l as [|[m d] l IH]; intros ts res w res' w' p k Hts H Hat.
  - cbn in H. unfold ret in H. by simplify_eq.
  - cbn [commit_consume_loop] in H. unfold bind at 1 in H.
    destruct (bus1_transaction_consume X t m d ts w) as [r w1] eqn:Hc.
    eapply IH; [done|exact H|]. by eapply consume_linked_at.
Qed.

Lemma consume_loop_own_nodes t l : forall ts res w res' w' e,
  ts <> 0 ->
  commit_consume_loop X t l ts res w = (res', w') ->
  e ∈ l ->
  linked_at ts w' (raw_peer (snd e)) (qnode (fst e)).
Proof.
  induction l as [|[m d] l IH]; intros ts res w res' w' e Hts H He.
  - by apply elem_of_nil in He.
  - cbn [commit_consume_loop] in H. unfold bind at 1 in H.
    destruct (bus1_transaction_consume X t m d ts w) as [r w1] eqn:Hc.
    apply elem_of_cons in He as [->|He].
    + eapply consume_loop_linked_at; [done|exact H|].
      intros x Hx. cbn [fst snd] in Hx.
      rewrite (consume_own_node _ _ _ _ _ _ _ Hts Hc) in Hx.
      destruct (committed_id X m d ts w); by simplify_eq/=.
    + by eapply IH.
Qed.


Lemma commit_unfold t e l w :
  entries t = e :: l ->
  bus1_transaction_commit X t w =
  let '(t0, w1) := commit_staged X t (e :: l) w in
  let '(_, w2) := commit_sync_loop (e :: l) t0 w1 in
  let '(res, w3) := commit_consume_loop X (set_entries [] t) (e :: l) t0 0%Z w2 in
  ((res, set_entries [] t), w3).
Proof.
  intros He. unfold bus1_transaction_commit, commit_staged. rewrite He.
  unfold bind, mutex_lock, mutex_unlock, emit, bus1_queue_tick, on_queue, ret.
  cbn [fst snd peer set_entries].
  repeat match goal with
         | |- context [let (_, _) := ?x in _] => destruct x
         end.
  done.
Qed.

Lemma commit_staged_spec t l w c t0 w1 :
  (forall p, clk w p = c p) ->
  commit_staged X t l w = (t0, w1) ->
  let s0 := spec_tick (Npos (x_tick_step X)) c (peer t) in
  let s1 := spec_staging_pass (Npos (x_tick_step X)) (snd s0) (fst s0)
              (map entry_key l) in
  exists tl,
    trace w1 = trace w ++ tl /\ quiet tl /\
    omap protocol_step tl =
      PLock (peer t) :: PTick (peer t) (fst s0) :: PUnlock (peer t) :: fst s1 /\
    t0 = fst (snd s1) /\
    (forall p, clk w1 p = snd (snd s1) p) /\
    t0 <> 0 /\
    umem w1 = umem w /\ next_node w1 = next_node w /\
    (forall p, dropped w1 p = dropped w p).
Proof.
  unfold commit_staged. intros Hc H.
  destruct w as [ps um nn tr]. unfold_m. norm_in H.
  rewrite (Hc (peer t)) in H.
  cbn [spec_tick fst snd].
  set (ts := c (peer t) + Npos (x_tick_step X)) in *.
  apply (stage_loop_spec l ts _ (set_clock c (peer t) ts)) in H
    as (tl & Htr & Hq & Hp & Ht0 & Hclk & Hum & Hnn & Hdr).
  2:{ intros p. unfold_m. at_peer (peer t) p;
        [by rewrite set_clock_eq | by rewrite set_clock_ne by done]. }
  exists (EvLock (peer t) :: EvTick (peer t) ts :: EvUnlock (peer t) :: tl).
  unfold_m. rewrite Htr. flat_trace.
  cbn [omap list_omap protocol_step].
  change (list_omap ?f ?l) with (omap f l). rewrite Hp.
  repeat split; try done.
  - rewrite Ht0.
    pose proof (staging_pass_pos (Npos (x_tick_step X)) l (set_clock c (peer t) ts) ts).
    lia.
  - intros p. rewrite Hdr. at_peer (peer t) p; done.
Qed.

Lemma stage_loop_frame l : forall ts w t0 w1 p k,
  commit_stage_loop X l ts w = (t0, w1) ->
  (k, p) ∉ map entry_key l ->
  node_lookup k (linked w1 p) = node_lookup k (linked w p).
Proof.
  induction l as [|[m d] l IH]; intros ts w t0 w1 p k H Hk.
  - cbn in H. unfold ret in H. by simplify_eq.
  - cbn [commit_stage_loop] in H.
    cbn [map] in Hk. apply not_elem_of_cons in Hk as [Hk1 Hk2].
    unfold entry_key in Hk1. cbn [fst snd] in Hk1.
    destruct w as [ps um nn tr]. unfold_m. norm_in H.
    repeat case_inner H.
    all: rewrite (IH _ _ _ _ _ _ H Hk2); unfold_m.
    all: at_peer (raw_peer d) p; [|done].
    all: rewrite node_lookup_restage.
    all: destruct (N.eqb_spec k (qnode m)); [|done]; subst; by destruct Hk1.
Qed.

Lemma commit_staged_frame t l w t0 w1 p k :
  commit_staged X t l w = (t0, w1) ->
  (k, p) ∉ map entry_key l ->
  node_lookup k (linked w1 p) = node_lookup k (linked w p).
Proof.
  unfold commit_staged. intros H Hk.
  destruct w as [ps um nn tr]. unfold_m. norm_in H.
  pose proof (stage_loop_frame _ _ _ _ _ _ _ H Hk) as Hf. unfold_m.
  rewrite Hf. at_peer (peer t) p; done.
Qed.


Lemma stage_loop_keeps l : forall ts w t0 w1 p k,
  commit_stage_loop X l ts w = (t0, w1) ->
  is_Some (node_lookup k (linked w p)) ->
  is_Some (node_lookup k (linked w1 p)).
Proof.
  induction l as [|[m d] l IH]; intros ts w t0 w1 p k H Hk.
  - cbn in H. unfold ret in H. by simplify_eq.
  - cbn [commit_stage_loop] in H.
    destruct w as [ps um nn tr]. unfold_m. norm_in H.
    repeat case_inner H.
    all: apply (IH _ _ _ _ p k H); unfold_m.
    all: at_peer (raw_peer d) p; [|done].
    all: rewrite node_lookup_restage.
    all: by destruct (k =? qnode m).
Qed.

Lemma stage_loop_links l : forall ts w t0 w1 e,
  commit_stage_loop X l ts w = (t0, w1) ->
  e ∈ l ->
  is_Some (node_lookup (qnode (fst e)) (linked w1 (raw_peer (snd e)))).
Proof.
  induction l as [|[m d] l IH]; intros ts w t0 w1 e H He.
  - by apply elem_of_nil in He.
  - apply elem_of_cons in He as [->|He].
    + cbn [commit_stage_loop] in H. cbn [fst snd].
      destruct w as [ps um nn tr]. unfold_m. norm_in H.
      repeat case_inner H.
      all: apply (stage_loop_keeps _ _ _ _ _ _ _ H); unfold_m.
      all: peer_lookup; cbn [queue nodes].
      all: by rewrite node_lookup_restage, N.eqb_refl.
    + cbn [commit_stage_loop] in H. unfold bind in H.
      repeat match type of H with
             | (let (_, _) := ?x in _) = _ => destruct x
             end.
      by eapply IH.
Qed.

Lemma commit_staged_links t l w t0 w1 e :
  commit_staged X t l w = (t0, w1) ->
  e ∈ l ->
  is_Some (node_lookup (qnode (fst e)) (linked w1 (raw_peer (snd e)))).
Proof.
  unfold commit_staged. intros H He.
  destruct w as [ps um nn tr]. unfold_m.
  by eapply stage_loop_links.
Qed.

(** ** The commit protocol *)



Lemma trace_since_app w w' tl :
  trace w' = trace w ++ tl -> trace_since w w' = tl.
Proof. unfold trace_since. intros ->. by rewrite drop_app_length. Qed.

Lemma staging_pass_entries step l : forall c ts,
  omap staged_entry (fst (spec_staging_pass step c ts l)) = l /\
  omap synced_peer (fst (spec_staging_pass step c ts l)) = map snd l.
Proof.
  induction l as [|[n p] l IH]; intros c ts; [done|].
  cbn [spec_staging_pass spec_sync spec_tick].
  destruct (spec_staging_pass step _ _ l) as [steps r] eqn:Hs.
  match type of Hs with spec_staging_pass _ ?c2 ?t2 _ = _ =>
    destruct (IH c2 t2) as [IH1 IH2] end.
  rewrite Hs in IH1, IH2. cbn [fst] in *. cbn. by rewrite IH1, IH2.
Qed.

Lemma sync_pass_entries l : forall c ts,
  omap staged_entry (fst (spec_sync_pass c ts l)) = [] /\
  omap synced_peer (fst (spec_sync_pass c ts l)) = map snd l.
Proof.
  induction l as [|[n p] l IH]; intros c ts; [done|].
  cbn [spec_sync_pass spec_sync].
  destruct (spec_sync_pass _ ts l) as [steps r] eqn:Hs.
  match type of Hs with spec_sync_pass ?c2 _ _ = _ =>
    destruct (IH c2 ts) as [IH1 IH2] end.
  rewrite Hs in IH1, IH2. cbn [fst] in *. cbn. by rewrite IH1, IH2.
Qed.

(** Everything the three passes of a commit on a non-empty list do, in one
    place. *)
Lemma commit_run t e l w :
  entries t = e :: l ->
  let spec := spec_commit_protocol (Npos (x_tick_step X)) (clk w) (peer t)
                (map entry_key (entries t)) in
  exists res w2 w3 pre post,
    bus1_transaction_commit X t w = ((res, set_entries [] t), w3) /\
    commit_consume_loop X (set_entries [] t) (entries t) (fst (snd spec)) 0%Z w2
      = (res, w3) /\
    fst (snd spec) <> 0 /\
    trace w2 = trace w ++ pre /\ trace w3 = trace w2 ++ post /\
    quiet pre /\ omap protocol_step pre = fst spec /\
    (forall p, clk w2 p = snd (snd spec) p) /\
    umem w2 = umem w /\ next_node w2 = next_node w /\
    (forall p, dropped w2 p = dropped w p).
Proof.
  intros He. rewrite (commit_unfold _ _ _ _ He), He. cbv zeta.
  destruct (commit_staged X t (e :: l) w) as [t0 w1] eqn:H1.
  destruct (commit_sync_loop (e :: l) t0 w1) as [[] w2] eqn:H2.
  destruct (commit_consume_loop X (set_entries [] t) (e :: l) t0 0%Z w2)
    as [res w3] eqn:H3.
  pose proof (commit_staged_spec _ _ _ (clk w) _ _ (fun _ => eq_refl) H1)
    as (tl1 & Htr1 & Hq1 & Hp1 & Ht0 & Hclk1 & Hnz & Hum1 & Hnn1 & Hdr1).
  cbv zeta in Hp1, Ht0, Hclk1.
  pose proof (sync_loop_spec _ _ _ _ _ Hclk1 H2)
    as (tl2 & Htr2 & Hq2 & Hp2 & Hclk2 & _ & Hum2 & Hnn2 & Hdr2).
  pose proof (consume_loop_spec _ _ _ _ _ _ _ Hnz H3) as (tl3 & Htr3 & _).
  unfold spec_commit_protocol. cbn [spec_tick] in *.
  destruct (spec_staging_pass _ _ _ (map entry_key (e :: l)))
    as [s1 [t0' c1]] eqn:Hs1.
  cbn [fst snd] in *. subst t0'.
  destruct (spec_sync_pass c1 t0 (map entry_key (e :: l))) as [s2 c2] eqn:Hs2.
  cbn [fst snd] in *.
  exists res, w2, w3, (tl1 ++ tl2), tl3.
  split_and!; try done.
  - by rewrite Htr2, Htr1, app_assoc.
  - by apply quiet_app.
  - by rewrite omap_app, Hp1, Hp2.
  - congruence.
  - congruence.
  - intros p. by rewrite Hdr2, Hdr1.
Qed.



(** ** Entries without a slice *)

Lemma consume_sliceless t m d ts w r w' :
  ts <> 0 -> slice m = None ->
  bus1_transaction_consume X t m d ts w = (r, w') ->
  exists tl,
    trace w' = trace w ++ tl /\
    (forall a, idp d = Some a ->
       EvPutUser a (BUS1_HANDLE_INVALID X) (writable w a) ∈ tl) /\
    omap stage_call tl = [] /\
    EvDropped (raw_peer d) (dropped w (raw_peer d) + 1) ∈ tl /\
    r = match idp d with
        | Some a => if writable w a then 0%Z else neg_errno EFAULT
        | None => 0%Z
        end /\
    node_lookup (qnode m) (linked w' (raw_peer d)) = None /\
    dropped w' (raw_peer d) = dropped w (raw_peer d) + 1.
Proof.
  intros Hts Hs H. destruct w as [ps um nn tr].
  consume_cases H Hts; try congruence.
  all: flat_trace; eexists; split; [reflexivity|].
  all: cbn [omap list_omap stage_call].
  all: peer_lookup; cbn [queue nodes n_dropped].
  all: rewrite ?node_lookup_delete, ?N.eqb_refl.
  all: split_and!; try done.
  all: try (intros a' Ha'; simplify_eq).
  all: repeat match goal with
       | Hq : _ !! _ = _ |- _ => rewrite Hq
       | Hq : u_writable _ = _ |- _ => rewrite Hq
       end.
  all: try done.
  all: in_trace.
Qed.

Lemma consume_loop_sliceless t l : forall ts res w res' w' m d a,
  ts <> 0 ->
  commit_consume_loop X t l ts res w = (res', w') ->
  (m, d) ∈ l -> slice m = None -> idp d = Some a ->
  exists tl,
    trace w' = trace w ++ tl /\
    EvPutUser a (BUS1_HANDLE_INVALID X) (writable w a) ∈ tl.
Proof.
  induction l as [|[m' d'] l IH]; intros ts res w res' w' m d a Hts H He Hs Ha.
  - by apply elem_of_nil in He.
  - cbn [commit_consume_loop] in H. unfold bind at 1 in H.
    destruct (bus1_transaction_consume X t m' d' ts w) as [r w1] eqn:Hc.
    pose proof (consume_loop_spec _ _ _ _ _ _ _ Hts H) as (tl2 & Htr2 & _).
    apply elem_of_cons in He as [Heq|He].
    + injection Heq as <- <-.
      destruct (consume_sliceless _ _ _ _ _ _ _ Hts Hs Hc) as (tl1 & Htr1 & Hput & _).
      exists (tl1 ++ tl2). rewrite Htr2, Htr1, app_assoc. split; [done|].
      apply elem_of_app. left. by apply Hput.
    + destruct (consume_frame _ _ _ _ _ _ _ Hts Hc) as (_ & _ & Hwr & _).
      destruct (consume_trace _ _ _ _ _ _ _ Hts Hc) as (tl1 & Htr1 & _).
      destruct (IH _ _ _ _ _ _ _ _ Hts H He Hs Ha) as (tl & Htr & Hin).
      rewrite Htr2 in Htr. apply app_inv_head in Htr. subst tl.
      exists (EvConsume (qnode m') ts :: tl1 ++ tl2).
      rewrite Htr2, Htr1. flat_trace. split; [done|].
      rewrite <- Hwr. in_trace.
Qed.

Lemma existsb_is_fault_elem a v tl :
  EvPutUser a v false ∈ tl -> existsb is_fault tl = true.
Proof.
  intros Hin. apply existsb_exists. exists (EvPutUser a v false).
  split; [by apply list_elem_of_In|done].
Qed.

(** C10: a sliceless entry with a non-null id pointer still has
    [BUS1_HANDLE_INVALID] written to that pointer in the commit pass, and if
    the pointer cannot be written the fault is latched: commit returns
    [-EFAULT]. *)
Theorem sliceless_entry_writes_invalid t w m d a :
  (m, d) ∈ entries t -> slice m = None -> idp d = Some a ->
  exists res w' tl,
    bus1_transaction_commit X t w = ((res, set_entries [] t), w') /\
    trace w' = trace w ++ tl /\
    EvPutUser a (BUS1_HANDLE_INVALID X) (writable w a) ∈ tl /\
    (writable w a = false -> res = neg_errno EFAULT).
Proof.
  intros He Hs Ha.
  destruct (entries t) as [|e l] eqn:Hl; [by apply elem_of_nil in He|].
  destruct (commit_run _ _ _ w Hl)
    as (res & w2 & w3 & pre & post & Hc & H3 & Hnz & Htr2 & Htr3 & Hq & _
        & _ & Hum & _).
  rewrite Hl in *.
  pose proof (consume_loop_spec _ _ _ _ _ _ _ Hnz H3)
    as (tl & Htr & _ & _ & _ & _ & Hres & _).
  destruct (consume_loop_sliceless _ _ _ _ _ _ _ _ _ _ Hnz H3 He Hs Ha)
    as (tl' & Htr' & Hin).
  rewrite Htr in Htr'. apply app_inv_head in Htr'. subst tl'.
  assert (Hw : writable w2 a = writable w a) by (unfold writable; by rewrite Hum).
  rewrite Hw in Hin.
  exists res, w3, (pre ++ tl). rewrite Hc, Htr, Htr2, app_assoc.
  split_and!; try done.
  - apply elem_of_app. by right.
  - intros Hf. rewrite Hf in Hin.
    by rewrite Hres, (existsb_is_fault_elem _ _ _ Hin).
Qed.


(** ** A queue reset between the passes *)

Lemma is_queued_lookup q n :
  queue_node_is_queued q n = true <-> is_Some (node_lookup n (nodes q)).
Proof. unfold queue_node_is_queued. by rewrite bool_decide_eq_true. Qed.

Lemma not_queued_lookup q n :
  queue_node_is_queued q n = false <-> node_lookup n (nodes q) = None.
Proof.
  unfold queue_node_is_queued. rewrite bool_decide_eq_false.
  by rewrite eq_None_not_Some.
Qed.

Lemma consume_unqueued t m d ts w r w' s :
  ts <> 0 -> slice m = Some s ->
  node_lookup (qnode m) (linked w (raw_peer d)) = None ->
  bus1_transaction_consume X t m d ts w = (r, w') ->
  r = neg_errno EHOSTUNREACH /\
  umem w' = umem w /\
  exists b,
    trace w' = trace w ++
      [EvConsume (qnode m) ts; EvInstall (raw_peer d) (qnode m);
       EvLock (raw_peer d); EvRemove (raw_peer d) (qnode m) b;
       EvDeallocate (raw_peer d) (qnode m); EvUnlock (raw_peer d);
       EvMessageFree (Some (qnode m)); EvDestDestroy (Some (raw_peer d))].
Proof.
  intros Hts Hs Hq H. apply not_queued_lookup in Hq.
  destruct w as [ps um nn tr]. unfold linked in Hq. cbn [peers] in Hq.
  consume_cases H Hts; try congruence.
  all: flat_trace; split_and!; try done; by eexists.
Qed.

Lemma consume_export t m d ts w r w' s :
  ts <> 0 -> slice m = Some s ->
  is_Some (node_lookup (qnode m) (linked w (raw_peer d))) ->
  bus1_transaction_consume X t m d ts w = (r, w') ->
  let id := x_handle_dest_export X d (peers w !!! raw_peer d) ts in
  committed_id X m d ts w = (if id =? BUS1_HANDLE_INVALID X then None else Some id) /\
  exists tl, trace w' = trace w ++ tl /\ EvExport (raw_peer d) ts id ∈ tl.
Proof.
  intros Hts Hs Hq H. apply is_queued_lookup in Hq.
  destruct w as [ps um nn tr]. unfold linked in Hq. cbn [peers] in Hq.
  unfold committed_id. cbn [peers]. rewrite Hs, Hq. split; [done|].
  consume_cases H Hts; try congruence.
  all: flat_trace; eexists; (split; [reflexivity|]); in_trace.
Qed.

Lemma consume_absent t m d ts w r w' n :
  ts <> 0 ->
  bus1_transaction_consume X t m d ts w = (r, w') ->
  (forall p, node_lookup n (linked w p) = None) ->
  forall p, node_lookup n (linked w' p) = None.
Proof.
  intros Hts H Habs p.
  destruct (decide (p = raw_peer d /\ n = qnode m)) as [[-> ->]|Hne].
  - rewrite (consume_own_node _ _ _ _ _ _ _ Hts H). unfold committed_id.
    destruct (slice m); [|done].
    by rewrite (proj2 (not_queued_lookup _ _) (Habs (raw_peer d))).
  - destruct (consume_frame _ _ _ _ _ _ _ Hts H) as (_ & Hfr & _).
    rewrite Hfr; [done|].
    destruct (decide (p = raw_peer d)) as [->|?]; [right|left]; [|done].
    intros ->. by apply Hne.
Qed.

Lemma consume_loop_frame t l : forall ts res w res' w' p k,
  ts <> 0 ->
  commit_consume_loop X t l ts res w = (res', w') ->
  (k, p) ∉ map entry_key l ->
  node_lookup k (linked w' p) = node_lookup k (linked w p).
Proof.
  induction l as [|[m d] l IH]; intros ts res w res' w' p k Hts H Hk.
  - cbn in H. unfold ret in H. by simplify_eq.
  - cbn [commit_consume_loop] in H. unfold bind at 1 in H.
    destruct (bus1_transaction_consume X t m d ts w) as [r w1] eqn:Hc.
    cbn [map entry_key fst snd] in Hk. apply not_elem_of_cons in Hk as [Hk1 Hk2].
    rewrite (IH _ _ _ _ _ _ _ Hts H Hk2).
    destruct (consume_frame _ _ _ _ _ _ _ Hts Hc) as (_ & Hfr & _).
    apply Hfr. destruct (decide (p = raw_peer d)) as [->|?]; [right|by left].
    intros ->. by apply Hk1.
Qed.

Lemma consume_loop_absent t l : forall ts res w res' w' n,
  ts <> 0 ->
  commit_consume_loop X t l ts res w = (res', w') ->
  (forall p, node_lookup n (linked w p) = None) ->
  forall p, node_lookup n (linked w' p) = None.
Proof.
  induction l as [|[m d] l IH]; intros ts res w res' w' n Hts H Habs.
  - cbn in H. unfold ret in H. by simplify_eq.
  - cbn [commit_consume_loop] in H. unfold bind at 1 in H.
    destruct (bus1_transaction_consume X t m d ts w) as [r w1] eqn:Hc.
    eapply IH; [done|exact H|]. by eapply consume_absent.
Qed.

Lemma consume_loop_unqueued t l : forall ts res w res' w' m d s,
  ts <> 0 ->
  commit_consume_loop X t l ts res w = (res', w') ->
  (m, d) ∈ l -> slice m = Some s ->
  (forall p, node_lookup (qnode m) (linked w p) = None) ->
  exists tl,
    trace w' = trace w ++ tl /\
    EvDeallocate (raw_peer d) (qnode m) ∈ tl /\
    EvMessageFree (Some (qnode m)) ∈ tl.
Proof.
  induction l as [|[m' d'] l IH]; intros ts res w res' w' m d s Hts H He Hs Habs.
  - by apply elem_of_nil in He.
  - cbn [commit_consume_loop] in H. unfold bind at 1 in H.
    destruct (bus1_transaction_consume X t m' d' ts w) as [r w1] eqn:Hc.
    pose proof (consume_loop_spec _ _ _ _ _ _ _ Hts H) as (tl2 & Htr2 & _).
    apply elem_of_cons in He as [Heq|He].
    + injection Heq as <- <-.
      destruct (consume_unqueued _ _ _ _ _ _ _ _ Hts Hs (Habs _) Hc)
        as (_ & _ & b & Htr1).
      eexists. rewrite Htr2, Htr1, <- app_assoc. split; [reflexivity|].
      cbn [app]. split; in_trace.
    + destruct (consume_trace _ _ _ _ _ _ _ Hts Hc) as (tl1 & Htr1 & _).
      destruct (IH _ _ _ _ _ _ _ _ Hts H He Hs) as (tl & Htr & Hin1 & Hin2).
      { by eapply consume_absent. }
      rewrite Htr2 in Htr. apply app_inv_head in Htr. subst tl.
      exists (EvConsume (qnode m') ts :: tl1 ++ tl2).
      rewrite Htr2, Htr1. flat_trace. split; [done|]. split; in_trace.
Qed.

Lemma consume_loop_queued t l : forall ts res w res' w' m d s,
  ts <> 0 ->
  commit_consume_loop X t l ts res w = (res', w') ->
  NoDup (map entry_key l) ->
  (m, d) ∈ l -> slice m = Some s ->
  is_Some (node_lookup (qnode m) (linked w (raw_peer d))) ->
  exists tl id,
    trace w' = trace w ++ tl /\
    EvExport (raw_peer d) ts id ∈ tl /\
    node_lookup (qnode m) (linked w' (raw_peer d)) =
      if id =? BUS1_HANDLE_INVALID X then None
      else Some (ts, set_destination id m).
Proof.
  induction l as [|[m' d'] l IH]; intros ts res w res' w' m d s Hts H Hnd He Hs Hq.
  - by apply elem_of_nil in He.
  - cbn [commit_consume_loop] in H. unfold bind at 1 in H.
    destruct (bus1_transaction_consume X t m' d' ts w) as [r w1] eqn:Hc.
    pose proof (consume_loop_spec _ _ _ _ _ _ _ Hts H) as (tl2 & Htr2 & _).
    cbn [map] in Hnd. apply NoDup_cons in Hnd as [Hnin Hnd].
    unfold entry_key at 1 in Hnin. cbn [fst snd] in Hnin.
    apply elem_of_cons in He as [Heq|He].
    + injection Heq as <- <-.
      destruct (consume_export _ _ _ _ _ _ _ _ Hts Hs Hq Hc)
        as (Hid & tl1 & Htr1 & Hin).
      exists (tl1 ++ tl2), (x_handle_dest_export X d (peers w !!! raw_peer d) ts).
      rewrite Htr2, Htr1, app_assoc. split_and!; [done|in_trace|].
      rewrite (consume_loop_frame _ _ _ _ _ _ _ _ _ Hts H Hnin).
      rewrite (consume_own_node _ _ _ _ _ _ _ Hts Hc), Hid.
      by destruct (_ =? _).
    + destruct (consume_trace _ _ _ _ _ _ _ Hts Hc) as (tl1 & Htr1 & _).
      destruct (consume_frame _ _ _ _ _ _ _ Hts Hc) as (_ & Hfr & _).
      destruct (IH _ _ _ _ _ _ _ _ Hts H Hnd He Hs) as (tl & id & Htr & Hin & Hlk).
      { rewrite Hfr; [done|].
        destruct (decide (raw_peer d = raw_peer d')) as [Hp|?]; [right|by left].
        intros Hn. apply Hnin.
        change (qnode m', raw_peer d') with (entry_key (m', d')).
        replace (entry_key (m', d')) with (entry_key (m, d))
          by (unfold entry_key; cbn; congruence).
        by apply list_elem_of_fmap_2. }
      rewrite Htr2 in Htr. apply app_inv_head in Htr. subst tl.
      exists (EvConsume (qnode m') ts :: tl1 ++ tl2), id.
      rewrite Htr2, Htr1. flat_trace. split_and!; [done|in_trace|done].
Qed.


(** C1: for a transaction with a non-empty entries list, every call of
    [bus1_transaction_consume] in the commit pass receives the one timestamp
    [t0] reached after the staging pass, [t0] is not the zero that would make
    consume take fresh ticks, every node the commit pass stages is staged at
    [t0], every entry's node that is linked at its destination afterwards is
    linked at [t0], and after the sync pass (and still after the commit pass)
    every destination clock is at least [t0].  When the entries are distinct
    messages, every entry with a slice has its id exported and is linked at
    [t0] under that id (or dropped, when the export yields the invalid
    id). *)
Theorem commit_single_timestamp t e l w :
  entries t = e :: l ->
  exists t0 w1 w2 res w3 tl,
    commit_staged X t (entries t) w = (t0, w1) /\
    commit_sync_loop (entries t) t0 w1 = (tt, w2) /\
    bus1_transaction_commit X t w = ((res, set_entries [] t), w3) /\
    trace w3 = trace w2 ++ tl /\
    t0 <> 0 /\
    omap consume_call tl = map (fun e => (qnode (fst e), t0)) (entries t) /\
    Forall (fun c => snd c = t0) (omap stage_call tl) /\
    (forall e, e ∈ entries t ->
       t0 <= clk w2 (raw_peer (snd e)) /\ t0 <= clk w3 (raw_peer (snd e))) /\
    (forall e, e ∈ entries t ->
       linked_at t0 w3 (raw_peer (snd e)) (qnode (fst e))) /\
    (NoDup (map entry_key (entries t)) ->
     forall m d s, (m, d) ∈ entries t -> slice m = Some s ->
       exists id,
         EvExport (raw_peer d) t0 id ∈ tl /\
         node_lookup (qnode m) (linked w3 (raw_peer d)) =
           if id =? BUS1_HANDLE_INVALID X then None
           else Some (t0, set_destination id m)).
Proof.
  intros He. rewrite (commit_unfold _ _ _ _ He), He.
  destruct (commit_staged X t (e :: l) w) as [t0 w1] eqn:H1.
  destruct (commit_sync_loop (e :: l) t0 w1) as [[] w2] eqn:H2.
  destruct (commit_consume_loop X (set_entries [] t) (e :: l) t0 0%Z w2)
    as [res w3] eqn:H3.
  exists t0, w1, w2, res, w3.
  pose proof (commit_staged_spec _ _ _ (clk w) _ _ (fun _ => eq_refl) H1)
    as (tl1 & _ & _ & _ & _ & _ & Hnz & _).
  pose proof (sync_loop_spec _ _ _ (clk w1) _ (fun _ => eq_refl) H2)
    as (tl2 & _ & _ & _ & Hclk2 & Hln2 & _).
  pose proof (consume_loop_spec _ _ _ _ _ _ _ Hnz H3)
    as (tl & Htr & Hcc & _ & Hst & _ & _ & Hclk3 & _).
  exists tl. split_and!; try done.
  - intros e' He'. split.
    + rewrite Hclk2. by apply sync_loop_reaches.
    + rewrite Hclk3, Hclk2. by apply sync_loop_reaches.
  - intros e' He'. by eapply consume_loop_own_nodes.
  - intros Hnd m d s Hin Hs.
    destruct (consume_loop_queued _ _ _ _ _ _ _ _ _ _ Hnz H3 Hnd Hin Hs)
      as (tl' & id & Htr' & Hex & Hlk).
    { rewrite Hln2. by apply (commit_staged_links _ _ _ _ _ (m, d) H1). }
    rewrite Htr in Htr'. apply app_inv_head in Htr'. subst tl'.
    by exists id.
Qed.

Lemma consume_fault_cause t m d ts w r w' :
  ts <> 0 ->
  bus1_transaction_consume X t m d ts w = (r, w') ->
  r = neg_errno EFAULT ->
  exists a, idp d = Some a /\ writable w a = false.
Proof.
  intros Hts H Hr. destruct w as [ps um nn tr].
  consume_cases H Hts; try done.
  all: try (repeat match goal with
            | Hs : slice _ = _ |- _ => rewrite Hs in *
            end; discriminate).
  all: eexists; (split; [reflexivity|]).
  all: repeat match goal with
       | Hq : _ !! _ = _ |- _ => rewrite Hq
       end; done.
Qed.

Lemma consume_loop_fault_cause t l : forall ts w res' w',
  ts <> 0 ->
  commit_consume_loop X t l ts 0%Z w = (res', w') ->
  res' <> 0%Z ->
  exists e a, e ∈ l /\ idp (snd e) = Some a /\ writable w a = false.
Proof.
  induction l as [|[m d] l IH]; intros ts w res' w' Hts H Hres.
  - cbn in H. unfold ret in H. by simplify_eq.
  - cbn [commit_consume_loop] in H. unfold bind at 1 in H.
    destruct (bus1_transaction_consume X t m d ts w) as [r w1] eqn:Hc.
    destruct (consume_frame _ _ _ _ _ _ _ Hts Hc) as (_ & _ & Hwr & _).
    destruct (Z.eqb_spec r (neg_errno EFAULT)) as [Hr|Hr].
    + destruct (consume_fault_cause _ _ _ _ _ _ _ Hts Hc Hr) as (a & Ha & Hw).
      exists (m, d), a. split_and!; [apply elem_of_cons; by left|done|done].
    + destruct (IH _ _ _ _ Hts H Hres) as (e & a & He & Ha & Hw).
      exists e, a. split_and!; [apply elem_of_cons; by right|done|].
      by rewrite <- Hwr.
Qed.


Lemma commit_uninterrupted t w :
  commit_interrupted X (fun w => w) t w = bus1_transaction_commit X t w.
Proof.
  unfold commit_interrupted. destruct (entries t) as [|e l] eqn:He.
  - unfold bus1_transaction_commit. by rewrite He.
  - by rewrite (commit_unfold _ _ _ _ He).
Qed.

(** C7: when, after the staging and sync passes, a reset has left the node
    of an entry on no queue, the commit pass leaves it on no queue,
    deallocates and frees the message, returns 0 unless some write-back
    faulted (and never [-EHOSTUNREACH]), and commits every other entry that
    is still queued as usual: its id is exported and it is linked at [t0]
    under that id. *)
Theorem commit_survives_queue_reset race t w m d s t0 w1 w2 :
  NoDup (map entry_key (entries t)) ->
  (m, d) ∈ entries t -> slice m = Some s ->
  commit_staged X t (entries t) w = (t0, w1) ->
  commit_sync_loop (entries t) t0 w1 = (tt, w2) ->
  (forall p, node_lookup (qnode m) (linked (race w2) p) = None) ->
  exists res w3 tl,
    commit_interrupted X race t w = ((res, set_entries [] t), w3) /\
    trace w3 = trace (race w2) ++ tl /\
    (forall p, node_lookup (qnode m) (linked w3 p) = None) /\
    EvDeallocate (raw_peer d) (qnode m) ∈ tl /\
    EvMessageFree (Some (qnode m)) ∈ tl /\
    res = (if existsb is_fault tl then neg_errno EFAULT else 0%Z) /\
    res <> neg_errno EHOSTUNREACH /\
    ((forall e a, e ∈ entries t -> idp (snd e) = Some a ->
        writable (race w2) a = true) -> res = 0%Z) /\
    (forall m' d' s', (m', d') ∈ entries t -> slice m' = Some s' ->
       is_Some (node_lookup (qnode m') (linked (race w2) (raw_peer d'))) ->
       exists id,
         EvExport (raw_peer d') t0 id ∈ tl /\
         node_lookup (qnode m') (linked w3 (raw_peer d')) =
           if id =? BUS1_HANDLE_INVALID X then None
           else Some (t0, set_destination id m')).
Proof.
  intros Hnd He Hs H1 H2 Habs.
  unfold commit_interrupted.
  destruct (entries t) as [|e l] eqn:Hl; [by apply elem_of_nil in He|].
  rewrite H1, H2.
  destruct (commit_consume_loop X (set_entries [] t) (e :: l) t0 0%Z (race w2))
    as [res w3] eqn:H3.
  pose proof (commit_staged_spec _ _ _ (clk w) _ _ (fun _ => eq_refl) H1)
    as (_ & _ & _ & _ & _ & _ & Hnz & _).
  pose proof (consume_loop_spec _ _ _ _ _ _ _ Hnz H3)
    as (tl & Htr & _ & _ & _ & _ & Hres & _).
  destruct (consume_loop_unqueued _ _ _ _ _ _ _ _ _ _ Hnz H3 He Hs Habs)
    as (tl' & Htr' & Hde & Hfr).
  rewrite Htr in Htr'. apply app_inv_head in Htr'. subst tl'.
  exists res, w3, tl. split_and!; try done.
  - by eapply consume_loop_absent.
  - rewrite Hres. by destruct (existsb is_fault tl).
  - intros Hw. destruct (Z.eq_dec res 0%Z) as [|Hne]; [done|].
    destruct (consume_loop_fault_cause _ _ _ _ _ _ Hnz H3 Hne)
      as (e' & a & He' & Ha & Hf).
    rewrite (Hw _ _ He' Ha) in Hf. discriminate.
  - intros m' d' s' He' Hs' Hq'.
    destruct (consume_loop_queued _ _ _ _ _ _ _ _ _ _ Hnz H3 Hnd He' Hs' Hq')
      as (tl' & id & Htr' & Hin & Hlk).
    rewrite Htr in Htr'. apply app_inv_head in Htr'. subst tl'.
    by exists id.
Qed.


(** ** Teardown *)

Lemma commit_empties_entries t w :
  let t' := snd (fst (bus1_transaction_commit X t w)) in
  t' = set_entries [] t /\ entries t' = [].
Proof.
  cbv zeta. destruct (entries t) as [|e l] eqn:He.
  - unfold bus1_transaction_commit. rewrite He. cbn.
    split; [|done]. destruct t; cbn in *; by subst.
  - rewrite (commit_unfold _ _ _ _ He).
    destruct (commit_staged X t (e :: l) w) as [t0 w1].
    destruct (commit_sync_loop (e :: l) t0 w1) as [u w2].
    by destruct (commit_consume_loop X _ (e :: l) t0 0%Z w2) as [res w3].
Qed.

Lemma destroy_entries_spec l : forall w q w',
  (forall p, linked w p = q p) ->
  destroy_entries X l w = (tt, w') ->
  trace w' = trace w ++ spec_teardown_entries X q l /\
  umem w' = umem w /\
  (forall p k, node_lookup k (linked w' p) =
     if bool_decide ((k, p) ∈ map entry_key l) then None
     else node_lookup k (linked w p)).
Proof.
  induction l as [|[m d] l IH]; intros w q w' Hq H.
  - cbn in H. unfold ret in H. simplify_eq. rewrite app_nil_r.
    split_and!; done.
  - cbn [destroy_entries] in H.
    destruct w as [ps um nn tr]. unfold_m. unfold front_changed in H.
    cbn [nodes] in H.
    pose proof (Hq (raw_peer d)) as Hqd. unfold_m.
    cbn [spec_teardown_entries]. unfold front_moved. rewrite <- Hqd.
    repeat case_inner H.
    all: eapply (IH _ (fun r => if r =? raw_peer d
                         then node_delete (qnode m) (nodes (queue (ps !!! raw_peer d)))
                         else q r)) in H;
      [|intros p; unfold_m; at_peer (raw_peer d) p;
        [by rewrite N.eqb_refl
        |rewrite <- Hq; unfold_m; by destruct (N.eqb_spec p (raw_peer d))]].
    all: destruct H as (Htr & Hum & Hlk).
    all: unfold_m; rewrite Htr; flat_trace.
    all: split_and!; try done.
    all: intros p k; rewrite Hlk; cbn [map]; unfold entry_key at 2; cbn [fst snd].
    all: destruct (decide ((k, p) ∈ map entry_key l)) as [Hin|Hin].
    all: try (rewrite !bool_decide_true; [done|by apply elem_of_cons; right|done]).
    all: rewrite (bool_decide_false _ Hin).
    all: destruct (decide ((k, p) = (qnode m, raw_peer d))) as [Heq|Hne].
    all: try (injection Heq as -> ->;
              rewrite bool_decide_true by (apply elem_of_cons; by left);
              peer_lookup; cbn [queue nodes];
              by rewrite node_lookup_delete, N.eqb_refl).
    all: rewrite bool_decide_false
           by (intros [?|?]%elem_of_cons; [by apply Hne|by apply Hin]).
    all: at_peer (raw_peer d) p; [|done].
    all: rewrite node_lookup_delete.
    all: destruct (N.eqb_spec k (qnode m)); [|done]; subst; by destruct Hne.
Qed.

Lemma release_files_spec (fs : list (option N)) : forall (slots : list nat) w,
  for_each slots (fun i => match fs !! i with
                           | Some (Some f) => fput f
                           | _ => ret tt
                           end) w =
  (tt, set_trace (fun tr => tr ++ omap (fun i => EvFput <$> mjoin (fs !! i)) slots) w).
Proof.
  induction slots as [|i slots IH]; intros w.
  - cbn. unfold ret, set_trace. rewrite app_nil_r. by destruct w.
  - cbn [for_each]. unfold bind at 1.
    cbn [omap list_omap]. change (list_omap ?f ?l) with (omap f l).
    destruct (fs !! i) as [[f|]|] eqn:Hi; cbn;
      unfold fput, emit, ret; rewrite IH; unfold set_trace;
      cbn [trace peers umem next_node];
      by rewrite <- ?app_assoc.
Qed.

(** C9: freeing a transaction removes every listed entry from its
    destination queue under that peer's lock, wakes the peer iff the remove
    reported a change, deallocates the slice, frees the message and releases
    the destination pin; then it releases every remaining file reference and
    the handle-transfer descriptor.  No listed entry stays linked.  After a
    commit the entries list is empty, so freeing touches no entry. *)
Theorem free_tears_down t w :
  let w' := snd (bus1_transaction_free X (Some t) w) in
  trace w' = trace w
    ++ spec_teardown_entries X (linked w) (entries t)
    ++ spec_release_files (files t) (n_fds (param t))
    ++ [EvTransferDestroy]
    ++ (if on_heap t then [EvKfree] else []) /\
  Forall (fun e =>
            node_lookup (qnode (fst e)) (linked w' (raw_peer (snd e))) = None)
    (entries t) /\
  (let '((_, t'), w2) := bus1_transaction_commit X t w in
   entries t' = [] /\
   trace (snd (bus1_transaction_free X (Some t') w2)) = trace w2
     ++ spec_release_files (files t') (n_fds (param t'))
     ++ [EvTransferDestroy]
     ++ (if on_heap t' then [EvKfree] else [])).
Proof.
  assert (Hfree : forall t0 w0,
    let w' := snd (bus1_transaction_free X (Some t0) w0) in
    trace w' = trace w0
      ++ spec_teardown_entries X (linked w0) (entries t0)
      ++ spec_release_files (files t0) (n_fds (param t0))
      ++ [EvTransferDestroy]
      ++ (if on_heap t0 then [EvKfree] else []) /\
    Forall (fun e =>
              node_lookup (qnode (fst e)) (linked w' (raw_peer (snd e))) = None)
      (entries t0)).
  { intros t0 w0. cbv zeta.
    unfold bus1_transaction_free, bus1_transaction_destroy.
    unfold bind.
    destruct (destroy_entries X (entries t0) w0) as [[] w1] eqn:Hd.
    destruct (destroy_entries_spec _ _ (linked w0) _ (fun _ => eq_refl) Hd)
      as (Htr & _ & Hlk).
    rewrite release_files_spec. unfold spec_release_files.
    destruct w1 as [ps um nn tr]. cbn [trace] in Htr. subst tr.
    unfold emit, ret, when, set_trace. cbn [trace peers umem next_node on_heap set_entries].
    split.
    - destruct (on_heap t0); cbn [trace snd]; rewrite <- ?app_assoc; cbn [app];
        by rewrite ?app_nil_r.
    - apply Forall_forall. intros e He.
      specialize (Hlk (raw_peer (snd e)) (qnode (fst e))).
      rewrite bool_decide_true in Hlk
        by (change (qnode e.1, raw_peer e.2) with (entry_key e);
            by apply list_elem_of_fmap_2).
      destruct (on_heap t0); exact Hlk. }
  destruct (Hfree t w) as [H1 H2]. split_and!; [exact H1|exact H2|].
  pose proof (commit_empties_entries t w) as He.
  destruct (bus1_transaction_commit X t w) as [[res t'] w2].
  cbn in He. destruct He as [-> He]. split; [done|].
  destruct (Hfree (set_entries [] t) w2) as [H3 _]. exact H3.
Qed.



(** ** Initialisation of the file slots *)

Lemma memset_null_lookup n : forall (slots : list (option N)) i,
  memset_null n slots !! i =
  if bool_decide (i < n)%nat then Some None else slots !! i.
Proof.
  induction n as [|n IH]; intros slots i.
  - cbn. rewrite bool_decide_false by lia. done.
  - cbn [memset_null]. destruct i as [|i].
    + rewrite bool_decide_true by lia. done.
    + change ((None :: memset_null n (tail slots)) !! S i)
        with (memset_null n (tail slots) !! i).
      rewrite IH. destruct (decide (i < n)%nat).
      * rewrite !bool_decide_true by lia. done.
      * rewrite !bool_decide_false by lia. by destruct slots.
Qed.

(** [bus1_transaction_init] clears as many slots as [memset] is told to,
    which is [n_vecs] of them unless the byte count wraps; a slot past them
    keeps what the backing memory held. *)
Lemma init_file_slots backing heap sender p current w i :
  files (fst (bus1_transaction_init backing heap sender p current w)) !! i =
  if bool_decide (i < N.to_nat (size_mul (n_vecs p) 8 / 8))%nat
  then Some None
  else backing !! i.
Proof.
  unfold bus1_transaction_init, bind, emit, ret.
  cbn [fst files]. apply memset_null_lookup.
Qed.

(** ** Instantiation *)

Lemma for_each_emit (ev : N -> event) (fs : list (option N)) :
  forall (slots : list nat) w,
  for_each slots (fun i => match fs !! i with
                           | Some (Some f) => emit (ev f)
                           | _ => ret tt
                           end) w =
  (tt, set_trace (fun tr => tr ++ omap (fun i => ev <$> mjoin (fs !! i)) slots) w).
Proof.
  induction slots as [|i slots IH]; intros w.
  - cbn. unfold ret, set_trace. rewrite app_nil_r. by destruct w.
  - cbn [for_each]. unfold bind at 1.
    cbn [omap list_omap]. change (list_omap ?f ?l) with (omap f l).
    destruct (fs !! i) as [[f|]|] eqn:Hi; cbn;
      unfold emit, ret; rewrite IH; unfold set_trace;
      cbn [trace peers umem next_node];
      by rewrite <- ?app_assoc.
Qed.

Lemma quiet_get_files (fs : list (option N)) (slots : list nat) :
  quiet (omap (fun i => EvGetFile <$> mjoin (fs !! i)) slots).
Proof.
  unfold quiet. induction slots as [|i slots IH]; [done|].
  cbn [omap list_omap]. change (list_omap ?f ?l) with (omap f l).
  by destruct (fs !! i) as [[f|]|].
Qed.

Lemma get_files_spec t m w :
  get_files t m w =
  (mk_message (qnode m) (slice m) (data_destination m) (data_cred m)
     (silent m)
     (map (fun i => mjoin (files t !! i)) (upto (n_fds (param t)))),
   set_trace (fun tr => tr ++ omap (fun i => EvGetFile <$> mjoin (files t !! i))
                               (upto (n_fds (param t)))) w).
Proof. unfold get_files, bind. by rewrite for_each_emit. Qed.

Ltac unfold_instantiate H :=
  unfold bus1_transaction_instantiate, bus1_handle_dest_import,
    bus1_message_new, bus1_message_allocate, instantiate_error in H;
  unfold_m;
  cbv [neg_errno status_of] in H.

Ltac instantiate_cases H :=
  repeat (first
    [ rewrite get_files_spec in H
    | match type of H with
      | context [(Z.neg ?e <? 0)%Z] =>
          change (Z.neg e <? 0)%Z with true in H
      | context [(0 <? 0)%Z] =>
          change (0 <? 0)%Z with false in H
      end
    | case_inner H ];
    unfold_m).

(** Instantiation changes neither the peers nor user memory, and all it
    adds to the trace is quiet. *)
Lemma instantiate_quiet t idp w res w' :
  bus1_transaction_instantiate X t idp w = (res, w') ->
  peers w' = peers w /\ umem w' = umem w /\
  exists tl, trace w' = trace w ++ tl /\ quiet tl.
Proof.
  intros H. destruct w as [ps um nn tr].
  unfold_instantiate H. instantiate_cases H.
  all: simplify_eq; unfold_m.
  all: split_and!; try done.
  all: flat_trace; rewrite ?app_nil_r.
  all: try (eexists; split; [reflexivity|]; unfold quiet; cbn;
            try apply quiet_get_files; done).
  all: try (exists []; by rewrite app_nil_r).
Qed.


Lemma instantiate_for_id_quiet t idp w res w' :
  bus1_transaction_instantiate_for_id X t idp w = (res, w') ->
  peers w' = peers w /\ umem w' = umem w /\
  exists tl, trace w' = trace w ++ tl /\ quiet tl.
Proof.
  unfold bus1_transaction_instantiate_for_id, bind. intros H.
  destruct (bus1_transaction_instantiate X t idp w) as [[r d] w1] eqn:Hi.
  destruct (instantiate_quiet _ _ _ _ _ Hi) as (Hp & Hu & tl & Htr & Hq).
  destruct r as [r|m]; [|destruct d]; unfold_m; simplify_eq.
  - cbn [peers umem trace]. split_and!; try done.
    eexists. rewrite Htr, <- app_assoc. split; [reflexivity|].
    apply quiet_app; [done|]. by destruct d.
  - split_and!; try done. by exists tl.
  - split_and!; try done. by exists tl.
Qed.


Lemma instantiate_outcome t idp w res d w' :
  bus1_transaction_instantiate X t idp w = ((res, d), w') ->
  match res with
  | inl r => (r < 0)%Z
  | inr _ => is_Some d
  end.
Proof.
  intros H. destruct w as [ps um nn tr].
  unfold_instantiate H. instantiate_cases H.
  all: simplify_eq; done.
Qed.

(** Entries are linked at the head of the list: the passes of a commit walk
    them most recently instantiated first. *)
Lemma instantiate_for_id_links_in_front t idp w r t' w' :
  bus1_transaction_instantiate_for_id X t idp w = ((r, t'), w') ->
  (r = 0%Z /\ exists e, t' = set_entries (e :: entries t) t) \/
  ((r < 0)%Z /\ t' = t).
Proof.
  unfold bus1_transaction_instantiate_for_id, bind. intros H.
  destruct (bus1_transaction_instantiate X t idp w) as [[res d] w1] eqn:Hi.
  pose proof (instantiate_outcome _ _ _ _ _ _ Hi) as Ho.
  destruct res as [r0|m]; [|destruct d as [d|]]; unfold_m; simplify_eq.
  - by right.
  - left. split; [done|]. by eexists.
  - by destruct Ho.
Qed.

Lemma writes_precede_stage_app tl1 : forall b rest,
  writes_precede_stage b tl1 = true ->
  writes_precede_stage false rest = true ->
  starts_with_consume rest = true ->
  writes_precede_stage b (tl1 ++ rest) = true.
Proof.
  induction tl1 as [|e tl1 IH]; intros b rest H1 H2 H3.
  - cbn [app]. destruct rest as [|e rest]; [done|].
    destruct e; try done.
  - cbn [app]. destruct e; cbn in *; try (by apply IH).
    apply andb_prop in H1 as [Hb H1]. rewrite Hb. cbn. by apply IH.
Qed.

Lemma consume_writes_first t m d ts w r w' :
  ts <> 0 ->
  bus1_transaction_consume X t m d ts w = (r, w') ->
  exists tl,
    trace w' = trace w ++ EvConsume (qnode m) ts :: tl /\
    writes_precede_stage false tl = true.
Proof.
  intros Hts H. destruct w as [ps um nn tr].
  consume_cases H Hts.
  all: flat_trace; eexists; split; [reflexivity|]; done.
Qed.

Lemma consume_loop_writes_first t l : forall ts res w res' w',
  ts <> 0 ->
  commit_consume_loop X t l ts res w = (res', w') ->
  exists tl,
    trace w' = trace w ++ tl /\
    starts_with_consume tl = true /\
    writes_precede_stage false tl = true.
Proof.
  induction l as [|[m d] l IH]; intros ts res w res' w' Hts H.
  - cbn in H. unfold ret in H. simplify_eq. exists []. by rewrite app_nil_r.
  - cbn [commit_consume_loop] in H. unfold bind at 1 in H.
    destruct (bus1_transaction_consume X t m d ts w) as [r w1] eqn:Hc.
    destruct (consume_writes_first _ _ _ _ _ _ _ Hts Hc) as (tl1 & Htr1 & Hw1).
    destruct (IH _ _ _ _ _ Hts H) as (tl2 & Htr2 & Hs2 & Hw2).
    exists (EvConsume (qnode m) ts :: tl1 ++ tl2).
    rewrite Htr2, Htr1. flat_trace. split_and!; try done.
    cbn [writes_precede_stage]. by apply writes_precede_stage_app.
Qed.

(** C8, as amended: neither [bus1_transaction_instantiate] nor
    [bus1_transaction_instantiate_for_id] writes to user memory; in a commit
    every write-back lies in the commit pass, after all entries have been
    staged in the staging pass, and inside each consume call it comes
    before that call stages the node at the final timestamp.  The events
    before the commit pass are exactly the sender tick, the staging pass and
    then the sync pass of the protocol, every destination being synced once
    in each pass, and the commit pass itself touches no clock: the sync
    pass has run in full before the first write-back. *)
Theorem write_back_only_in_commit_pass t idp w :
  (let w' := snd (bus1_transaction_instantiate X t idp w) in
   umem w' = umem w /\ existsb is_put_user (trace_since w w') = false) /\
  (let w' := snd (bus1_transaction_instantiate_for_id X t idp w) in
   umem w' = umem w /\ existsb is_put_user (trace_since w w') = false) /\
  (let w' := snd (bus1_transaction_commit X t w) in
   exists pre post,
     trace_since w w' = pre ++ post /\
     quiet pre /\
     omap staged_entry (omap protocol_step pre) = map entry_key (entries t) /\
     starts_with_consume post = true /\
     writes_precede_stage false post = true /\
     omap protocol_step pre =
       match entries t with
       | [] => []
       | _ :: _ =>
           fst (spec_commit_protocol (Npos (x_tick_step X)) (clk w) (peer t)
                  (map entry_key (entries t)))
       end /\
     omap synced_peer (omap protocol_step pre) =
       map snd (map entry_key (entries t)) ++ map snd (map entry_key (entries t)) /\
     forallb (fun e => negb (is_clock_event e)) post = true).
Proof.
  cbv zeta. split; [|split].
  - destruct (bus1_transaction_instantiate X t idp w) as [res w'] eqn:H.
    destruct (instantiate_quiet _ _ _ _ _ H) as (_ & Hu & tl & Htr & Hq).
    cbn [snd]. rewrite (trace_since_app _ _ _ Htr). split; [done|].
    by apply quiet_no_put_user.
  - destruct (bus1_transaction_instantiate_for_id X t idp w) as [res w'] eqn:H.
    destruct (instantiate_for_id_quiet _ _ _ _ _ H) as (_ & Hu & tl & Htr & Hq).
    cbn [snd]. rewrite (trace_since_app _ _ _ Htr). split; [done|].
    by apply quiet_no_put_user.
  - destruct (entries t) as [|e l] eqn:He.
    + exists [], []. unfold bus1_transaction_commit. rewrite He. cbn [snd ret].
      unfold trace_since. by rewrite drop_all.
    + destruct (commit_run _ _ _ w He)
        as (res & w2 & w3 & pre & post & Hc & H3 & Hnz & Htr2 & Htr3 & Hq & Hp & _).
      destruct (consume_loop_writes_first _ _ _ _ _ _ _ Hnz H3)
        as (tl & Htr & Hs & Hw).
      rewrite Htr3 in Htr. apply app_inv_head in Htr. subst tl.
      pose proof (consume_loop_spec _ _ _ _ _ _ _ Hnz H3)
        as (tl & Htr & _ & Hck & _).
      rewrite Htr3 in Htr. apply app_inv_head in Htr. subst tl.
      exists pre, post. rewrite Hc. cbn [snd].
      assert (Hse : omap staged_entry (omap protocol_step pre) = map entry_key (e :: l)
                    /\ omap synced_peer (omap protocol_step pre) =
                       map snd (map entry_key (e :: l)) ++ map snd (map entry_key (e :: l))).
      { rewrite Hp, He. unfold spec_commit_protocol. cbn [spec_tick].
        destruct (spec_staging_pass _ _ _ (map entry_key (e :: l)))
          as [s1 [t0' c1]] eqn:Hs1.
        destruct (spec_sync_pass c1 t0' (map entry_key (e :: l))) as [s2 c2] eqn:Hs2.
        cbn [fst snd]. cbn [omap list_omap staged_entry synced_peer].
        change (list_omap ?f ?l) with (omap f l).
        rewrite !omap_app.
        pose proof (staging_pass_entries (Npos (x_tick_step X)) (map entry_key (e :: l))
                      (set_clock (clk w) (peer t) (clk w (peer t) + Npos (x_tick_step X)))
                      (clk w (peer t) + Npos (x_tick_step X))) as [Ha Hb].
        pose proof (sync_pass_entries (map entry_key (e :: l)) c1 t0') as [Hc' Hd].
        rewrite Hs1 in Ha, Hb. rewrite Hs2 in Hc', Hd. cbn [fst] in *.
        by rewrite Ha, Hb, Hc', Hd, app_nil_r. }
      destruct Hse as [Hse1 Hse2].
      split_and!; try done.
      * apply trace_since_app. by rewrite Htr3, Htr2, app_assoc.
      * by rewrite Hp, He.
Qed.


(** ** A destination whose pool is full *)


Lemma instantiate_allocation_failure t idp w id p e :
  u_val <$> umem w !! idp = Some id ->
  x_handle_resolve X (peer t) id = inr p ->
  x_message_new X (length_vecs t) (n_fds (param t)) (n_handles (param t)) = None ->
  x_message_allocate X (peers w !!! p) (length_vecs t) (user (peers w !!! peer t))
    = inl e ->
  exists w',
    bus1_transaction_instantiate X t idp w =
      ((if flag_set (flags (param t)) (BUS1_SEND_FLAG_CONTINUE X)
        then inr (fresh_message X t w) else inl (neg_errno e),
        Some (mk_dest p (Some idp))), w').
Proof.
  intros Hid Hres Hnew Hall. destruct w as [ps um nn tr].
  unfold fresh_message. cbn [umem peers next_node] in *.
  destruct (bus1_transaction_instantiate X t idp _) as [res w'] eqn:H.
  unfold_instantiate H. rewrite Hid in H. cbv beta iota in H.
  rewrite Hres in H. cbv beta iota in H. unfold_m.
  rewrite Hnew in H. cbv beta iota in H. unfold_m.
  change (0 <? 0)%Z with false in H. cbv beta iota in H. unfold_m.
  rewrite Hall in H. cbv beta iota in H. unfold_m.
  change (Z.neg e <? 0)%Z with true in H. cbv beta iota in H.
  destruct (flag_set (flags (param t)) (BUS1_SEND_FLAG_CONTINUE X)).
  - change (0 <? 0)%Z with false in H. cbv beta iota in H. unfold_m.
    simplify_eq. by eexists.
  - change (Z.neg e <? 0)%Z with true in H. cbv beta iota in H. unfold_m.
    simplify_eq. by eexists.
Qed.

Lemma consume_loop_sliceless_unlinked t l : forall ts res w res' w' m d,
  ts <> 0 ->
  commit_consume_loop X t l ts res w = (res', w') ->
  NoDup (map entry_key l) ->
  (m, d) ∈ l -> slice m = None ->
  node_lookup (qnode m) (linked w' (raw_peer d)) = None.
Proof.
  induction l as [|[m' d'] l IH]; intros ts res w res' w' m d Hts H Hnd He Hs.
  - by apply elem_of_nil in He.
  - cbn [commit_consume_loop] in H. unfold bind at 1 in H.
    destruct (bus1_transaction_consume X t m' d' ts w) as [r w1] eqn:Hc.
    cbn [map] in Hnd. apply NoDup_cons in Hnd as [Hnin Hnd].
    unfold entry_key at 1 in Hnin. cbn [fst snd] in Hnin.
    apply elem_of_cons in He as [Heq|He].
    + injection Heq as <- <-.
      rewrite (consume_loop_frame _ _ _ _ _ _ _ _ _ Hts H Hnin).
      by destruct (consume_sliceless _ _ _ _ _ _ _ Hts Hs Hc) as (_ & _ & _ & _ & _ & _ & Hl & _).
    + by eapply IH.
Qed.

Lemma commit_sliceless t w m d :
  NoDup (map entry_key (entries t)) ->
  (m, d) ∈ entries t -> slice m = None ->
  exists res w' tl,
    bus1_transaction_commit X t w = ((res, set_entries [] t), w') /\
    trace w' = trace w ++ tl /\
    node_lookup (qnode m) (linked w' (raw_peer d)) = None /\
    (forall p, dropped w' p =
       dropped w p + N.of_nat (length (List.filter (sliceless_for p) (entries t)))) /\
    res = (if existsb is_fault tl then neg_errno EFAULT else 0%Z) /\
    ((forall e a, e ∈ entries t -> idp (snd e) = Some a -> writable w a = true) ->
     res = 0%Z).
Proof.
  intros Hnd He Hs.
  destruct (entries t) as [|e l] eqn:Hl; [by apply elem_of_nil in He|].
  destruct (commit_run _ _ _ w Hl)
    as (res & w2 & w3 & pre & post & Hc & H3 & Hnz & Htr2 & Htr3 & Hq & _
        & _ & Hum & _ & Hdr).
  rewrite Hl in *.
  pose proof (consume_loop_spec _ _ _ _ _ _ _ Hnz H3)
    as (tl & Htr & _ & _ & _ & _ & Hres & _ & _ & Hdr3 & _).
  rewrite Htr3 in Htr. apply app_inv_head in Htr. subst tl.
  exists res, w3, (pre ++ post). split_and!; try done.
  - by rewrite Htr3, Htr2, app_assoc.
  - by eapply consume_loop_sliceless_unlinked.
  - intros p. by rewrite Hdr3, Hdr.
  - by rewrite existsb_app, (quiet_no_fault _ Hq).
  - intros Hw. destruct (Z.eq_dec res 0%Z) as [|Hne]; [done|].
    destruct (consume_loop_fault_cause _ _ _ _ _ _ Hnz H3 Hne)
      as (e' & a & He' & Ha & Hf).
    assert (Hw2 : writable w2 a = writable w a) by (unfold writable; by rewrite Hum).
    rewrite Hw2, (Hw _ _ He' Ha) in Hf. discriminate.
Qed.

(** C5, as amended: when slice allocation fails for a destination, with
    CONTINUE [bus1_transaction_instantiate_for_id] returns 0 and links a
    sliceless entry; a commit leaves that entry's node linked nowhere at
    the destination, counts it exactly once in the peer's dropped-counter,
    and returns an error only when a write-back faults (which the
    write-back of the invalid id for this very entry can); without CONTINUE
    the error of the allocation is returned and nothing is linked. *)
Theorem continue_turns_full_pool_into_drop t uptr w id p e :
  u_val <$> umem w !! uptr = Some id ->
  x_handle_resolve X (peer t) id = inr p ->
  x_message_new X (length_vecs t) (n_fds (param t)) (n_handles (param t)) = None ->
  x_message_allocate X (peers w !!! p) (length_vecs t) (user (peers w !!! peer t))
    = inl e ->
  NoDup (map entry_key (entries t)) ->
  (next_node w, p) ∉ map entry_key (entries t) ->
  let m := fresh_message X t w in
  let d := mk_dest p (Some uptr) in
  (flag_set (flags (param t)) (BUS1_SEND_FLAG_CONTINUE X) = true ->
   exists w1,
     bus1_transaction_instantiate_for_id X t uptr w =
       ((0%Z, set_entries ((m, d) :: entries t) t), w1) /\
     slice m = None /\
     forall w2, exists res w3 tl,
       bus1_transaction_commit X (set_entries ((m, d) :: entries t) t) w2 =
         ((res, set_entries [] t), w3) /\
       trace w3 = trace w2 ++ tl /\
       node_lookup (qnode m) (linked w3 p) = None /\
       dropped w3 p = dropped w2 p + 1
         + N.of_nat (length (List.filter (sliceless_for p) (entries t))) /\
       EvPutUser uptr (BUS1_HANDLE_INVALID X) (writable w2 uptr) ∈ tl /\
       res = (if existsb is_fault tl then neg_errno EFAULT else 0%Z) /\
       ((forall e' a, e' ∈ (m, d) :: entries t -> idp (snd e') = Some a ->
           writable w2 a = true) -> res = 0%Z)) /\
  (flag_set (flags (param t)) (BUS1_SEND_FLAG_CONTINUE X) = false ->
   exists w1,
     bus1_transaction_instantiate_for_id X t uptr w = ((neg_errno e, t), w1)).
Proof.
  intros Hid Hres Hnew Hall Hnd Hfresh m d.
  destruct (instantiate_allocation_failure _ _ _ _ _ _ Hid Hres Hnew Hall)
    as (w1 & Hi).
  split; intros Hflag; rewrite Hflag in Hi.
  - exists w1. unfold bus1_transaction_instantiate_for_id, bind.
    rewrite Hi. unfold ret. split_and!; try done.
    intros w2.
    set (t1 := set_entries ((m, d) :: entries t) t).
    assert (Hnd1 : NoDup (map entry_key (entries t1))).
    { cbn. apply NoDup_cons. by split. }
    assert (He1 : (m, d) ∈ entries t1) by (apply elem_of_cons; by left).
    destruct (commit_sliceless t1 w2 m d Hnd1 He1 eq_refl)
      as (res & w3 & tl & Hc & Htr & Hlk & Hdr & Hr & Hok).
    pose proof (commit_run t1 (m, d) (entries t) w2 eq_refl)
      as (res' & w2' & w3' & pre & post & Hc' & H3 & Hnz & Htr2 & Htr3 & Hq & _
          & _ & Hum & _).
    rewrite Hc in Hc'. injection Hc' as <- <-.
    destruct (consume_loop_sliceless _ _ _ _ _ _ _ _ _ _ Hnz H3 He1 eq_refl eq_refl)
      as (tl' & Htr' & Hin).
    rewrite Htr3 in Htr'. apply app_inv_head in Htr'. subst tl'.
    assert (Hw : writable w2' uptr = writable w2 uptr)
      by (unfold writable; by rewrite Hum).
    rewrite Hw in Hin.
    rewrite Htr3, Htr2, <- app_assoc in Htr. apply app_inv_head in Htr. subst tl.
    exists res, w3, (pre ++ post). split_and!; try done.
    + by rewrite Htr3, Htr2, app_assoc.
    + rewrite Hdr. cbn [entries t1 set_entries List.filter].
      unfold sliceless_for at 1. cbn [fst snd raw_peer slice m d fresh_message].
      rewrite bool_decide_true by done. cbn [length]. lia.
    + apply elem_of_app. by right.
  - unfold bus1_transaction_instantiate_for_id, bind.
    rewrite Hi. unfold_m. by eexists.
Qed.

(** * Further properties of the transaction code *)

Lemma consume_unfold t m d ts :
  bus1_transaction_consume X t m d ts =
  (run emit (EvConsume (qnode m) ts);
   do ts1 <- (if ts =? 0
             then run mutex_lock (peer t);
                  do ts1 <- bus1_queue_tick X (peer t);
                  run mutex_unlock (peer t);
                  ret ts1
             else ret ts);
   run bus1_handle_inflight_install m d;
   run mutex_lock (raw_peer d);
   do ts2 <- (if ts =? 0
             then do ts2 <- bus1_queue_sync (raw_peer d) ts1;
                  bus1_queue_tick X (raw_peer d)
             else ret ts1);
   consume_locked X m d ts2).
Proof. reflexivity. Qed.

Lemma lock_discipline_app a : forall h b,
  lock_discipline h a = true ->
  lock_discipline h (a ++ b) = lock_discipline None b.
Proof.
  induction a as [|e a IH]; intros h b H.
  - cbn in *. by destruct h.
  - destruct e; cbn in *;
      try (apply andb_prop in H as [-> H]; cbn); by apply IH.
Qed.

Lemma holds_refl p : holds (Some p) p = true.
Proof. apply N.eqb_refl. Qed.

Ltac locks_ok :=
  repeat (cbn [lock_discipline unlocked andb app]; rewrite ?holds_refl);
  try reflexivity.

Lemma consume_locked_locks m d ts w r w' :
  consume_locked X m d ts w = (r, w') ->
  exists tl, trace w' = trace w ++ tl /\
    lock_discipline (Some (raw_peer d)) tl = true.
Proof.
  intros H. destruct w as [ps um nn tr].
  unfold consume_locked in H. unfold_m.
  repeat case_inner H; simplify_eq; unfold_m.
  all: flat_trace; eexists; (split; [reflexivity|]).
  all: locks_ok.
Qed.

(** The world [bus1_transaction_consume] has reached when it enters the
    locked part, for a timestamp given by the caller. *)
Lemma consume_given t m d ts w :
  ts <> 0 ->
  bus1_transaction_consume X t m d ts w =
  consume_locked X m d ts
    (set_trace (fun tr => tr ++ [EvConsume (qnode m) ts;
                                 EvInstall (raw_peer d) (qnode m);
                                 EvLock (raw_peer d)]) w).
Proof.
  intros Hts. rewrite consume_unfold. apply N.eqb_neq in Hts. rewrite Hts.
  destruct w as [ps um nn tr]. unfold_m. flat_trace. done.
Qed.

Lemma consume_locks t m d ts w r w' :
  ts <> 0 ->
  bus1_transaction_consume X t m d ts w = (r, w') ->
  exists tl, trace w' = trace w ++ tl /\ lock_discipline None tl = true.
Proof.
  intros Hts H. rewrite (consume_given _ _ _ _ _ Hts) in H.
  apply consume_locked_locks in H as (tl & Htr & Hl).
  destruct w as [ps um nn tr]. unfold_m. rewrite Htr. flat_trace.
  eexists. split; [reflexivity|]. locks_ok. exact Hl.
Qed.

Lemma stage_loop_locks l : forall ts w t0 w1,
  commit_stage_loop X l ts w = (t0, w1) ->
  exists tl, trace w1 = trace w ++ tl /\ lock_discipline None tl = true.
Proof.
  induction l as [|[m d] l IH]; intros ts w t0 w1 H.
  - cbn in H. unfold ret in H. simplify_eq. exists []. by rewrite app_nil_r.
  - cbn [commit_stage_loop] in H.
    destruct w as [ps um nn tr]. unfold_m. norm_in H.
    repeat case_inner H.
    all: apply IH in H as (tl & Htr & Hl); unfold_m; rewrite Htr; flat_trace.
    all: eexists; (split; [reflexivity|]); locks_ok; exact Hl.
Qed.

Lemma sync_loop_locks l : forall ts w w1,
  commit_sync_loop l ts w = (tt, w1) ->
  exists tl, trace w1 = trace w ++ tl /\ lock_discipline None tl = true.
Proof.
  induction l as [|[m d] l IH]; intros ts w w1 H.
  - cbn in H. unfold ret in H. simplify_eq. exists []. by rewrite app_nil_r.
  - cbn [commit_sync_loop] in H.
    destruct w as [ps um nn tr]. unfold_m. norm_in H.
    apply IH in H as (tl & Htr & Hl); unfold_m; rewrite Htr; flat_trace.
    eexists; (split; [reflexivity|]); locks_ok; exact Hl.
Qed.

Lemma consume_loop_locks t l : forall ts res w res' w',
  ts <> 0 ->
  commit_consume_loop X t l ts res w = (res', w') ->
  exists tl, trace w' = trace w ++ tl /\ lock_discipline None tl = true.
Proof.
  induction l as [|[m d] l IH]; intros ts res w res' w' Hts H.
  - cbn in H. unfold ret in H. simplify_eq. exists []. by rewrite app_nil_r.
  - cbn [commit_consume_loop] in H. unfold bind at 1 in H.
    destruct (bus1_transaction_consume X t m d ts w) as [r w1] eqn:Hc.
    destruct (consume_locks _ _ _ _ _ _ _ Hts Hc) as (tl1 & Htr1 & Hl1).
    destruct (IH _ _ _ _ _ Hts H) as (tl2 & Htr2 & Hl2).
    exists (tl1 ++ tl2). rewrite Htr2, Htr1, app_assoc. split; [done|].
    by rewrite (lock_discipline_app _ _ _ Hl1).
Qed.

Lemma commit_locks t w res w' :
  bus1_transaction_commit X t w = (res, w') ->
  exists tl, trace w' = trace w ++ tl /\ lock_discipline None tl = true.
Proof.
  destruct (entries t) as [|e l] eqn:He.
  - unfold bus1_transaction_commit. rewrite He. unfold ret. intros H.
    simplify_eq. exists []. by rewrite app_nil_r.
  - rewrite (commit_unfold _ _ _ _ He).
    destruct (commit_staged X t (e :: l) w) as [t0 w1] eqn:H1.
    destruct (commit_sync_loop (e :: l) t0 w1) as [[] w2] eqn:H2.
    destruct (commit_consume_loop X (set_entries [] t) (e :: l) t0 0%Z w2)
      as [r w3] eqn:H3.
    intros H. simplify_eq.
    pose proof (commit_staged_spec _ _ _ (clk w) _ _ (fun _ => eq_refl) H1)
      as (_ & _ & _ & _ & _ & _ & Hnz & _).
    unfold commit_staged in H1.
    destruct w as [ps um nn tr]. unfold_m. norm_in H1.
    apply stage_loop_locks in H1 as (tl1 & Htr1 & Hl1).
    apply sync_loop_locks in H2 as (tl2 & Htr2 & Hl2).
    apply (consume_loop_locks _ _ _ _ _ _ _ Hnz) in H3 as (tl3 & Htr3 & Hl3).
    rewrite Htr3, Htr2, Htr1. unfold_m. flat_trace.
    eexists. split; [reflexivity|]. locks_ok.
    by rewrite (lock_discipline_app _ _ _ Hl1), (lock_discipline_app _ _ _ Hl2).
Qed.

Lemma destroy_entries_locks l : forall w w',
  destroy_entries X l w = (tt, w') ->
  exists tl, trace w' = trace w ++ tl /\ lock_discipline None tl = true.
Proof.
  induction l as [|[m d] l IH]; intros w w' H.
  - cbn in H. unfold ret in H. simplify_eq. exists []. by rewrite app_nil_r.
  - cbn [destroy_entries] in H.
    destruct w as [ps um nn tr]. unfold_m.
    repeat case_inner H.
    all: apply IH in H as (tl & Htr & Hl); unfold_m; rewrite Htr; flat_trace.
    all: eexists; (split; [reflexivity|]); locks_ok; exact Hl.
Qed.

Ltac allocated_released :=
  let Hin := fresh "Hin" in
  intros ? ? Hin;
  repeat (apply elem_of_cons in Hin as [Hin|Hin];
          [try discriminate Hin; injection Hin as <- <-; split; in_trace|]);
  try (by apply elem_of_nil in Hin).

Lemma elem_of_get_files (fs : list (option N)) (slots : list nat) e :
  e ∈ omap (fun i => EvGetFile <$> mjoin (fs !! i)) slots ->
  exists f, e = EvGetFile f.
Proof.
  intros (i & _ & Hi)%list_elem_of_omap.
  destruct (mjoin (fs !! i)) as [f|]; [|done]. simplify_eq/=. by exists f.
Qed.

Lemma get_files_locks (fs : list (option N)) (slots : list nat) h b :
  lock_discipline h (omap (fun i => EvGetFile <$> mjoin (fs !! i)) slots ++ b)
  = lock_discipline h b.
Proof.
  induction slots as [|i slots IH]; [done|].
  cbn [omap list_omap]. change (list_omap ?f ?l) with (omap f l).
  by destruct (mjoin (fs !! i)).
Qed.

Lemma get_files_no_destroy (fs : list (option N)) (slots : list nat) :
  omap destroy_call (omap (fun i => EvGetFile <$> mjoin (fs !! i)) slots) = [] /\
  omap stage_call (omap (fun i => EvGetFile <$> mjoin (fs !! i)) slots) = [].
Proof.
  induction slots as [|i slots [IH1 IH2]]; [done|].
  cbn [omap list_omap]. change (list_omap ?f ?l) with (omap f l).
  by destruct (mjoin (fs !! i)).
Qed.

(** What every run of [bus1_transaction_instantiate] has in common. *)
Lemma instantiate_shape t uptr w res dd w' :
  bus1_transaction_instantiate X t uptr w = ((res, dd), w') ->
  peers w' = peers w /\ umem w' = umem w /\
  exists tl, trace w' = trace w ++ tl /\
    lock_discipline None tl = true /\
    omap destroy_call tl = [] /\ omap stage_call tl = [] /\
    match res with
    | inr m =>
        (exists p, dd = Some (mk_dest p (Some uptr))) /\
        qnode m = next_node w /\ next_node w' = N.succ (next_node w) /\
        forall n, EvMessageFree n ∉ tl
    | inl r =>
        (r < 0)%Z /\ next_node w <= next_node w' /\
        (forall p n, EvAllocate p n true ∈ tl ->
           EvDeallocate p n ∈ tl /\ EvMessageFree (Some n) ∈ tl)
    end.
Proof.
  intros H. destruct w as [ps um nn tr].
  unfold_instantiate H. instantiate_cases H.
  all: simplify_eq; unfold_m.
  all: split; [done|]; split; [done|].
  all: flat_trace; rewrite ?app_nil_r.
  all: try (exists []; rewrite app_nil_r; split_and!; try done; try lia;
            by intros ? ? ?%elem_of_nil).
  all: eexists; (split; [reflexivity|]).
  all: repeat (cbn [lock_discipline unlocked andb app]; rewrite ?holds_refl).
  all: rewrite ?(get_files_locks _ _ _ []).
  all: cbn [omap list_omap destroy_call stage_call];
       rewrite ?(proj1 (get_files_no_destroy _ _)), ?(proj2 (get_files_no_destroy _ _)).
  all: split_and!; try done; try lia; try (by eexists).
  all: try allocated_released.
  all: try (rewrite <- (app_nil_r (omap _ _)), get_files_locks; reflexivity).
  all: intros n' Hn.
  all: repeat (apply elem_of_cons in Hn as [Hn|Hn]; [discriminate Hn|]).
  all: try (by apply elem_of_nil in Hn).
  all: by apply elem_of_get_files in Hn as [f Hf].
Qed.

Lemma tick_step p w :
  let now := clk w p + Npos (x_tick_step X) in
  exists w1, bus1_queue_tick X p w = (now, w1) /\
    same_but_clock p now (EvTick p now) w w1.
Proof.
  destruct w as [ps um nn tr]. unfold_m. eexists. split; [reflexivity|].
  unfold same_but_clock. unfold_m. split_and!; try done.
  all: intros q; at_peer p q; try done.
  all: try (rewrite bool_decide_true by done; done).
  all: by rewrite bool_decide_false by done.
Qed.

Lemma sync_step p ts w :
  let now := N.max (clk w p) ts in
  exists w1, bus1_queue_sync p ts w = (now, w1) /\
    same_but_clock p now (EvSync p ts now) w w1.
Proof.
  destruct w as [ps um nn tr]. unfold_m. eexists. split; [reflexivity|].
  unfold same_but_clock. unfold_m. split_and!; try done.
  all: intros q; at_peer p q; try done.
  all: try (rewrite bool_decide_true by done; done).
  all: by rewrite bool_decide_false by done.
Qed.

(** With a zero timestamp [bus1_transaction_consume] takes the ticks
    itself: one on the sender, then a sync and a tick on the destination,
    before it enters the locked part. *)
Lemma consume_inline t m d w :
  let s := peer t in
  let p := raw_peer d in
  let ts1 := clk w s + Npos (x_tick_step X) in
  let ts2 := N.max (clk w p) ts1 + Npos (x_tick_step X) in
  exists wP,
    bus1_transaction_consume X t m d 0 w = consume_locked X m d ts2 wP /\
    trace wP = trace w ++
      [EvConsume (qnode m) 0; EvLock s; EvTick s ts1; EvUnlock s;
       EvInstall p (qnode m); EvLock p;
       EvSync p ts1 (N.max (clk w p) ts1); EvTick p ts2] /\
    umem wP = umem w /\ next_node wP = next_node w /\
    (forall q, linked wP q = linked w q) /\
    (forall q, dropped wP q = dropped w q) /\
    (forall q, clk wP q =
       if bool_decide (q = p) then ts2
       else if bool_decide (q = s) then ts1 else clk w q).
Proof.
  cbv zeta. rewrite consume_unfold. cbn [N.eqb].
  set (w0 := set_trace (fun tr => tr ++ [EvLock (peer t)])
               (set_trace (fun tr => tr ++ [EvConsume (qnode m) 0]) w)).
  destruct (tick_step (peer t) w0) as (w1 & E1 & Htr1 & Hum1 & Hnn1 & Hl1 & Hd1 & Hc1).
  set (w2 := set_trace (fun tr => tr ++ [EvLock (raw_peer d)])
               (set_trace (fun tr => tr ++ [EvInstall (raw_peer d) (qnode m)])
                  (set_trace (fun tr => tr ++ [EvUnlock (peer t)]) w1))).
  destruct (sync_step (raw_peer d) (clk w (peer t) + Npos (x_tick_step X)) w2)
    as (w3 & E3 & Htr3 & Hum3 & Hnn3 & Hl3 & Hd3 & Hc3).
  destruct (tick_step (raw_peer d) w3) as (w4 & E4 & Htr4 & Hum4 & Hnn4 & Hl4 & Hd4 & Hc4).
  assert (Hw0 : forall q, clk w0 q = clk w q) by (by destruct w).
  assert (Hw2 : forall q, clk w2 q = clk w1 q) by (by destruct w1).
  assert (Hc2 : clk w2 (raw_peer d) =
                if bool_decide (raw_peer d = peer t)
                then clk w (peer t) + Npos (x_tick_step X) else clk w (raw_peer d)).
  { rewrite Hw2, Hc1, !Hw0. done. }
  assert (Hmax : N.max (clk w2 (raw_peer d)) (clk w (peer t) + Npos (x_tick_step X))
                 = N.max (clk w (raw_peer d)) (clk w (peer t) + Npos (x_tick_step X))).
  { rewrite Hc2. case_bool_decide as Hq; [rewrite Hq; lia|done]. }
  assert (Hnow : clk w3 (raw_peer d) =
                 N.max (clk w (raw_peer d)) (clk w (peer t) + Npos (x_tick_step X))).
  { rewrite Hc3, bool_decide_true by done. exact Hmax. }
  assert (H0 : trace w0 = trace w ++ [EvConsume (qnode m) 0; EvLock (peer t)]
               /\ umem w0 = umem w /\ next_node w0 = next_node w
               /\ (forall q, linked w0 q = linked w q)
               /\ (forall q, dropped w0 q = dropped w q)).
  { subst w0. destruct w. cbn. flat_trace. done. }
  destruct H0 as (Ht0 & Hu0 & Hn0 & Hl0 & Hd0).
  assert (H2 : trace w2 = trace w1 ++ [EvUnlock (peer t);
                 EvInstall (raw_peer d) (qnode m); EvLock (raw_peer d)]
               /\ umem w2 = umem w1 /\ next_node w2 = next_node w1
               /\ (forall q, linked w2 q = linked w1 q)
               /\ (forall q, dropped w2 q = dropped w1 q)).
  { subst w2. destruct w1. cbn. flat_trace. done. }
  destruct H2 as (Ht2 & Hu2 & Hn2 & Hl2 & Hd2).
  rewrite Hw0 in E1, Htr1, Hc1. rewrite Hmax in E3, Htr3, Hc3.
  rewrite Hnow in E4, Htr4, Hc4.
  exists w4. split_and!.
  - unfold bind, mutex_lock, mutex_unlock, bus1_handle_inflight_install, emit, ret.
    fold w0. rewrite E1. fold w2. rewrite E3, E4. reflexivity.
  - rewrite Htr4, Htr3, Ht2, Htr1, Ht0. flat_trace. done.
  - by rewrite Hum4, Hum3, Hu2, Hum1, Hu0.
  - by rewrite Hnn4, Hnn3, Hn2, Hnn1, Hn0.
  - intros q. by rewrite Hl4, Hl3, Hl2, Hl1, Hl0.
  - intros q. by rewrite Hd4, Hd3, Hd2, Hd1, Hd0.
  - intros q. rewrite Hc4. destruct (decide (q = raw_peer d)) as [Hq|Hq].
    + by rewrite !bool_decide_true by done.
    + rewrite !(bool_decide_false (q = raw_peer d)) by done.
      rewrite Hc3, bool_decide_false by done. by rewrite Hw2, Hc1, !Hw0.
Qed.

Lemma node_delete_absent n l : node_lookup n l = None -> node_delete n l = l.
Proof.
  unfold node_lookup, node_delete.
  induction l as [|[a x] l IH]; [done|]. cbn.
  destruct (N.eqb_spec a n) as [->|Hne]; cbn; [done|].
  intros H. by rewrite IH.
Qed.

Lemma peer_info_eta (pi : bus1_peer_info) :
  mk_peer (mk_queue (clock (queue pi)) (nodes (queue pi))) (n_dropped pi)
    (user_ns pi) (pid_ns pi) (user pi) (pool pi) = pi.
Proof. by destruct pi as [[c ns] nd un pn u pl]. Qed.

(** What the locked part of consume leaves alone. *)
Lemma consume_locked_frame m d ts w r w' :
  consume_locked X m d ts w = (r, w') ->
  (forall q, clk w' q = clk w q) /\
  (forall q, q <> raw_peer d -> peers w' !!! q = peers w !!! q) /\
  (forall a, idp d <> Some a -> umem w' !! a = umem w !! a) /\
  next_node w' = next_node w.
Proof.
  intros H. destruct w as [ps um nn tr].
  unfold consume_locked in H. unfold_m.
  repeat case_inner H; simplify_eq; unfold_m.
  all: split_and!; try done.
  all: intros q; try intros Hq.
  all: at_peer (raw_peer d) q; done.
Qed.

(** The locked part of consume on a node that is linked nowhere at the
    destination: nothing gets linked. *)
Lemma consume_locked_unlinked m d ts w r w' :
  node_lookup (qnode m) (linked w (raw_peer d)) = None ->
  consume_locked X m d ts w = (r, w') ->
  (forall q, linked w' q = linked w q) /\
  (exists tl, trace w' = trace w ++ tl /\ omap stage_call tl = [] /\
     EvMessageFree (Some (qnode m)) ∈ tl) /\
  r = match slice m with
      | Some _ => neg_errno EHOSTUNREACH
      | None =>
          match idp d with
          | Some a => if writable w a then 0%Z else neg_errno EFAULT
          | None => 0%Z
          end
      end.
Proof.
  intros Hq H. destruct w as [ps um nn tr].
  pose proof Hq as Hq'. apply not_queued_lookup in Hq'.
  unfold linked in Hq, Hq'. cbn [peers] in Hq, Hq'.
  unfold consume_locked in H. unfold_m.
  repeat case_inner H; simplify_eq; unfold_m.
  all: split_and!.
  all: try (intros q; at_peer (raw_peer d) q; try done;
            by rewrite node_delete_absent).
  all: try (flat_trace; eexists; split_and!; [reflexivity|done|in_trace]).
  all: repeat match goal with
       | Hx : _ !! _ = _ |- _ => rewrite Hx
       | Hx : u_writable _ = _ |- _ => rewrite Hx
       end; try done.
Qed.

(** ** Locking *)

(** X16: commit takes one peer lock at a time and releases each before it
    returns; every tick, sync, stage, remove, slice release, drop count,
    export and wake-up happens under the lock of the peer it acts on;
    handles are installed, messages freed and destination pins released with
    no lock held. *)
Theorem commit_lock_discipline t w :
  lock_discipline None (trace_since w (snd (bus1_transaction_commit X t w)))
  = true.
Proof.
  destruct (bus1_transaction_commit X t w) as [res w'] eqn:H.
  apply commit_locks in H as (tl & Htr & Hl).
  cbn [snd]. by rewrite (trace_since_app _ _ _ Htr).
Qed.

Lemma free_locks t w :
  exists tl, trace (snd (bus1_transaction_free X (Some t) w)) = trace w ++ tl /\
    lock_discipline None tl = true.
Proof.
  unfold bus1_transaction_free, bus1_transaction_destroy, bind.
  destruct (destroy_entries X (entries t) w) as [[] w1] eqn:Hd.
  apply destroy_entries_locks in Hd as (tl & Htr & Hl).
  rewrite release_files_spec.
  destruct w1 as [ps um nn tr]. cbn [trace] in Htr. subst tr.
  unfold emit, ret, when, set_trace. cbn [trace peers umem next_node on_heap set_entries].
  assert (Hf : forall n b,
    lock_discipline None (omap (fun i => EvFput <$> mjoin (files t !! i)) (upto n) ++ b)
    = lock_discipline None b).
  { intros n b. induction (upto n) as [|i slots IH]; [done|].
    cbn [omap list_omap]. change (list_omap ?f ?l) with (omap f l).
    by destruct (mjoin (files t !! i)). }
  destruct (on_heap t); cbn [snd trace]; rewrite <- !app_assoc;
    (eexists; split; [reflexivity|]);
    by rewrite (lock_discipline_app _ _ _ Hl), Hf.
Qed.

(** X17: building an entry and tearing a transaction down keep the same
    discipline: [bus1_transaction_instantiate_for_id] and
    [bus1_transaction_free] hold one peer lock at a time, allocate and
    release slices and unlink nodes only under the lock of the peer
    concerned, and free messages and release pins only with no lock held. *)
Theorem setup_and_teardown_lock_discipline t uptr w :
  lock_discipline None
    (trace_since w (snd (bus1_transaction_instantiate_for_id X t uptr w))) = true /\
  lock_discipline None
    (trace_since w (snd (bus1_transaction_free X (Some t) w))) = true.
Proof.
  split.
  - unfold bus1_transaction_instantiate_for_id, bind.
    destruct (bus1_transaction_instantiate X t uptr w) as [[res dd] w1] eqn:Hi.
    destruct (instantiate_shape _ _ _ _ _ _ Hi) as (_ & _ & tl & Htr & Hl & _).
    destruct res as [r|m]; [|destruct dd as [d|]]; unfold_m; cbn [snd].
    + rewrite (trace_since_app _ _ (tl ++ [EvDestDestroy (raw_peer <$> dd)])).
      * by rewrite (lock_discipline_app _ _ _ Hl).
      * destruct w1; cbn in *. by rewrite Htr, app_assoc.
    + by rewrite (trace_since_app _ _ _ Htr).
    + by rewrite (trace_since_app _ _ _ Htr).
  - destruct (free_locks t w) as (tl & Htr & Hl).
    by rewrite (trace_since_app _ _ _ Htr).
Qed.

(** X21: the unicast fast path keeps the discipline as well: the sender's
    lock is released before the destination's lock is taken. *)
Theorem commit_for_id_lock_discipline t uptr w :
  lock_discipline None
    (trace_since w (snd (bus1_transaction_commit_for_id X t uptr w))) = true.
Proof.
  unfold bus1_transaction_commit_for_id, bind.
  destruct (bus1_transaction_instantiate X t uptr w) as [[res dd] w1] eqn:Hi.
  destruct (instantiate_shape _ _ _ _ _ _ Hi) as (_ & _ & tl & Htr & Hl & _).
  destruct res as [r|m]; [|destruct dd as [d|]].
  - unfold_m. cbn [snd].
    rewrite (trace_since_app _ _ (tl ++ [EvDestDestroy (raw_peer <$> dd)])).
    + by rewrite (lock_discipline_app _ _ _ Hl).
    + destruct w1; cbn in *. by rewrite Htr, app_assoc.
  - destruct (consume_inline t m d w1) as (wP & Hc & HtrP & _).
    cbv zeta in Hc. rewrite Hc.
    destruct (consume_locked X m d _ wP) as [r w2] eqn:Hk.
    apply consume_locked_locks in Hk as (tl2 & Htr2 & Hl2).
    unfold_m. cbn [snd].
    erewrite trace_since_app.
    2:{ destruct w2; cbn in *. rewrite Htr2, HtrP, Htr.
        rewrite <- !app_assoc. reflexivity. }
    rewrite (lock_discipline_app _ _ _ Hl).
    repeat (cbn [lock_discipline unlocked andb app]; rewrite ?holds_refl).
    by rewrite (lock_discipline_app _ _ _ Hl2).
  - unfold ret. cbn [snd]. by rewrite (trace_since_app _ _ _ Htr).
Qed.

(** ** The unicast fast path *)

(** X19: when instantiation succeeds, [bus1_transaction_commit_for_id] takes
    both ticks inline: the sender's clock advances by one tick, the
    destination's clock is synced to that value and ticked once more, and no
    other clock moves.  When instantiation fails no clock moves at all. *)
Theorem commit_for_id_ticks_inline t uptr w :
  let w' := snd (bus1_transaction_commit_for_id X t uptr w) in
  match fst (bus1_transaction_instantiate X t uptr w) with
  | (inr m, Some d) =>
      let ts1 := clk w (peer t) + Npos (x_tick_step X) in
      clk w' (raw_peer d) = N.max (clk w (raw_peer d)) ts1 + Npos (x_tick_step X) /\
      (peer t = raw_peer d \/ clk w' (peer t) = ts1) /\
      (forall q, q = raw_peer d \/ q = peer t \/ clk w' q = clk w q) /\
      EvConsume (qnode m) 0 ∈ trace_since w w'
  | _ => forall q, clk w' q = clk w q
  end.
Proof.
  cbv zeta. unfold bus1_transaction_commit_for_id, bind.
  destruct (bus1_transaction_instantiate X t uptr w) as [[res dd] w1] eqn:Hi.
  destruct (instantiate_shape _ _ _ _ _ _ Hi) as (Hps & _ & tl & Htr & _).
  assert (Hclk : forall q, clk w1 q = clk w q) by (intros q; unfold clk; by rewrite Hps).
  cbn [fst].
  destruct res as [r|m]; [|destruct dd as [d|]].
  - intros q. rewrite <- Hclk. by destruct w1.
  - destruct (consume_inline t m d w1) as (wP & Hc & HtrP & _ & _ & _ & _ & HclkP).
    cbv zeta in Hc, HclkP, HtrP. rewrite Hc.
    destruct (consume_locked X m d _ wP) as [r w2] eqn:Hk.
    destruct (consume_locked_frame _ _ _ _ _ _ Hk) as (Hclk2 & _).
    pose proof (consume_locked_locks _ _ _ _ _ _ Hk) as (tl2 & Htr2 & _).
    assert (Hfin : forall q, clk (snd (bind (bus1_handle_dest_destroy None)
                               (fun _ => ret r) w2)) q = clk w2 q)
      by (intros q; by destruct w2).
    unfold bind in Hfin. cbn [snd] in *.
    destruct (bus1_handle_dest_destroy None w2) as [[] w3] eqn:Hd.
    cbn [snd ret] in *. unfold ret. cbn [snd].
    rewrite !Hfin, !Hclk2, !HclkP, !Hclk.
    split_and!.
    + by rewrite bool_decide_true by done.
    + destruct (decide (peer t = raw_peer d)) as [?|Hne]; [by left|right].
      rewrite bool_decide_false by done. by rewrite bool_decide_true by done.
    + intros q. rewrite Hfin, Hclk2, HclkP.
      destruct (decide (q = raw_peer d)); [by left|right].
      destruct (decide (q = peer t)); [by left|right].
      rewrite !bool_decide_false by done. apply Hclk.
    + unfold bus1_handle_dest_destroy, emit in Hd. simplify_eq.
      erewrite trace_since_app.
      2:{ destruct w2; cbn in *. rewrite Htr2, HtrP, Htr.
          rewrite <- !app_assoc. reflexivity. }
      apply elem_of_app. right. in_trace.
  - intros q. unfold ret. cbn [snd]. apply Hclk.
Qed.

(** X20: a message handed to the fast path is linked on no queue: as long as
    the node of the new message is linked nowhere, no queue gains or loses a
    node and nothing is staged; the message is freed.  The call returns the
    error of a failed instantiation, [-EHOSTUNREACH] whenever the message
    got a slice, and otherwise 0 or [-EFAULT] according to the write of the
    invalid id. *)
Theorem commit_for_id_links_nothing t uptr w :
  (forall q, node_lookup (next_node w) (linked w q) = None) ->
  let '(r, w') := bus1_transaction_commit_for_id X t uptr w in
  (forall q, linked w' q = linked w q) /\
  omap stage_call (trace_since w w') = [] /\
  match fst (fst (bus1_transaction_instantiate X t uptr w)) with
  | inl e => r = e
  | inr m =>
      EvMessageFree (Some (qnode m)) ∈ trace_since w w' /\
      r = match slice m with
          | Some _ => neg_errno EHOSTUNREACH
          | None => if writable w uptr then 0%Z else neg_errno EFAULT
          end
  end.
Proof.
  intros Hfresh.
  unfold bus1_transaction_commit_for_id, bind.
  destruct (bus1_transaction_instantiate X t uptr w) as [[res dd] w1] eqn:Hi.
  destruct (instantiate_shape _ _ _ _ _ _ Hi)
    as (Hps & Hum & tl & Htr & _ & _ & Hst & Hres).
  assert (Hln : forall q, linked w1 q = linked w q)
    by (intros q; unfold linked; by rewrite Hps).
  cbn [fst].
  destruct res as [r|m]; [|destruct dd as [d|]].
  - unfold bus1_handle_dest_destroy, emit, ret. split_and!; [| |done].
    + intros q. rewrite <- Hln. by destruct w1.
    + rewrite (trace_since_app _ _ (tl ++ [EvDestDestroy (raw_peer <$> dd)])).
      * by rewrite omap_app, Hst.
      * destruct w1; cbn in *. by rewrite Htr, app_assoc.
  - destruct Hres as ([p Hp] & Hn & _). injection Hp as ->.
    destruct (consume_inline t m (mk_dest p (Some uptr)) w1)
      as (wP & Hc & HtrP & HumP & _ & HlnP & _).
    cbv zeta in Hc, HtrP. rewrite Hc.
    destruct (consume_locked X m _ _ wP) as [r w2] eqn:Hk.
    apply consume_locked_unlinked in Hk
      as (Hln2 & (tl2 & Htr2 & Hst2 & Hfree) & Hr).
    2:{ rewrite HlnP, Hln, Hn. apply Hfresh. }
    unfold_m.
    assert (Htr3 : trace_since w
      {| peers := peers w2; umem := umem w2; next_node := next_node w2;
         trace := trace w2 ++ [EvDestDestroy (raw_peer <$> None)] |} =
      tl ++ [EvConsume (qnode m) 0; EvLock (peer t);
             EvTick (peer t) (clk w1 (peer t) + N.pos (x_tick_step X));
             EvUnlock (peer t); EvInstall p (qnode m); EvLock p;
             EvSync p (clk w1 (peer t) + N.pos (x_tick_step X))
               (N.max (clk w1 p) (clk w1 (peer t) + N.pos (x_tick_step X)));
             EvTick p (N.max (clk w1 p) (clk w1 (peer t) + N.pos (x_tick_step X))
                       + N.pos (x_tick_step X))]
         ++ tl2 ++ [EvDestDestroy None]).
    { apply trace_since_app. cbn [trace]. rewrite Htr2, HtrP, Htr.
      cbn [raw_peer]. rewrite <- !app_assoc. reflexivity. }
    split_and!.
    + intros q. by rewrite <- Hln, <- HlnP, <- Hln2.
    + rewrite Htr3, !omap_app, Hst, Hst2. done.
    + rewrite Htr3. apply elem_of_app. right. apply elem_of_app. right.
      apply elem_of_app. by left.
    + rewrite Hr. cbn [idp]. unfold writable. by rewrite HumP, Hum.
  - by destruct Hres as ([p Hp] & _).
Qed.

(** ** Instantiation *)

(** X7: [bus1_transaction_instantiate_for_id] does not link the message on
    the destination yet: whatever the outcome, no peer changes (no queue, no
    clock, no drop counter).  On success exactly one entry is put in front
    of the list, for a new message and with the caller's id pointer kept for
    the write-back; on failure the result is negative and the transaction is
    as before. *)
Theorem instantiate_for_id_defers_linking t uptr w :
  let '((r, t'), w') := bus1_transaction_instantiate_for_id X t uptr w in
  peers w' = peers w /\
  ((r = 0%Z /\
    exists m p, t' = set_entries ((m, mk_dest p (Some uptr)) :: entries t) t /\
      qnode m = next_node w /\ next_node w' = N.succ (next_node w)) \/
   ((r < 0)%Z /\ t' = t)).
Proof.
  unfold bus1_transaction_instantiate_for_id, bind.
  destruct (bus1_transaction_instantiate X t uptr w) as [[res dd] w1] eqn:Hi.
  destruct (instantiate_shape _ _ _ _ _ _ Hi)
    as (Hps & _ & tl & _ & _ & _ & _ & Hres).
  destruct res as [r|m]; [|destruct dd as [d|]].
  - unfold bus1_handle_dest_destroy, emit, ret. cbn [set_trace peers].
    split; [done|]. right. by destruct Hres.
  - unfold ret. split; [done|]. left. split; [done|].
    destruct Hres as ([p Hp] & Hn & Hs & _). injection Hp as ->.
    by exists m, p.
  - by destruct Hres as ([p Hp] & _).
Qed.

(** X8: a failed instantiation leaves nothing behind: the destination is
    destroyed exactly once, and a slice that was allocated on the way is
    released again and its message freed.  A successful one keeps the pin
    and the message. *)
Theorem failed_instantiation_releases t uptr w :
  let '((r, t'), w') := bus1_transaction_instantiate_for_id X t uptr w in
  let tl := trace_since w w' in
  if (r <? 0)%Z
  then t' = t /\
       (exists dd, omap destroy_call tl = [dd]) /\
       (forall p n, EvAllocate p n true ∈ tl ->
          EvDeallocate p n ∈ tl /\ EvMessageFree (Some n) ∈ tl)
  else r = 0%Z /\ omap destroy_call tl = [] /\
       (forall n, EvMessageFree n ∉ tl).
Proof.
  unfold bus1_transaction_instantiate_for_id, bind.
  destruct (bus1_transaction_instantiate X t uptr w) as [[res dd] w1] eqn:Hi.
  destruct (instantiate_shape _ _ _ _ _ _ Hi)
    as (_ & _ & tl & Htr & _ & Hds & _ & Hres).
  destruct res as [r|m]; [|destruct dd as [d|]].
  - unfold bus1_handle_dest_destroy, emit, ret. cbv zeta.
    destruct Hres as (Hr & _ & Hal).
    rewrite (proj2 (Z.ltb_lt r 0) Hr).
    rewrite (trace_since_app _ _ (tl ++ [EvDestDestroy (raw_peer <$> dd)]))
      by (destruct w1; cbn in *; by rewrite Htr, app_assoc).
    split_and!; [done| |].
    + rewrite omap_app, Hds. by eexists.
    + intros p n [Hin|Hin]%elem_of_app.
      * destruct (Hal _ _ Hin). split; apply elem_of_app; by left.
      * apply elem_of_cons in Hin as [Hin|Hin]; [done|by apply elem_of_nil in Hin].
  - unfold ret. cbv zeta. change (0 <? 0)%Z with false. cbv iota.
    rewrite (trace_since_app _ _ _ Htr). by destruct Hres as (_ & _ & _ & Hfr).
  - by destruct Hres as ([p Hp] & _).
Qed.

(** X11: instantiation keeps the entries distinct: when the listed messages
    are pairwise distinct and all older than the allocator's next identity,
    they still are after another [bus1_transaction_instantiate_for_id], so
    that no two entries share a queue node. *)
Theorem instantiate_for_id_keeps_entries_distinct t uptr w :
  entries_fresh t w ->
  let '((r, t'), w') := bus1_transaction_instantiate_for_id X t uptr w in
  entries_fresh t' w' /\ NoDup (map entry_key (entries t')).
Proof.
  intros [Hnd Hlt].
  assert (Hkey : forall t0 w0, entries_fresh t0 w0 ->
            entries_fresh t0 w0 /\ NoDup (map entry_key (entries t0))).
  { intros t0 w0 Hf. split; [done|]. destruct Hf as [Hn _].
    apply (NoDup_fmap_1 fst). rewrite <- list_fmap_compose. exact Hn. }
  unfold bus1_transaction_instantiate_for_id, bind.
  destruct (bus1_transaction_instantiate X t uptr w) as [[res dd] w1] eqn:Hi.
  destruct (instantiate_shape _ _ _ _ _ _ Hi)
    as (_ & _ & tl & _ & _ & _ & _ & Hres).
  destruct res as [r|m]; [|destruct dd as [d|]].
  - unfold bus1_handle_dest_destroy, emit, ret. apply Hkey.
    destruct Hres as (_ & Hle & _). split; [done|].
    destruct w1 as [ps1 um1 nn1 tr1]. cbn [set_trace next_node] in *.
    eapply Forall_impl; [exact Hlt|]. cbn. intros e He. lia.
  - unfold ret. apply Hkey. destruct Hres as (_ & Hn & Hs & _).
    split; cbn [entries set_entries map fst].
    + apply NoDup_cons. split; [|done]. rewrite Hn.
      intros (e & He & Hin)%list_elem_of_fmap.
      rewrite Forall_forall in Hlt. specialize (Hlt _ Hin). lia.
    + rewrite Hs. apply Forall_cons. split; [cbn; lia|].
      eapply Forall_impl; [exact Hlt|]. cbn. intros e He. lia.
  - by destruct Hres as ([p Hp] & _).
Qed.

Ltac step_instantiate H Hx :=
  rewrite Hx in H; cbv beta iota in H; unfold_m;
  repeat match type of H with
  | context [(Z.neg ?e <? 0)%Z] => change (Z.neg e <? 0)%Z with true in H
  | context [(0 <? 0)%Z] => change (0 <? 0)%Z with false in H
  end;
  cbv beta iota in H; unfold_m.

(** X6: the successful path of instantiation, in full: the new entry carries
    a new message with the allocated slice, the sender's uid and gid
    translated into the destination's user namespace and its pid and tid
    into the destination's pid namespace, and one reference per file of the
    transaction; the slice is allocated under the destination's lock and
    nothing else happens. *)
Theorem instantiate_for_id_success t uptr w id p s :
  u_val <$> umem w !! uptr = Some id ->
  x_handle_resolve X (peer t) id = inr p ->
  x_message_new X (length_vecs t) (n_fds (param t)) (n_handles (param t)) = None ->
  x_message_allocate X (peers w !!! p) (length_vecs t) (user (peers w !!! peer t))
    = inr s ->
  x_pool_write_iovec X (umem w) s (vecs t) (length_vecs t) = None ->
  x_handle_inflight_instantiate X (peers w !!! p) (handles t) = None ->
  let dest_info := peers w !!! p in
  let m :=
    mk_message (next_node w) (Some s) (BUS1_HANDLE_INVALID X)
      (x_from_kuid_munged X (user_ns dest_info) (fst (cred t)),
       x_from_kgid_munged X (user_ns dest_info) (snd (cred t)),
       x_pid_nr_ns X (pid t) (pid_ns dest_info),
       x_pid_nr_ns X (tid t) (pid_ns dest_info))
      (flag_set (flags (param t)) (BUS1_SEND_FLAG_SILENT X))
      (map (fun i => mjoin (files t !! i)) (upto (n_fds (param t)))) in
  bus1_transaction_instantiate_for_id X t uptr w =
    ((0%Z, set_entries ((m, mk_dest p (Some uptr)) :: entries t) t),
     mk_world (peers w) (umem w) (N.succ (next_node w))
       (trace w ++ [EvLock p; EvAllocate p (next_node w) true; EvUnlock p]
          ++ omap (fun i => EvGetFile <$> mjoin (files t !! i))
               (upto (n_fds (param t))))).
Proof.
  intros Hid Hres Hnew Hall Hwr Hinf. cbv zeta.
  destruct w as [ps um nn tr]. cbn [umem peers next_node trace] in *.
  unfold bus1_transaction_instantiate_for_id, bind.
  destruct (bus1_transaction_instantiate X t uptr _) as [res w'] eqn:H.
  unfold_instantiate H.
  step_instantiate H Hid. step_instantiate H Hres. step_instantiate H Hnew.
  step_instantiate H Hall. change (default 0%N (Some s)) with s in H. step_instantiate H Hwr.
  step_instantiate H Hinf. rewrite get_files_spec in H. unfold_m.
  simplify_eq. unfold ret. flat_trace. done.
Qed.

(** X9: CONTINUE covers the slice allocation only: when the payload cannot
    be copied into the slice, or the handles cannot be instantiated, the
    instantiation fails with that error whatever the flags are; the slice is
    released under the destination's lock, the message freed and the
    destination destroyed, and the transaction is as before. *)
Theorem payload_failure_aborts_despite_continue t uptr w id p s e :
  u_val <$> umem w !! uptr = Some id ->
  x_handle_resolve X (peer t) id = inr p ->
  x_message_new X (length_vecs t) (n_fds (param t)) (n_handles (param t)) = None ->
  x_message_allocate X (peers w !!! p) (length_vecs t) (user (peers w !!! peer t))
    = inr s ->
  x_pool_write_iovec X (umem w) s (vecs t) (length_vecs t) = Some e \/
  (x_pool_write_iovec X (umem w) s (vecs t) (length_vecs t) = None /\
   x_handle_inflight_instantiate X (peers w !!! p) (handles t) = Some e) ->
  bus1_transaction_instantiate_for_id X t uptr w =
    ((neg_errno e, t),
     mk_world (peers w) (umem w) (N.succ (next_node w))
       (trace w ++ [EvLock p; EvAllocate p (next_node w) true; EvUnlock p;
                    EvLock p; EvDeallocate p (next_node w); EvUnlock p;
                    EvMessageFree (Some (next_node w));
                    EvDestDestroy (Some p)])).
Proof.
  intros Hid Hres Hnew Hall Hfail.
  destruct w as [ps um nn tr]. cbn [umem peers next_node trace] in *.
  unfold bus1_transaction_instantiate_for_id, bind.
  destruct (bus1_transaction_instantiate X t uptr _) as [res w'] eqn:H.
  unfold_instantiate H.
  step_instantiate H Hid. step_instantiate H Hres. step_instantiate H Hnew.
  step_instantiate H Hall. change (default 0%N (Some s)) with s in H.
  destruct Hfail as [Hwr|[Hwr Hinf]].
  - step_instantiate H Hwr. simplify_eq. unfold_m. flat_trace. done.
  - step_instantiate H Hwr. step_instantiate H Hinf.
    simplify_eq. unfold_m. flat_trace. done.
Qed.

(** X10: a destination that cannot be imported (the id cannot be read, or
    the handle does not resolve) ends the instantiation at once: the error
    of the import is returned, no message is created, no lock is taken, and
    all that happens is the destruction of the (empty) destination. *)
Theorem unresolved_destination_creates_nothing t uptr w :
  (fst (fst (bus1_handle_dest_import X (peer t) uptr w)) < 0)%Z ->
  let '((r, dd), _) := bus1_handle_dest_import X (peer t) uptr w in
  bus1_transaction_instantiate_for_id X t uptr w =
    ((r, t), set_trace (fun tr => tr ++ [EvDestDestroy (raw_peer <$> dd)]) w).
Proof.
  intros Hneg.
  unfold bus1_transaction_instantiate_for_id, bus1_transaction_instantiate.
  unfold bind at 1 2.
  destruct (bus1_handle_dest_import X (peer t) uptr w) as [[r dd] w1] eqn:Hi.
  cbn [fst] in Hneg.
  assert (w1 = w) as ->.
  { unfold bus1_handle_dest_import, bind, get_user, ret in Hi.
    destruct (u_val <$> umem w !! uptr); [|by simplify_eq].
    destruct (x_handle_resolve X (peer t) n); by simplify_eq. }
  apply Z.ltb_lt in Hneg.
  destruct dd as [d|]; [rewrite Hneg|]; by unfold_m.
Qed.

(** ** What a commit touches *)

Lemma stage_loop_untouched l : forall ts w t0 w1 q,
  commit_stage_loop X l ts w = (t0, w1) ->
  q ∉ map (fun e => raw_peer (snd e)) l ->
  peers w1 !!! q = peers w !!! q.
Proof.
  induction l as [|[m d] l IH]; intros ts w t0 w1 q H Hq.
  - cbn in H. unfold ret in H. by simplify_eq.
  - cbn [commit_stage_loop] in H.
    cbn [map fst snd] in Hq. apply not_elem_of_cons in Hq as [Hq1 Hq2].
    destruct w as [ps um nn tr]. unfold_m. norm_in H.
    repeat case_inner H.
    all: rewrite (IH _ _ _ _ _ H Hq2); unfold_m.
    all: by rewrite lookup_total_insert_ne by done.
Qed.

Lemma sync_loop_untouched l : forall ts w w1 q,
  commit_sync_loop l ts w = (tt, w1) ->
  q ∉ map (fun e => raw_peer (snd e)) l ->
  peers w1 !!! q = peers w !!! q.
Proof.
  induction l as [|[m d] l IH]; intros ts w w1 q H Hq.
  - cbn in H. unfold ret in H. by simplify_eq.
  - cbn [commit_sync_loop] in H.
    cbn [map fst snd] in Hq. apply not_elem_of_cons in Hq as [Hq1 Hq2].
    destruct w as [ps um nn tr]. unfold_m. norm_in H.
    rewrite (IH _ _ _ _ H Hq2); unfold_m.
    by rewrite lookup_total_insert_ne by done.
Qed.

Lemma consume_untouched t m d ts w r w' :
  ts <> 0 ->
  bus1_transaction_consume X t m d ts w = (r, w') ->
  (forall q, q <> raw_peer d -> peers w' !!! q = peers w !!! q) /\
  (forall a, idp d <> Some a -> umem w' !! a = umem w !! a).
Proof.
  intros Hts H. rewrite (consume_given _ _ _ _ _ Hts) in H.
  destruct (consume_locked_frame _ _ _ _ _ _ H) as (_ & Hp & Hu & _).
  split.
  - intros q Hq. rewrite (Hp q Hq). by destruct w.
  - intros a Ha. rewrite (Hu a Ha). by destruct w.
Qed.

Lemma consume_loop_untouched t l : forall ts res w res' w',
  ts <> 0 ->
  commit_consume_loop X t l ts res w = (res', w') ->
  (forall q, q ∉ map (fun e => raw_peer (snd e)) l ->
     peers w' !!! q = peers w !!! q) /\
  (forall a, Some a ∉ map (fun e => idp (snd e)) l ->
     umem w' !! a = umem w !! a).
Proof.
  induction l as [|[m d] l IH]; intros ts res w res' w' Hts H.
  - cbn in H. unfold ret in H. by simplify_eq.
  - cbn [commit_consume_loop] in H. unfold bind at 1 in H.
    destruct (bus1_transaction_consume X t m d ts w) as [r w1] eqn:Hc.
    destruct (consume_untouched _ _ _ _ _ _ _ Hts Hc) as [Hp1 Hu1].
    destruct (IH _ _ _ _ _ Hts H) as [Hp2 Hu2].
    cbn [map fst snd]. split.
    + intros q [Hq1 Hq2]%not_elem_of_cons. by rewrite Hp2, Hp1.
    + intros a [Ha1 Ha2]%not_elem_of_cons. by rewrite Hu2, Hu1.
Qed.

(** X13: a commit acts on its participants only: the state of a peer that is
    neither the sender nor a destination of an entry is left as it was, user
    memory changes at most at the id pointers of the entries, and no message
    is allocated. *)
Theorem commit_touches_participants_only t w :
  let w' := snd (bus1_transaction_commit X t w) in
  (forall q, q = peer t \/ q ∈ map (fun e => raw_peer (snd e)) (entries t) \/
     peers w' !!! q = peers w !!! q) /\
  (forall a, Some a ∈ map (fun e => idp (snd e)) (entries t) \/
     umem w' !! a = umem w !! a) /\
  next_node w' = next_node w.
Proof.
  cbv zeta. destruct (entries t) as [|e l] eqn:He.
  - unfold bus1_transaction_commit. rewrite He. unfold ret. cbn [snd].
    split_and!; [intros q; by right; right|intros a; by right|done].
  - rewrite (commit_unfold _ _ _ _ He).
    destruct (commit_staged X t (e :: l) w) as [t0 w1] eqn:H1.
    destruct (commit_sync_loop (e :: l) t0 w1) as [[] w2] eqn:H2.
    destruct (commit_consume_loop X (set_entries [] t) (e :: l) t0 0%Z w2)
      as [r w3] eqn:H3.
    cbn [snd].
    pose proof (commit_staged_spec _ _ _ (clk w) _ _ (fun _ => eq_refl) H1)
      as (_ & _ & _ & _ & _ & _ & Hnz & Hum1 & Hnn1 & _).
    pose proof (sync_loop_spec _ _ _ (clk w1) _ (fun _ => eq_refl) H2)
      as (_ & _ & _ & _ & _ & _ & Hum2 & Hnn2 & _).
    pose proof (consume_loop_spec _ _ _ _ _ _ _ Hnz H3)
      as (_ & _ & _ & _ & _ & _ & _ & _ & _ & _ & Hnn3).
    destruct (consume_loop_untouched _ _ _ _ _ _ _ Hnz H3) as [Hp3 Hu3].
    split_and!.
    + intros q.
      destruct (decide (q = peer t)) as [|Hs]; [by left|right].
      destruct (decide (q ∈ map (fun e => raw_peer (snd e)) (e :: l)))
        as [|Hd]; [by left|right].
      rewrite (Hp3 q Hd), (sync_loop_untouched _ _ _ _ _ H2 Hd).
      unfold commit_staged in H1.
      destruct w as [ps um nn tr]. unfold_m. norm_in H1.
      rewrite (stage_loop_untouched _ _ _ _ _ _ H1 Hd). cbn [peers].
      by rewrite lookup_total_insert_ne by done.
    + intros a.
      destruct (decide (Some a ∈ map (fun e => idp (snd e)) (e :: l)))
        as [|Ha]; [by left|right].
      by rewrite (Hu3 a Ha), Hum2, Hum1.
    + by rewrite Hnn3, Hnn2, Hnn1.
Qed.

Lemma stage_loop_order l : forall ts w t0 w1,
  commit_stage_loop X l ts w = (t0, w1) ->
  ts <= t0 /\
  (forall q, clk w q <= clk w1 q) /\
  Forall (fun e => clk w (raw_peer (snd e)) < t0) l /\
  exists tl, trace w1 = trace w ++ tl /\
    Forall (fun c => snd c < t0) (omap stage_call tl).
Proof.
  induction l as [|[m d] l IH]; intros ts w t0 w1 H.
  - cbn in H. unfold ret in H. simplify_eq. split_and!; try done.
    exists []. by rewrite app_nil_r.
  - cbn [commit_stage_loop] in H.
    destruct w as [ps um nn tr]. unfold_m. norm_in H.
    set (t1 := N.max (clock (queue (ps !!! raw_peer d))) ts) in *.
    set (t2 := t1 + Npos (x_tick_step X)) in *.
    assert (Ht2 : u64_dec t2 = t2 - 1) by (apply u64_dec_pos; lia).
    rewrite Ht2 in H.
    repeat case_inner H.
    all: apply IH in H as (Hle & Hmono & Hall & tl & Htr & Hst); unfold_m.
    all: split_and!; [lia| | |].
    all: try (intros q; etrans; [|apply Hmono]; at_peer (raw_peer d) q; lia).
    all: try (apply Forall_cons; split;
              [cbn [snd]; lia
              |eapply Forall_impl; [exact Hall|]; cbn beta; intros e' He';
               eapply N.le_lt_trans; [|exact He'];
               destruct (decide (raw_peer (snd e') = raw_peer d)) as [Heq|Hne];
               [rewrite Heq|]; peer_lookup; cbn [queue clock]; lia]).
    all: try (rewrite Htr; flat_trace; eexists; split; [reflexivity|];
              cbn [omap list_omap stage_call];
              apply Forall_cons; split; [cbn [snd]; lia|exact Hst]).
Qed.

Lemma sync_loop_mono l : forall ts w w1,
  commit_sync_loop l ts w = (tt, w1) ->
  (forall q, clk w q <= clk w1 q) /\
  exists tl, trace w1 = trace w ++ tl /\ omap stage_call tl = [].
Proof.
  induction l as [|[m d] l IH]; intros ts w w1 H.
  - cbn in H. unfold ret in H. simplify_eq. split; [done|].
    exists []. by rewrite app_nil_r.
  - cbn [commit_sync_loop] in H.
    destruct w as [ps um nn tr]. unfold_m. norm_in H.
    apply IH in H as (Hmono & tl & Htr & Hst); unfold_m.
    split.
    + intros q; etrans; [|apply Hmono]; at_peer (raw_peer d) q; lia.
    + rewrite Htr; flat_trace; eexists; split; [reflexivity|]. exact Hst.
Qed.

(** X12: the timestamp of a commit is new to every participant: it is
    strictly greater than the clock the sender and each destination had when
    the commit began.  The staging pass stages every entry strictly below
    it, the commit pass stages at it, and no clock ever moves backwards.
    ([t0] is the value left by the sender tick and the staging pass.) *)
Theorem commit_timestamp_is_new t w :
  let t0 := fst (commit_staged X t (entries t) w) in
  let w' := snd (bus1_transaction_commit X t w) in
  clk w (peer t) < t0 /\
  Forall (fun e => clk w (raw_peer (snd e)) < t0) (entries t) /\
  (forall q, clk w q <= clk w' q) /\
  exists pre post,
    trace_since w w' = pre ++ post /\
    Forall (fun c => snd c < t0) (omap stage_call pre) /\
    Forall (fun c => snd c = t0) (omap stage_call post).
Proof.
  cbv zeta.
  destruct (commit_staged X t (entries t) w) as [t0 w1] eqn:H1. cbn [fst].
  pose proof H1 as H1'. unfold commit_staged in H1'.
  destruct w as [ps um nn tr]. unfold_m. norm_in H1'.
  apply stage_loop_order in H1' as (Hle & Hmono1 & Hall & tl1 & Htr1 & Hst1).
  unfold_m.
  assert (Hs : clock (queue (ps !!! peer t)) < t0) by lia.
  assert (Hmono : forall q,
    clock (queue (ps !!! q)) <= clock (queue (peers w1 !!! q))).
  { intros q. etrans; [|apply Hmono1]. at_peer (peer t) q; lia. }
  assert (Hdest : Forall (fun e => clock (queue (ps !!! raw_peer (snd e))) < t0)
                    (entries t)).
  { eapply Forall_impl; [exact Hall|]. cbn beta. intros e He.
    eapply N.le_lt_trans; [|exact He].
    destruct (decide (raw_peer (snd e) = peer t)) as [Heq|Hne];
      [rewrite Heq|]; peer_lookup; cbn [queue clock]; lia. }
  split; [done|]. split; [done|].
  destruct (entries t) as [|e l] eqn:He.
  - unfold bus1_transaction_commit. rewrite He. unfold ret. cbn [snd].
    split; [done|]. exists [], []. unfold trace_since. cbn [trace].
    by rewrite drop_all.
  - rewrite (commit_unfold _ _ _ _ He), H1.
    destruct (commit_sync_loop (e :: l) t0 w1) as [[] w2] eqn:H2.
    destruct (commit_consume_loop X (set_entries [] t) (e :: l) t0 0%Z w2)
      as [r w3] eqn:H3.
    cbn [snd].
    pose proof (commit_staged_spec _ _ _
                  (clk {| peers := ps; umem := um; next_node := nn; trace := tr |})
                  _ _ (fun _ => eq_refl) H1)
      as (_ & _ & _ & _ & _ & _ & Hnz & _).
    apply sync_loop_mono in H2 as (Hmono2 & tl2 & Htr2 & Hst2).
    pose proof (consume_loop_spec _ _ _ _ _ _ _ Hnz H3)
      as (tl3 & Htr3 & _ & _ & Hst3 & _ & _ & Hclk3 & _).
    unfold_m. split.
    + intros q. rewrite Hclk3. etrans; [apply Hmono|apply Hmono2].
    + exists ([EvLock (peer t);
               EvTick (peer t) (clock (queue (ps !!! peer t)) + N.pos (x_tick_step X));
               EvUnlock (peer t)] ++ tl1 ++ tl2), tl3.
      split_and!.
      * apply trace_since_app. cbn [trace]. rewrite Htr3, Htr2, Htr1.
        rewrite <- !app_assoc. reflexivity.
      * cbn [app omap list_omap stage_call].
        change (list_omap ?f ?l) with (omap f l).
        rewrite omap_app, Hst2, app_nil_r. exact Hst1.
      * exact Hst3.
Qed.

(** X18: a commit flushes the transaction: committing again right away
    returns 0 and does nothing. *)
Theorem commit_flushes t w :
  let '((r, t'), w') := bus1_transaction_commit X t w in
  bus1_transaction_commit X t' w' = ((0%Z, t'), w').
Proof.
  pose proof (commit_empties_entries t w) as He.
  destruct (bus1_transaction_commit X t w) as [[r t'] w'].
  cbn in He. destruct He as [_ He].
  unfold bus1_transaction_commit. by rewrite He.
Qed.

(** ** Teardown *)

Lemma destroy_entries_frame l : forall w w',
  destroy_entries X l w = (tt, w') ->
  (forall q, clk w' q = clk w q) /\
  (forall q, dropped w' q = dropped w q) /\
  next_node w' = next_node w /\
  (forall q, q ∉ map (fun e => raw_peer (snd e)) l ->
     peers w' !!! q = peers w !!! q).
Proof.
  induction l as [|[m d] l IH]; intros w w' H.
  - cbn in H. unfold ret in H. by simplify_eq.
  - cbn [destroy_entries] in H.
    destruct w as [ps um nn tr]. unfold_m.
    repeat case_inner H.
    all: apply IH in H as (Hclk & Hdr & Hnn & Hpe); unfold_m.
    all: split_and!; [| |done|].
    all: try (intros q; rewrite ?Hclk, ?Hdr; at_peer (raw_peer d) q; done).
    all: intros q [Hq1 Hq2]%not_elem_of_cons; rewrite (Hpe q Hq2); cbn [peers].
    all: by rewrite lookup_total_insert_ne by done.
Qed.

(** X4: freeing a transaction only unlinks: the queue nodes of the listed
    entries are gone from their destination queues and every other node is
    still linked as before; no clock and no drop counter changes, user
    memory is not written and no message is allocated. *)
Theorem free_only_unlinks t w :
  let w' := snd (bus1_transaction_free X (Some t) w) in
  (forall q k, node_lookup k (linked w' q) =
     if bool_decide ((k, q) ∈ map entry_key (entries t)) then None
     else node_lookup k (linked w q)) /\
  (forall q, clk w' q = clk w q) /\
  (forall q, dropped w' q = dropped w q) /\
  umem w' = umem w /\ next_node w' = next_node w.
Proof.
  cbv zeta.
  unfold bus1_transaction_free, bus1_transaction_destroy, bind.
  destruct (destroy_entries X (entries t) w) as [[] w1] eqn:Hd.
  destruct (destroy_entries_spec _ _ (linked w) _ (fun _ => eq_refl) Hd)
    as (_ & Hum & Hlk).
  destruct (destroy_entries_frame _ _ _ Hd) as (Hclk & Hdr & Hnn & _).
  rewrite release_files_spec.
  destruct w1 as [ps um nn tr].
  unfold emit, ret, when, set_trace.
  cbn [trace peers umem next_node on_heap set_entries].
  destruct (on_heap t); cbn [snd]; split_and!; try done.
Qed.

Lemma destroy_entries_unlinked l : forall w w',
  Forall (fun e => node_lookup (qnode (fst e)) (linked w (raw_peer (snd e))) = None) l ->
  destroy_entries X l w = (tt, w') ->
  (forall q, peers w' !!! q = peers w !!! q) /\
  exists tl, trace w' = trace w ++ tl /\ forallb (fun e => negb (is_wake e)) tl = true.
Proof.
  induction l as [|[m d] l IH]; intros w w' Hall H.
  - cbn in H. unfold ret in H. simplify_eq. split; [done|].
    exists []. by rewrite app_nil_r.
  - apply Forall_cons in Hall as [Hm Hall]. cbn [fst snd] in Hm.
    cbn [destroy_entries] in H.
    destruct w as [ps um nn tr]. unfold_m. unfold front_changed in H.
    cbn [nodes] in H.
    rewrite (node_delete_absent _ _ Hm) in H.
    rewrite bool_decide_true in H by done. cbn [negb] in H.
    rewrite peer_info_eta in H.
    assert (Hsame : forall q, (<[raw_peer d := ps !!! raw_peer d]> ps) !!! q = ps !!! q).
    { intros q. at_peer (raw_peer d) q; done. }
    apply IH in H as (Hpe & tl & Htr & Hwk).
    2:{ eapply Forall_impl; [exact Hall|]. cbn beta. intros e He.
        unfold linked in *. cbn [peers] in *. by rewrite Hsame. }
    cbn [peers trace] in *. split.
    + intros q. by rewrite Hpe, Hsame.
    + rewrite Htr. flat_trace. eexists. split; [reflexivity|]. exact Hwk.
Qed.

(** X5: giving up a transaction is invisible to the destinations: when the
    listed entries are linked on no queue (as instantiation leaves them),
    freeing the transaction leaves the state of every peer as it was and
    wakes nobody. *)
Theorem abort_is_invisible t w :
  Forall (fun e => node_lookup (qnode (fst e)) (linked w (raw_peer (snd e))) = None)
    (entries t) ->
  let w' := snd (bus1_transaction_free X (Some t) w) in
  (forall q, peers w' !!! q = peers w !!! q) /\
  forallb (fun e => negb (is_wake e)) (trace_since w w') = true.
Proof.
  intros Hall. cbv zeta.
  unfold bus1_transaction_free, bus1_transaction_destroy, bind.
  destruct (destroy_entries X (entries t) w) as [[] w1] eqn:Hd.
  destruct (destroy_entries_unlinked _ _ _ Hall Hd) as (Hpe & tl & Htr & Hwk).
  rewrite release_files_spec.
  destruct w1 as [ps um nn tr]. cbn [trace peers] in *. subst tr.
  unfold emit, ret, when, set_trace.
  cbn [trace peers umem next_node on_heap set_entries].
  assert (Hf : forall slots : list nat, forallb (fun e => negb (is_wake e))
            (omap (fun i => EvFput <$> mjoin (files t !! i)) slots) = true).
  { induction slots as [|i slots IH]; [done|].
    cbn [omap list_omap]. change (list_omap ?f ?l) with (omap f l).
    by destruct (mjoin (files t !! i)). }
  destruct (on_heap t); cbn [snd peers]; (split; [done|]).
  all: erewrite trace_since_app
         by (cbn [trace]; rewrite <- !app_assoc; reflexivity).
  all: by rewrite !forallb_app, Hwk, Hf.
Qed.

(** ** Construction *)

Lemma set_files_files t : set_files (files t) t = t.
Proof. by destruct t. Qed.

Lemma import_files_loop_prefix (f : nat -> N) w tail : forall k a pre rest t,
  files t = pre ++ rest -> length pre = a -> (k <= length rest)%nat ->
  (forall i, (a <= i < a + k)%nat ->
     x_import_fd X (umem w) (ptr_fds (param t) + 4 * N.of_nat i) = inr (f i)) ->
  import_files_loop X t (seq a k ++ tail) w =
  import_files_loop X
    (set_files (pre ++ map (fun i => Some (f i)) (seq a k) ++ drop k rest) t)
    tail w.
Proof.
  induction k as [|k IH]; intros a pre rest t Hfs Hlen Hk Hok.
  - cbn [seq app map]. by rewrite drop_0, <- Hfs, set_files_files.
  - cbn [seq app import_files_loop]. rewrite (Hok a) by lia.
    destruct rest as [|r0 rest]; [cbn in Hk; lia|].
    rewrite (IH (S a) (pre ++ [Some (f a)]) rest).
    + cbn [set_files param files peer cred pid tid vecs length_vecs entries
           handles on_heap map].
      change (drop (S k) (r0 :: rest)) with (drop k rest).
      rewrite <- !app_assoc. reflexivity.
    + cbn [set_files files]. rewrite Hfs, insert_app_r_alt by lia.
      rewrite Hlen, Nat.sub_diag. cbn. by rewrite <- app_assoc.
    + rewrite length_app. cbn. lia.
    + cbn in Hk. lia.
    + intros i Hi. cbn [set_files param]. apply Hok. lia.
Qed.

Lemma import_files_loop_all (f : nat -> N) w k a pre rest t :
  files t = pre ++ rest -> length pre = a -> (k <= length rest)%nat ->
  (forall i, (a <= i < a + k)%nat ->
     x_import_fd X (umem w) (ptr_fds (param t) + 4 * N.of_nat i) = inr (f i)) ->
  import_files_loop X t (seq a k) w =
  ((0%Z, set_files (pre ++ map (fun i => Some (f i)) (seq a k) ++ drop k rest) t), w).
Proof.
  intros Hfs Hlen Hk Hok.
  pose proof (import_files_loop_prefix f w [] k a pre rest t Hfs Hlen Hk Hok) as H.
  rewrite app_nil_r in H. exact H.
Qed.

Lemma import_files_loop_any slots : forall t w,
  exists r t', import_files_loop X t slots w = ((r, t'), w) /\
    (r = 0 \/ r < 0)%Z /\
    param t' = param t /\ entries t' = entries t /\ on_heap t' = on_heap t /\
    peer t' = peer t.
Proof.
  induction slots as [|i slots IH]; intros t w.
  - exists 0%Z, t. split_and!; try done. by left.
  - cbn [import_files_loop].
    destruct (x_import_fd X (umem w) _) as [e|f].
    + exists (neg_errno e), t. split_and!; try done. by right.
    + destruct (IH (set_files (<[i:=Some f]> (files t)) t) w)
        as (r & t' & Hl & Hr & Hp & He & Hh & Hs).
      exists r, t'. by split_and!.
Qed.

Lemma free_without_entries t w :
  entries t = [] ->
  bus1_transaction_free X (Some t) w =
  (tt, set_trace (fun tr => tr ++ spec_release_files (files t) (n_fds (param t))
                    ++ [EvTransferDestroy]
                    ++ (if on_heap t then [EvKfree] else [])) w).
Proof.
  intros He. unfold bus1_transaction_free, bus1_transaction_destroy, bind.
  rewrite He. cbn [destroy_entries]. unfold ret at 1.
  rewrite release_files_spec. unfold spec_release_files.
  destruct w as [ps um nn tr].
  unfold emit, ret, when, set_trace.
  cbn [trace peers umem next_node on_heap set_entries].
  destruct (on_heap t); cbn [trace peers umem next_node];
    rewrite <- ?app_assoc; cbn [app]; by rewrite ?app_nil_r.
Qed.

(** Releasing the slots of a file array goes through its elements. *)
Lemma release_by_elements (fs rest : list (option N)) : forall pre,
  omap (fun i => EvFput <$> mjoin ((pre ++ fs ++ rest) !! i))
    (seq (length pre) (length fs))
  = omap (fun x => EvFput <$> x) fs.
Proof.
  induction fs as [|x fs IH]; intros pre; [done|].
  cbn [length seq omap list_omap app].
  change (list_omap ?f ?l) with (omap f l).
  rewrite list_lookup_middle by done. cbn [mjoin option_join].
  specialize (IH (pre ++ [x])). rewrite <- app_assoc in IH. cbn [app] in IH.
  rewrite length_app in IH. cbn [length] in IH. rewrite Nat.add_1_r in IH.
  by rewrite IH.
Qed.

Lemma release_of_imported (l : list N) :
  omap (fun x : option N => EvFput <$> x) (map Some l) = map EvFput l.
Proof. induction l as [|a l IH]; [done|]. cbn. by rewrite <- IH. Qed.

Lemma release_imported (l : list N) (rest : list (option N)) :
  spec_release_files (map Some l ++ rest) (N.of_nat (length l)) = map EvFput l.
Proof.
  unfold spec_release_files, upto. rewrite Nat2N.id.
  pose proof (release_by_elements (map Some l) rest []) as H.
  cbn [app length] in H. rewrite length_map in H.
  by rewrite H, release_of_imported.
Qed.

Lemma omap_seq_ext {A} (g h : nat -> option A) n : forall a,
  (forall i, (a <= i < a + n)%nat -> g i = h i) ->
  omap g (seq a n) = omap h (seq a n).
Proof.
  induction n as [|n IH]; intros a H; [done|].
  cbn [seq omap list_omap]. change (list_omap ?f ?l) with (omap f l).
  rewrite (H a) by lia. rewrite (IH (S a)) by (intros i Hi; apply H; lia).
  done.
Qed.

Lemma memset_null_length n : forall (l : list (option N)),
  length (memset_null n l) = (n `max` length l)%nat.
Proof.
  induction n as [|n IH]; intros l; [done|].
  cbn [memset_null length]. rewrite IH. destruct l; cbn [tail length]; lia.
Qed.

Lemma drop_memset_null n : forall k (l : list (option N)),
  (n <= k)%nat -> drop k (memset_null n l) = drop k l.
Proof.
  induction n as [|n IH]; intros k l Hk; [done|].
  destruct k as [|k]; [lia|]. cbn [memset_null].
  change (drop (S k) (None :: ?r)) with (drop k r).
  rewrite IH by lia. destruct l as [|x l]; cbn [tail]; [|done].
  by rewrite !drop_nil.
Qed.

(** After a failed import the teardown walks the whole array: the imported
    files first, then the slots behind them, of which those that [memset]
    did not clear still hold what the backing memory held. *)
Lemma release_after_failure (l : list N) nv (backing : list (option N)) j :
  spec_release_files (map Some l ++ drop (length l) (memset_null nv backing))
    (N.of_nat (length l + j)) =
  map EvFput l ++
  omap (fun i => if bool_decide (i < nv)%nat then None
                 else EvFput <$> mjoin (backing !! i))
    (seq (length l) j).
Proof.
  unfold spec_release_files, upto. rewrite Nat2N.id, seq_app, omap_app.
  cbn [Nat.add]. f_equal.
  - pose proof (release_by_elements (map Some l)
                  (drop (length l) (memset_null nv backing)) []) as H.
    cbn [app length] in H. rewrite length_map in H.
    by rewrite H, release_of_imported.
  - apply omap_seq_ext. intros i Hi.
    rewrite lookup_app_r by (rewrite length_map; lia).
    rewrite length_map, lookup_drop.
    replace (length l + (i - length l))%nat with i by lia.
    rewrite memset_null_lookup. by destruct (bool_decide (i < nv)%nat).
Qed.

Lemma nothing_stale nv (backing : list (option N)) k j :
  (k + j <= nv)%nat ->
  omap (fun i => if bool_decide (i < nv)%nat then None
                 else EvFput <$> mjoin (backing !! i))
    (seq k j) = [].
Proof.
  intros H. rewrite (omap_seq_ext _ (fun _ => None)).
  - clear. generalize (seq k j). intros l. by induction l.
  - intros i Hi. by rewrite bool_decide_true by lia.
Qed.

Lemma well_sized_clears p :
  well_sized X p -> size_mul (n_vecs p) 8 / 8 = n_vecs p.
Proof.
  intros [Hs _]. unfold size_mul.
  rewrite N.mod_small by lia. by apply N.div_mul.
Qed.

Ltac on_transaction :=
  cbv beta iota zeta;
  cbn [set_vecs set_files set_entries set_trace peer param cred pid tid vecs
       files length_vecs entries handles on_heap umem trace peers next_node
       fst snd status_of].

Lemma new_from_user_placed stack_buffer stack_size sender p current w backing :
  (if stack_size <? bus1_transaction_size X p
   then x_kmalloc X (bus1_transaction_size X p) else Some stack_buffer)
    = Some backing ->
  bus1_transaction_new_from_user X stack_buffer stack_size sender p current w =
  (let heap := stack_size <? bus1_transaction_size X p in
   do t <- bus1_transaction_init backing heap sender p current;
   do rt <- bus1_transaction_import_vecs X t;
   let '(r, t) := rt in
   if (r <? 0)%Z
   then run bus1_transaction_free X (Some t); ret (inl r)
   else
     do r <- bus1_transaction_import_handles X t;
     if (r <? 0)%Z
     then run bus1_transaction_free X (Some t); ret (inl r)
     else
       do rt <- bus1_transaction_import_files X t;
       let '(r, t) := rt in
       if (r <? 0)%Z
       then run bus1_transaction_free X (Some t); ret (inl r)
       else ret (inr t)) w.
Proof.
  intros Hplace. unfold bus1_transaction_new_from_user. cbv zeta.
  destruct (stack_size <? bus1_transaction_size X p).
  - by rewrite Hplace.
  - by injection Hplace as ->.
Qed.

(** X2: a construction in which every import succeeds, for parameters whose
    object is laid out as intended ([well_sized]): the transaction holds the
    imported vectors and one reference per descriptor, in order, the memory
    behind the file array is as it was, there are no entries, and the object
    lives on the heap exactly when its size exceeds the caller's buffer.
    Freeing it releases each imported file once, destroys the handle
    transfer, and calls [kfree] exactly when the object is on the heap. *)
Theorem new_from_user_success stack_buffer stack_size sender p current w
    backing vs len (f : nat -> N) :
  let heap := stack_size <? bus1_transaction_size X p in
  well_sized X p ->
  (if heap then x_kmalloc X (bus1_transaction_size X p) else Some stack_buffer)
    = Some backing ->
  (N.to_nat (n_fds p) <= length backing)%nat ->
  x_import_vecs X (umem w) (ptr_vecs p) (n_vecs p) = inr (vs, len) ->
  x_handle_transfer_import X (umem w) sender (ptr_handles p) (n_handles p) = None ->
  (forall i, (i < N.to_nat (n_fds p))%nat ->
     x_import_fd X (umem w) (ptr_fds p + 4 * N.of_nat i) = inr (f i)) ->
  let t := mk_transaction sender p (task_cred current) (task_tgid current)
             (task_pid current) vs
             (map (fun i => Some (f i)) (upto (n_fds p))
                ++ drop (N.to_nat (n_fds p)) backing)
             len [] (n_handles p) heap in
  let w1 := set_trace (fun tr => tr ++ [EvTransferInit (n_handles p)]) w in
  bus1_transaction_new_from_user X stack_buffer stack_size sender p current w
    = (inr t, w1) /\
  bus1_transaction_free X (Some t) w1 =
    (tt, set_trace (fun tr => tr ++ map (fun i => EvFput (f i)) (upto (n_fds p))
                      ++ [EvTransferDestroy]
                      ++ (if heap then [EvKfree] else [])) w1).
Proof.
  cbv zeta. intros Hwell Hplace Hlen Hvecs Hhandles Hfds. split.
  - rewrite (new_from_user_placed _ _ _ _ _ _ _ Hplace). cbv zeta.
    unfold bus1_transaction_init,
      bus1_transaction_import_vecs, bus1_transaction_import_handles,
      bus1_transaction_import_files.
    rewrite (well_sized_clears _ Hwell).
    unfold bind, emit, ret.
    destruct w as [ps um nn tr]. cbn [set_trace umem trace peers next_node] in *.
    on_transaction. rewrite Hvecs. on_transaction.
    change (0 <? 0)%Z with false. on_transaction.
    rewrite Hhandles. on_transaction.
    change (0 <? 0)%Z with false. on_transaction.
    unfold upto.
    rewrite (import_files_loop_all f _ (N.to_nat (n_fds p)) 0 []
               (memset_null (N.to_nat (n_vecs p)) backing)).
    + on_transaction. change (0 <? 0)%Z with false. on_transaction.
      rewrite drop_memset_null by (destruct Hwell; lia).
      reflexivity.
    + reflexivity.
    + reflexivity.
    + rewrite memset_null_length. lia.
    + intros i Hi. apply Hfds. lia.
  - rewrite free_without_entries by done.
    cbn [files param on_heap]. unfold set_trace. do 3 f_equal.
    pose proof (release_imported (map f (upto (n_fds p)))
                  (drop (N.to_nat (n_fds p)) backing)) as Hr.
    rewrite length_map in Hr. unfold upto in Hr at 2.
    rewrite length_seq, N2Nat.id in Hr.
    rewrite !map_map in Hr. by rewrite Hr.
Qed.

(** X3: a descriptor that cannot be imported, for parameters whose object
    is laid out as intended ([well_sized]): the construction fails with the
    error of that import, after releasing the files imported before it, once
    each and in order, and then every non-null word that the backing memory
    held in a slot behind them that [memset], clearing [n_vecs] slots, did
    not reach; the handle transfer is destroyed and the object is passed to
    [kfree] exactly when it was allocated.  When there are as many vectors
    as descriptors, no such word is left and only the imported files are
    released. *)
Theorem failed_fd_import_releases_the_imported stack_buffer stack_size sender
    p current w backing vs len (f : nat -> N) (k : nat) e :
  let heap := stack_size <? bus1_transaction_size X p in
  well_sized X p ->
  (if heap then x_kmalloc X (bus1_transaction_size X p) else Some stack_buffer)
    = Some backing ->
  (N.to_nat (n_fds p) <= length backing)%nat ->
  x_import_vecs X (umem w) (ptr_vecs p) (n_vecs p) = inr (vs, len) ->
  x_handle_transfer_import X (umem w) sender (ptr_handles p) (n_handles p) = None ->
  (k < N.to_nat (n_fds p))%nat ->
  (forall i, (i < k)%nat ->
     x_import_fd X (umem w) (ptr_fds p + 4 * N.of_nat i) = inr (f i)) ->
  x_import_fd X (umem w) (ptr_fds p + 4 * N.of_nat k) = inl e ->
  let stale :=
    omap (fun i => if bool_decide (i < N.to_nat (n_vecs p))%nat then None
                   else EvFput <$> mjoin (backing !! i))
      (seq k (N.to_nat (n_fds p) - k)) in
  bus1_transaction_new_from_user X stack_buffer stack_size sender p current w =
    (inl (neg_errno e),
     set_trace (fun tr => tr ++ [EvTransferInit (n_handles p)]
                  ++ map (fun i => EvFput (f i)) (seq 0 k)
                  ++ stale
                  ++ [EvTransferDestroy]
                  ++ (if heap then [EvKfree] else [])) w) /\
  (n_fds p <= n_vecs p -> stale = []).
Proof.
  cbv zeta. intros Hwell Hplace Hlen Hvecs Hhandles Hk Hfds Hbad. split.
  2:{ intros Hnv. apply nothing_stale. lia. }
  rewrite (new_from_user_placed _ _ _ _ _ _ _ Hplace). cbv zeta.
  unfold bus1_transaction_init,
    bus1_transaction_import_vecs, bus1_transaction_import_handles,
    bus1_transaction_import_files.
  rewrite (well_sized_clears _ Hwell).
  unfold bind, emit, ret.
  destruct w as [ps um nn tr]. cbn [set_trace umem trace peers next_node] in *.
  on_transaction. rewrite Hvecs. on_transaction.
  change (0 <? 0)%Z with false. on_transaction.
  rewrite Hhandles. on_transaction.
  change (0 <? 0)%Z with false. on_transaction.
  unfold upto.
  replace (N.to_nat (n_fds p)) with (k + S (N.to_nat (n_fds p) - S k))%nat at 1 by lia.
  rewrite seq_app. cbn [seq Nat.add].
  rewrite (import_files_loop_prefix f _ _ k 0 []
             (memset_null (N.to_nat (n_vecs p)) backing)).
  2: reflexivity. 2: reflexivity. 2: rewrite memset_null_length; lia.
  2: intros i Hi; apply Hfds; lia.
  cbn [import_files_loop]. on_transaction. rewrite Hbad.
  on_transaction. change (neg_errno e <? 0)%Z with true. on_transaction.
  rewrite free_without_entries by done.
  unfold set_trace, ret, neg_errno. on_transaction. do 2 f_equal.
  rewrite <- !app_assoc. cbn [app]. do 2 f_equal.
  pose proof (release_after_failure (map f (seq 0 k)) (N.to_nat (n_vecs p))
                backing (N.to_nat (n_fds p) - k)) as Hr.
  rewrite length_map, length_seq, !map_map in Hr.
  replace (N.of_nat (k + (N.to_nat (n_fds p) - k))) with (n_fds p) in Hr by lia.
  rewrite Hr, <- app_assoc. reflexivity.
Qed.

(** X1: for parameters whose object is laid out as intended ([well_sized]),
    construction changes no peer and no user memory and allocates no
    message.  A transaction it returns has no entries and is on the heap
    exactly when its size exceeds the caller's buffer.  A failure is
    reported as a negative code: either the allocation failed and nothing
    has happened, or the object was initialised and has been torn down
    again, its handle transfer destroyed and heap memory (never the caller's
    buffer) passed to [kfree]. *)
Theorem new_from_user_outcome stack_buffer stack_size sender p current w :
  well_sized X p ->
  let heap := stack_size <? bus1_transaction_size X p in
  let '(res, w') :=
    bus1_transaction_new_from_user X stack_buffer stack_size sender p current w in
  peers w' = peers w /\ umem w' = umem w /\ next_node w' = next_node w /\
  match res with
  | inr t =>
      trace w' = trace w ++ [EvTransferInit (n_handles p)] /\
      on_heap t = heap /\ entries t = [] /\ peer t = sender /\ param t = p
  | inl r =>
      (r < 0)%Z /\
      ((r = neg_errno ENOMEM /\ heap = true /\
        x_kmalloc X (bus1_transaction_size X p) = None /\ w' = w) \/
       exists fs,
         trace w' = trace w ++ [EvTransferInit (n_handles p)]
           ++ spec_release_files fs (n_fds p)
           ++ [EvTransferDestroy]
           ++ (if heap then [EvKfree] else []))
  end.
Proof.
  intros _. cbv zeta.
  destruct (if stack_size <? bus1_transaction_size X p
            then x_kmalloc X (bus1_transaction_size X p)
            else Some stack_buffer) as [backing|] eqn:Hplace.
  2:{ unfold bus1_transaction_new_from_user. cbv zeta.
      destruct (stack_size <? bus1_transaction_size X p); [|done].
      rewrite Hplace. unfold ret. split_and!; try done. left. by split_and!. }
  rewrite (new_from_user_placed _ _ _ _ _ _ _ Hplace). cbv zeta.
  unfold bus1_transaction_init,
    bus1_transaction_import_vecs, bus1_transaction_import_handles,
    bus1_transaction_import_files.
  unfold bind, emit, ret.
  destruct w as [ps um nn tr]. cbn [set_trace umem trace peers next_node] in *.
  on_transaction.
  assert (Hneg : forall e : errno, (neg_errno e < 0)%Z) by (intros e; reflexivity).
  destruct (x_import_vecs X um (ptr_vecs p) (n_vecs p)) as [e|[vs len]].
  - on_transaction. change (neg_errno e <? 0)%Z with true. on_transaction.
    rewrite free_without_entries by done. on_transaction.
    split_and!; try done. right. eexists. by rewrite <- app_assoc.
  - on_transaction. change (0 <? 0)%Z with false. on_transaction.
    destruct (x_handle_transfer_import X um sender (ptr_handles p) (n_handles p))
      as [e|].
    + on_transaction. change (neg_errno e <? 0)%Z with true. on_transaction.
      rewrite free_without_entries by done. on_transaction.
      split_and!; try done. right. eexists. by rewrite <- app_assoc.
    + on_transaction. change (0 <? 0)%Z with false. on_transaction.
      match goal with
      | |- context [import_files_loop X ?t ?sl ?w] =>
          destruct (import_files_loop_any sl t w)
            as (r & t1 & Hl & Hr & Hp & He & Hh & Hs)
      end.
      rewrite Hl. on_transaction. cbn [param entries on_heap peer] in Hp, He, Hh, Hs.
      destruct Hr as [->|Hr].
      * change (0 <? 0)%Z with false. on_transaction.
        split_and!; try done.
      * rewrite (proj2 (Z.ltb_lt r 0) Hr).
        rewrite free_without_entries by done. on_transaction.
        split_and!; try done. right. exists (files t1).
        rewrite Hp, Hh. by rewrite <- app_assoc.
Qed.

(** ** Wake-ups and ownership in a commit *)

Lemma wakes_as_due_app a : forall due b,
  wakes_as_due due a = true ->
  wakes_as_due due (a ++ b) = wakes_as_due None b.
Proof.
  induction a as [|e a IH]; intros due b H.
  - cbn in *. by destruct due.
  - cbn [app wakes_as_due] in *.
    destruct due as [p|], e; try discriminate H;
      try (apply andb_prop in H as [-> H]; cbn [andb]); by apply IH.
Qed.

Ltac by_equations :=
  repeat match goal with
  | Hb : ?b = _ |- context [?b] => rewrite Hb
  end.

Ltac wakes_ok :=
  repeat (cbn [wakes_as_due wake_due omap list_omap free_call app andb];
          rewrite ?N.eqb_refl; by_equations);
  try reflexivity.

Lemma consume_locked_events m d ts w r w' :
  consume_locked X m d ts w = (r, w') ->
  exists tl, trace w' = trace w ++ tl /\
    wakes_as_due None tl = true /\
    ((node_lookup (qnode m) (linked w' (raw_peer d)) = None /\
      omap free_call tl = [Some (qnode m)]) \/
     (is_Some (node_lookup (qnode m) (linked w' (raw_peer d))) /\
      omap free_call tl = [None])).
Proof.
  intros H. destruct w as [ps um nn tr].
  unfold consume_locked in H. unfold_m.
  repeat case_inner H; simplify_eq; unfold_m.
  all: flat_trace; eexists; (split; [reflexivity|]).
  all: peer_lookup; cbn [queue nodes].
  all: rewrite ?node_lookup_restage, ?node_lookup_delete, ?N.eqb_refl.
  all: split; [wakes_ok|].
  all: first [left; split; [reflexivity|reflexivity]
             |right; split; [by eexists|reflexivity]].
Qed.

Lemma consume_events t m d ts w r w' :
  ts <> 0 ->
  bus1_transaction_consume X t m d ts w = (r, w') ->
  exists tl, trace w' = trace w ++ tl /\
    wakes_as_due None tl = true /\
    ((node_lookup (qnode m) (linked w' (raw_peer d)) = None /\
      omap free_call tl = [Some (qnode m)]) \/
     (is_Some (node_lookup (qnode m) (linked w' (raw_peer d))) /\
      omap free_call tl = [None])).
Proof.
  intros Hts H. rewrite (consume_given _ _ _ _ _ Hts) in H.
  apply consume_locked_events in H as (tl & Htr & Hw & Hf).
  destruct w as [ps um nn tr]. unfold_m. rewrite Htr. flat_trace.
  eexists. split; [reflexivity|]. split; [exact Hw|exact Hf].
Qed.

Lemma stage_loop_events l : forall ts w t0 w1,
  commit_stage_loop X l ts w = (t0, w1) ->
  exists tl, trace w1 = trace w ++ tl /\
    wakes_as_due None tl = true /\ omap free_call tl = [].
Proof.
  induction l as [|[m d] l IH]; intros ts w t0 w1 H.
  - cbn in H. unfold ret in H. simplify_eq. exists []. by rewrite app_nil_r.
  - cbn [commit_stage_loop] in H.
    destruct w as [ps um nn tr]. unfold_m. norm_in H.
    repeat case_inner H.
    all: apply IH in H as (tl & Htr & Hw & Hf); unfold_m; rewrite Htr; flat_trace.
    all: eexists; (split; [reflexivity|]); wakes_ok; by split.
Qed.

Lemma sync_loop_events l : forall ts w w1,
  commit_sync_loop l ts w = (tt, w1) ->
  exists tl, trace w1 = trace w ++ tl /\
    wakes_as_due None tl = true /\ omap free_call tl = [].
Proof.
  induction l as [|[m d] l IH]; intros ts w w1 H.
  - cbn in H. unfold ret in H. simplify_eq. exists []. by rewrite app_nil_r.
  - cbn [commit_sync_loop] in H.
    destruct w as [ps um nn tr]. unfold_m. norm_in H.
    apply IH in H as (tl & Htr & Hw & Hf); unfold_m; rewrite Htr; flat_trace.
    eexists; (split; [reflexivity|]); wakes_ok; by split.
Qed.

Lemma consume_loop_events t l : forall ts res w res' w',
  ts <> 0 ->
  commit_consume_loop X t l ts res w = (res', w') ->
  exists tl, trace w' = trace w ++ tl /\
    wakes_as_due None tl = true /\
    length (omap free_call tl) = length l /\
    (forall k, Some k ∈ omap free_call tl -> k ∈ map (fun e => qnode (fst e)) l) /\
    (NoDup (map (fun e => qnode (fst e)) l) ->
     forall m d, (m, d) ∈ l ->
       node_lookup (qnode m) (linked w' (raw_peer d)) = None <->
       Some (qnode m) ∈ omap free_call tl).
Proof.
  induction l as [|[m d] l IH]; intros ts res w res' w' Hts H.
  - cbn in H. unfold ret in H. simplify_eq. exists [].
    rewrite app_nil_r. split_and!; try done.
    + by intros k ?%elem_of_nil.
    + by intros _ m d ?%elem_of_nil.
  - cbn [commit_consume_loop] in H. unfold bind at 1 in H.
    destruct (bus1_transaction_consume X t m d ts w) as [r w1] eqn:Hc.
    destruct (consume_events _ _ _ _ _ _ _ Hts Hc) as (tl1 & Htr1 & Hw1 & Hf1).
    destruct (IH _ _ _ _ _ Hts H) as (tl2 & Htr2 & Hw2 & Hlen2 & Hin2 & Hiff2).
    exists (tl1 ++ tl2). rewrite Htr2, Htr1, app_assoc. split; [done|].
    rewrite (wakes_as_due_app _ _ _ Hw1), omap_app. split; [done|].
    assert (Hone : exists x, omap free_call tl1 = [x] /\
              (x = Some (qnode m) \/ x = None)).
    { destruct Hf1 as [[_ ->]|[_ ->]]; eexists; (split; [done|]); auto. }
    destruct Hone as (x & Hx & Hxv). rewrite Hx.
    cbn [app length map fst]. split_and!.
    + by rewrite Hlen2.
    + intros k [Hk|Hk]%elem_of_cons.
      * destruct Hxv as [->| ->]; [|done]. injection Hk as ->.
        apply elem_of_cons. by left.
      * apply elem_of_cons. right. by apply Hin2.
    + intros [Hnin Hnd]%NoDup_cons m0 d0 [Heq|Hin]%elem_of_cons.
      * injection Heq as -> ->.
        rewrite (consume_loop_frame _ _ _ _ _ _ _ _ _ Hts H).
        2:{ intros (e & He & Hin)%list_elem_of_fmap. apply Hnin.
            apply list_elem_of_fmap. exists e. split; [|done].
            unfold entry_key in He. by injection He. }
        rewrite Hx in Hf1. destruct Hf1 as [[Hl Hf]|[Hl Hf]].
        -- split; [intros _; apply elem_of_cons; left; congruence|done].
        -- split.
           ++ intros Hn. rewrite Hn in Hl. by destruct Hl.
           ++ intros [Hk|Hk]%elem_of_cons; [congruence|].
              by apply Hin2 in Hk.
      * rewrite (Hiff2 Hnd m0 d0 Hin).
        assert (Hne : qnode m0 <> qnode m).
        { intros Hq. apply Hnin. rewrite <- Hq.
          apply list_elem_of_fmap. by exists (m0, d0). }
        split.
        -- intros Hk. apply elem_of_cons. by right.
        -- intros [Hk|Hk]%elem_of_cons; [|done].
           destruct Hxv as [->| ->]; congruence.
Qed.

Lemma commit_events t w res w' :
  bus1_transaction_commit X t w = (res, w') ->
  exists tl, trace w' = trace w ++ tl /\
    wakes_as_due None tl = true /\
    length (omap free_call tl) = length (entries t) /\
    (NoDup (map (fun e => qnode (fst e)) (entries t)) ->
     forall m d, (m, d) ∈ entries t ->
       node_lookup (qnode m) (linked w' (raw_peer d)) = None <->
       Some (qnode m) ∈ omap free_call tl).
Proof.
  destruct (entries t) as [|e l] eqn:He.
  - unfold bus1_transaction_commit. rewrite He. unfold ret. intros H.
    simplify_eq. exists []. rewrite app_nil_r. split_and!; try done.
    by intros _ m d ?%elem_of_nil.
  - rewrite (commit_unfold _ _ _ _ He).
    destruct (commit_staged X t (e :: l) w) as [t0 w1] eqn:H1.
    destruct (commit_sync_loop (e :: l) t0 w1) as [[] w2] eqn:H2.
    destruct (commit_consume_loop X (set_entries [] t) (e :: l) t0 0%Z w2)
      as [r w3] eqn:H3.
    intros H. simplify_eq.
    pose proof (commit_staged_spec _ _ _ (clk w) _ _ (fun _ => eq_refl) H1)
      as (_ & _ & _ & _ & _ & _ & Hnz & _).
    unfold commit_staged in H1.
    destruct w as [ps um nn tr]. unfold_m. norm_in H1.
    apply stage_loop_events in H1 as (tl1 & Htr1 & Hw1 & Hf1).
    apply sync_loop_events in H2 as (tl2 & Htr2 & Hw2 & Hf2).
    apply (consume_loop_events _ _ _ _ _ _ _ Hnz) in H3
      as (tl3 & Htr3 & Hw3 & Hlen3 & _ & Hiff3).
    rewrite Htr3, Htr2, Htr1. unfold_m. flat_trace.
    eexists. split; [reflexivity|].
    cbn [wakes_as_due wake_due omap list_omap free_call].
    change (list_omap ?f ?l) with (omap f l).
    rewrite (wakes_as_due_app _ _ _ Hw1), (wakes_as_due_app _ _ _ Hw2).
    rewrite !omap_app, Hf1, Hf2. cbn [app].
    split_and!; done.
Qed.

(** X14: wake-ups in a commit are exact: a destination is woken right after
    a staging that changed the front of its queue and right after the first
    drop counted on it, and at no other point. *)
Theorem commit_wakes_as_due t w :
  wakes_as_due None (trace_since w (snd (bus1_transaction_commit X t w))) = true.
Proof.
  destruct (bus1_transaction_commit X t w) as [res w'] eqn:H.
  apply commit_events in H as (tl & Htr & Hw & _).
  cbn [snd]. by rewrite (trace_since_app _ _ _ Htr).
Qed.

(** X15: a commit leaves each message with exactly one owner:
    [bus1_message_free] is called once per entry, and (the entries being
    distinct messages) with the message itself exactly for the entries that
    are not linked on their destination queue afterwards; for a linked entry
    the call gets NULL. *)
Theorem commit_delivers_or_frees t w :
  NoDup (map (fun e => qnode (fst e)) (entries t)) ->
  let w' := snd (bus1_transaction_commit X t w) in
  length (omap free_call (trace_since w w')) = length (entries t) /\
  Forall (fun e =>
            node_lookup (qnode (fst e)) (linked w' (raw_peer (snd e))) = None <->
            EvMessageFree (Some (qnode (fst e))) ∈ trace_since w w')
    (entries t).
Proof.
  intros Hnd. cbv zeta.
  destruct (bus1_transaction_commit X t w) as [res w'] eqn:H.
  apply commit_events in H as (tl & Htr & _ & Hlen & Hiff).
  cbn [snd]. rewrite (trace_since_app _ _ _ Htr). split; [done|].
  apply Forall_forall. intros [m d] He. cbn [fst snd].
  rewrite (Hiff Hnd m d He). rewrite list_elem_of_omap. split.
  - intros (ev & Hin & Hev). destruct ev; try discriminate Hev.
    cbn in Hev. by simplify_eq.
  - intros Hin. by exists (EvMessageFree (Some (qnode m))).
Qed.

(** ** Order and report *)

Lemma commit_staged_order t l w t0 w1 :
  commit_staged X t l w = (t0, w1) ->
  clk w (peer t) < t0 /\
  Forall (fun e => clk w (raw_peer (snd e)) < t0) l.
Proof.
  unfold commit_staged. intros H.
  destruct w as [ps um nn tr]. unfold_m. norm_in H.
  apply stage_loop_order in H as (Hle & _ & Hall & _).
  unfold_m. split; [lia|].
  eapply Forall_impl; [exact Hall|]. cbn beta. intros e He.
  eapply N.le_lt_trans; [|exact He].
  destruct (decide (raw_peer (snd e) = peer t)) as [Heq|Hne];
    [rewrite Heq|]; peer_lookup; cbn [queue clock]; lia.
Qed.

Lemma commit_reaches t w e :
  e ∈ entries t ->
  fst (commit_staged X t (entries t) w)
  <= clk (snd (bus1_transaction_commit X t w)) (raw_peer (snd e)).
Proof.
  intros He.
  destruct (entries t) as [|e0 l] eqn:Hl; [by apply elem_of_nil in He|].
  rewrite (commit_unfold _ _ _ _ Hl).
  destruct (commit_staged X t (e0 :: l) w) as [t0 w1] eqn:H1.
  destruct (commit_sync_loop (e0 :: l) t0 w1) as [[] w2] eqn:H2.
  destruct (commit_consume_loop X (set_entries [] t) (e0 :: l) t0 0%Z w2)
    as [res w3] eqn:H3.
  cbn [fst snd].
  pose proof (commit_staged_spec _ _ _ (clk w) _ _ (fun _ => eq_refl) H1)
    as (_ & _ & _ & _ & _ & _ & Hnz & _).
  pose proof (sync_loop_spec _ _ _ (clk w1) _ (fun _ => eq_refl) H2)
    as (_ & _ & _ & _ & Hclk2 & _).
  pose proof (consume_loop_spec _ _ _ _ _ _ _ Hnz H3)
    as (_ & _ & _ & _ & _ & _ & _ & Hclk3 & _).
  rewrite Hclk3, Hclk2. by apply sync_loop_reaches.
Qed.

(** X22: commits are ordered at the destinations they share: when a commit
    is followed by another one (of any sender), the timestamp of the second
    is strictly greater than the timestamp of the first if some peer is a
    destination of both. *)
Theorem commits_sharing_a_destination_are_ordered t1 t2 w :
  let w1 := snd (bus1_transaction_commit X t1 w) in
  let ta := fst (commit_staged X t1 (entries t1) w) in
  let tb := fst (commit_staged X t2 (entries t2) w1) in
  Forall (fun e1 =>
    Forall (fun e2 => raw_peer (snd e1) = raw_peer (snd e2) -> ta < tb)
      (entries t2))
    (entries t1).
Proof.
  cbv zeta. apply Forall_forall. intros e1 He1.
  pose proof (commit_reaches t1 w e1 He1) as Hreach.
  destruct (commit_staged X t2 (entries t2)
              (snd (bus1_transaction_commit X t1 w))) as [tb w2] eqn:H2.
  apply commit_staged_order in H2 as [_ Hall].
  cbn [fst]. eapply Forall_impl; [exact Hall|]. cbn beta.
  intros e2 He2 Heq. rewrite <- Heq in He2. lia.
Qed.

Lemma consume_reports t m d ts w r w' s a :
  ts <> 0 -> slice m = Some s -> idp d = Some a ->
  is_Some (node_lookup (qnode m) (linked w (raw_peer d))) ->
  bus1_transaction_consume X t m d ts w = (r, w') ->
  let id := x_handle_dest_export X d (peers w !!! raw_peer d) ts in
  exists tl, trace w' = trace w ++ tl /\
    EvPutUser a id (writable w a) ∈ tl /\
    node_lookup (qnode m) (linked w' (raw_peer d)) =
      if id =? BUS1_HANDLE_INVALID X then None
      else Some (ts, set_destination id m).
Proof.
  intros Hts Hs Ha Hq H. apply is_queued_lookup in Hq.
  destruct w as [ps um nn tr]. unfold linked in Hq. cbn [peers] in Hq.
  cbv zeta.
  consume_cases H Hts; try congruence.
  all: flat_trace; eexists; (split; [reflexivity|]).
  all: peer_lookup; cbn [queue nodes].
  all: rewrite ?node_lookup_restage, ?node_lookup_delete, ?N.eqb_refl.
  all: simplify_eq.
  all: repeat match goal with
       | Hx : _ !! _ = _ |- _ => rewrite Hx
       | Hx : u_writable _ = _ |- _ => rewrite Hx
       end.
  all: split; [in_trace|].
  all: match goal with
       | Hn : negb ?b = _ |- _ => destruct b; cbn in Hn; try discriminate
       end; done.
Qed.

Lemma consume_loop_reports t l : forall ts res w res' w' m d s a,
  ts <> 0 ->
  commit_consume_loop X t l ts res w = (res', w') ->
  NoDup (map entry_key l) ->
  (m, d) ∈ l -> slice m = Some s -> idp d = Some a ->
  is_Some (node_lookup (qnode m) (linked w (raw_peer d))) ->
  exists tl id,
    trace w' = trace w ++ tl /\
    EvPutUser a id (writable w a) ∈ tl /\
    node_lookup (qnode m) (linked w' (raw_peer d)) =
      if id =? BUS1_HANDLE_INVALID X then None
      else Some (ts, set_destination id m).
Proof.
  induction l as [|[m' d'] l IH];
    intros ts res w res' w' m d s a Hts H Hnd He Hs Ha Hq.
  - by apply elem_of_nil in He.
  - cbn [commit_consume_loop] in H. unfold bind at 1 in H.
    destruct (bus1_transaction_consume X t m' d' ts w) as [r w1] eqn:Hc.
    pose proof (consume_loop_spec _ _ _ _ _ _ _ Hts H) as (tl2 & Htr2 & _).
    cbn [map] in Hnd. apply NoDup_cons in Hnd as [Hnin Hnd].
    unfold entry_key at 1 in Hnin. cbn [fst snd] in Hnin.
    apply elem_of_cons in He as [Heq|He].
    + injection Heq as <- <-.
      destruct (consume_reports _ _ _ _ _ _ _ _ _ Hts Hs Ha Hq Hc)
        as (tl1 & Htr1 & Hin & Hlk).
      exists (tl1 ++ tl2), (x_handle_dest_export X d (peers w !!! raw_peer d) ts).
      rewrite Htr2, Htr1, app_assoc. split_and!; [done|in_trace|].
      by rewrite (consume_loop_frame _ _ _ _ _ _ _ _ _ Hts H Hnin).
    + destruct (consume_trace _ _ _ _ _ _ _ Hts Hc) as (tl1 & Htr1 & _).
      destruct (consume_frame _ _ _ _ _ _ _ Hts Hc) as (_ & Hfr & Hwr & _).
      destruct (IH _ _ _ _ _ _ _ _ _ Hts H Hnd He Hs Ha) as (tl & id & Htr & Hin & Hlk).
      { rewrite Hfr; [done|].
        destruct (decide (raw_peer d = raw_peer d')) as [Hp|?]; [right|by left].
        intros Hn. apply Hnin.
        change (qnode m', raw_peer d') with (entry_key (m', d')).
        replace (entry_key (m', d')) with (entry_key (m, d))
          by (unfold entry_key; cbn; congruence).
        by apply list_elem_of_fmap_2. }
      rewrite Htr2 in Htr. apply app_inv_head in Htr. subst tl.
      exists (EvConsume (qnode m') ts :: tl1 ++ tl2), id.
      rewrite Htr2, Htr1. flat_trace. rewrite <- Hwr.
      split_and!; [done|in_trace|done].
Qed.

(** X23: the sender is told the id the message is delivered under: for every
    entry with a slice and an id pointer (the entries being distinct), the
    commit writes one id to that pointer, and the entry is then linked on its
    destination at the commit timestamp with exactly this id in the message
    header, or linked nowhere when the id written is the invalid one. *)
Theorem commit_reports_the_delivered_id t w :
  NoDup (map entry_key (entries t)) ->
  let t0 := fst (commit_staged X t (entries t) w) in
  let w' := snd (bus1_transaction_commit X t w) in
  Forall (fun e =>
    match slice (fst e), idp (snd e) with
    | Some _, Some a =>
        exists id,
          EvPutUser a id (writable w a) ∈ trace_since w w' /\
          node_lookup (qnode (fst e)) (linked w' (raw_peer (snd e))) =
            if id =? BUS1_HANDLE_INVALID X then None
            else Some (t0, set_destination id (fst e))
    | _, _ => True
    end) (entries t).
Proof.
  intros Hnd. cbv zeta.
  apply Forall_forall. intros [m d] He. cbn [fst snd].
  destruct (slice m) as [s|] eqn:Hs; [|done].
  destruct (idp d) as [a|] eqn:Ha; [|done].
  destruct (entries t) as [|e0 l] eqn:Hl; [by apply elem_of_nil in He|].
  rewrite (commit_unfold _ _ _ _ Hl).
  destruct (commit_staged X t (e0 :: l) w) as [t0 w1] eqn:H1.
  destruct (commit_sync_loop (e0 :: l) t0 w1) as [[] w2] eqn:H2.
  destruct (commit_consume_loop X (set_entries [] t) (e0 :: l) t0 0%Z w2)
    as [res w3] eqn:H3.
  cbn [fst snd].
  pose proof (commit_staged_spec _ _ _ (clk w) _ _ (fun _ => eq_refl) H1)
    as (tl1 & Htr1 & _ & _ & _ & _ & Hnz & Hum1 & _).
  pose proof (sync_loop_spec _ _ _ (clk w1) _ (fun _ => eq_refl) H2)
    as (tl2 & Htr2 & _ & _ & _ & Hln2 & Hum2 & _).
  destruct (consume_loop_reports _ _ _ _ _ _ _ _ _ _ _ Hnz H3 Hnd He Hs Ha)
    as (tl3 & id & Htr3 & Hin & Hlk).
  { rewrite Hln2. by apply (commit_staged_links _ _ _ _ _ (m, d) H1). }
  exists id. split; [|done].
  rewrite (trace_since_app _ _ (tl1 ++ tl2 ++ tl3))
    by (by rewrite Htr3, Htr2, Htr1, <- !app_assoc).
  assert (Hw : writable w2 a = writable w a)
    by (unfold writable; by rewrite Hum2, Hum1).
  rewrite Hw in Hin. apply elem_of_app. right. apply elem_of_app. by right.
Qed.

(** ** Fault latching *)

Lemma protocol_entries step c sender l :
  omap staged_entry (fst (spec_commit_protocol step c sender l)) = l /\
  omap synced_peer (fst (spec_commit_protocol step c sender l)) =
    map snd l ++ map snd l.
Proof.
  unfold spec_commit_protocol. cbn [spec_tick].
  destruct (spec_staging_pass _ _ _ l) as [s1 [t0 c1]] eqn:Hs1.
  destruct (spec_sync_pass c1 t0 l) as [s2 c2] eqn:Hs2.
  cbn [fst snd]. cbn [omap list_omap staged_entry synced_peer].
  change (list_omap ?f ?l) with (omap f l).
  rewrite !omap_app.
  pose proof (staging_pass_entries step l (set_clock c sender (c sender + step))
                (c sender + step)) as [Ha Hb].
  pose proof (sync_pass_entries l c1 t0) as [Hc Hd].
  rewrite Hs1 in Ha, Hb. rewrite Hs2 in Hc, Hd. cbn [fst] in *.
  by rewrite Ha, Hb, Hc, Hd, app_nil_r.
Qed.

Lemma consume_loop_delivers t l : forall ts res w res' w' m d s,
  ts <> 0 ->
  commit_consume_loop X t l ts res w = (res', w') ->
  NoDup (map entry_key l) ->
  (m, d) ∈ l -> slice m = Some s ->
  is_Some (node_lookup (qnode m) (linked w (raw_peer d))) ->
  exists tl id,
    trace w' = trace w ++ tl /\
    EvExport (raw_peer d) ts id ∈ tl /\
    (forall a, idp d = Some a -> EvPutUser a id (writable w a) ∈ tl) /\
    node_lookup (qnode m) (linked w' (raw_peer d)) =
      if id =? BUS1_HANDLE_INVALID X then None
      else Some (ts, set_destination id m).
Proof.
  induction l as [|[m' d'] l IH];
    intros ts res w res' w' m d s Hts H Hnd He Hs Hq.
  - by apply elem_of_nil in He.
  - cbn [commit_consume_loop] in H. unfold bind at 1 in H.
    destruct (bus1_transaction_consume X t m' d' ts w) as [r w1] eqn:Hc.
    pose proof (consume_loop_spec _ _ _ _ _ _ _ Hts H) as (tl2 & Htr2 & _).
    cbn [map] in Hnd. apply NoDup_cons in Hnd as [Hnin Hnd].
    unfold entry_key at 1 in Hnin. cbn [fst snd] in Hnin.
    apply elem_of_cons in He as [Heq|He].
    + injection Heq as <- <-.
      destruct (consume_export _ _ _ _ _ _ _ _ Hts Hs Hq Hc)
        as (Hid & tl1 & Htr1 & Hin).
      exists (tl1 ++ tl2), (x_handle_dest_export X d (peers w !!! raw_peer d) ts).
      rewrite Htr2, Htr1, app_assoc. split_and!; [done|in_trace| |].
      * intros a Ha.
        destruct (consume_reports _ _ _ _ _ _ _ _ _ Hts Hs Ha Hq Hc)
          as (tl1' & Htr1' & Hput & _).
        rewrite Htr1 in Htr1'. apply app_inv_head in Htr1'. subst tl1'.
        in_trace.
      * rewrite (consume_loop_frame _ _ _ _ _ _ _ _ _ Hts H Hnin).
        rewrite (consume_own_node _ _ _ _ _ _ _ Hts Hc), Hid.
        by destruct (_ =? _).
    + destruct (consume_trace _ _ _ _ _ _ _ Hts Hc) as (tl1 & Htr1 & _).
      destruct (consume_frame _ _ _ _ _ _ _ Hts Hc) as (_ & Hfr & Hwr & _).
      destruct (IH _ _ _ _ _ _ _ _ Hts H Hnd He Hs)
        as (tl & id & Htr & Hin & Hput & Hlk).
      { rewrite Hfr; [done|].
        destruct (decide (raw_peer d = raw_peer d')) as [Hp|?]; [right|by left].
        intros Hn. apply Hnin.
        change (qnode m', raw_peer d') with (entry_key (m', d')).
        replace (entry_key (m', d')) with (entry_key (m, d))
          by (unfold entry_key; cbn; congruence).
        by apply list_elem_of_fmap_2. }
      rewrite Htr2 in Htr. apply app_inv_head in Htr. subst tl.
      exists (EvConsume (qnode m') ts :: tl1 ++ tl2), id.
      rewrite Htr2, Htr1. flat_trace. split_and!; [done|in_trace| |done].
      intros a Ha. specialize (Hput a Ha). rewrite Hwr in Hput. in_trace.
Qed.

(** C2: commit returns [-EFAULT] exactly when some write-back to user
    memory faulted and 0 otherwise, whatever else happened to an entry; all
    entries are staged, all destinations synced in both passes, and every
    entry is consumed to the end of [bus1_transaction_consume], at the one
    timestamp [t0] the staging pass ends with.  No fault takes anything
    away from another entry, or from the faulting one: every stage of the
    commit pass is at [t0], [bus1_message_free] is called once per entry,
    every drop is counted, and (the entries being distinct messages) every
    entry with a slice has its id exported and written to its id pointer,
    and is linked at its destination at [t0] under that id (or linked
    nowhere when the id is the invalid one), whether or not the write
    succeeds; an entry without a slice has the invalid id written and stays
    unlinked. *)
Theorem commit_latches_faults t w :
  exists res w' pre post,
    bus1_transaction_commit X t w = ((res, set_entries [] t), w') /\
    trace w' = trace w ++ pre ++ post /\
    quiet pre /\
    omap staged_entry (omap protocol_step pre) = map entry_key (entries t) /\
    omap synced_peer (omap protocol_step pre) =
      map snd (map entry_key (entries t)) ++ map snd (map entry_key (entries t)) /\
    map fst (omap consume_call post) = map (fun e => qnode (fst e)) (entries t) /\
    omap destroy_call post = map (fun e => Some (raw_peer (snd e))) (entries t) /\
    res = (if existsb is_fault (pre ++ post) then neg_errno EFAULT else 0%Z) /\
    let t0 := fst (commit_staged X t (entries t) w) in
    omap consume_call post = map (fun e => (qnode (fst e), t0)) (entries t) /\
    Forall (fun c => snd c = t0) (omap stage_call post) /\
    length (omap free_call post) = length (entries t) /\
    (forall p, dropped w' p =
       dropped w p + N.of_nat (length (List.filter (sliceless_for p) (entries t)))) /\
    (NoDup (map entry_key (entries t)) ->
     Forall (fun e =>
       match slice (fst e) with
       | Some _ =>
           exists id,
             EvExport (raw_peer (snd e)) t0 id ∈ post /\
             (forall a, idp (snd e) = Some a ->
                EvPutUser a id (writable w a) ∈ post) /\
             node_lookup (qnode (fst e)) (linked w' (raw_peer (snd e))) =
               if id =? BUS1_HANDLE_INVALID X then None
               else Some (t0, set_destination id (fst e))
       | None =>
           (forall a, idp (snd e) = Some a ->
              EvPutUser a (BUS1_HANDLE_INVALID X) (writable w a) ∈ post) /\
           node_lookup (qnode (fst e)) (linked w' (raw_peer (snd e))) = None
       end) (entries t)).
Proof.
  destruct (entries t) as [|e l] eqn:He.
  - exists 0%Z, w, [], []. unfold bus1_transaction_commit. rewrite He.
    unfold ret. rewrite app_nil_r. cbv zeta. split_and!; try done.
    + destruct t; cbn in *; by subst.
    + intros p. cbn. lia.
  - rewrite (commit_unfold _ _ _ _ He).
    destruct (commit_staged X t (e :: l) w) as [t0 w1] eqn:H1.
    destruct (commit_sync_loop (e :: l) t0 w1) as [[] w2] eqn:H2.
    destruct (commit_consume_loop X (set_entries [] t) (e :: l) t0 0%Z w2)
      as [res w3] eqn:H3.
    pose proof (commit_staged_spec _ _ _ (clk w) _ _ (fun _ => eq_refl) H1)
      as (tl1 & Htr1 & Hq1 & Hp1 & Ht0 & Hclk1 & Hnz & Hum1 & Hnn1 & Hdr1).
    cbv zeta in Hp1, Ht0, Hclk1.
    pose proof (sync_loop_spec _ _ _ _ _ Hclk1 H2)
      as (tl2 & Htr2 & Hq2 & Hp2 & Hclk2 & Hln2 & Hum2 & Hnn2 & Hdr2).
    pose proof (consume_loop_spec _ _ _ _ _ _ _ Hnz H3)
      as (tl3 & Htr3 & Hcc & _ & Hst & Hds & Hres & _ & _ & Hdr3 & _).
    pose proof (consume_loop_events _ _ _ _ _ _ _ Hnz H3)
      as (tl3' & Htr3' & _ & Hlen & _).
    rewrite Htr3 in Htr3'. apply app_inv_head in Htr3'. subst tl3'.
    assert (Hw : forall a, writable w2 a = writable w a)
      by (intros a; unfold writable; by rewrite Hum2, Hum1).
    assert (Hpre : omap protocol_step (tl1 ++ tl2) =
              fst (spec_commit_protocol (Npos (x_tick_step X)) (clk w) (peer t)
                     (map entry_key (e :: l)))).
    { rewrite omap_app, Hp1, Hp2. unfold spec_commit_protocol.
      cbn [spec_tick] in *.
      destruct (spec_staging_pass _ _ _ (map entry_key (e :: l)))
        as [s1 [t0' c1]] eqn:Hs1.
      cbn [fst snd] in *. subst t0'.
      by destruct (spec_sync_pass c1 t0 (map entry_key (e :: l))). }
    destruct (protocol_entries (Npos (x_tick_step X)) (clk w) (peer t)
                (map entry_key (e :: l))) as [Hse1 Hse2].
    rewrite <- Hpre in Hse1, Hse2.
    exists res, w3, (tl1 ++ tl2), tl3. cbv zeta. cbn [fst].
    rewrite Hcc, Hds.
    split_and!; try done.
    + by rewrite Htr3, Htr2, Htr1, <- !app_assoc.
    + by apply quiet_app.
    + by rewrite map_map.
    + rewrite Hres, existsb_app, (quiet_no_fault _ (quiet_app _ _ Hq1 Hq2)).
      done.
    + intros p. by rewrite Hdr3, Hdr2, Hdr1.
    + intros Hnd. apply Forall_forall. intros [m d] Hin. cbn [fst snd].
      destruct (slice m) as [s|] eqn:Hs.
      * destruct (consume_loop_delivers _ _ _ _ _ _ _ _ _ _ Hnz H3 Hnd Hin Hs)
          as (tl' & id & Htr' & Hex & Hput & Hlk).
        { rewrite Hln2. by apply (commit_staged_links _ _ _ _ _ (m, d) H1). }
        rewrite Htr3 in Htr'. apply app_inv_head in Htr'. subst tl'.
        exists id. split_and!; [done| |done].
        intros a Ha. rewrite <- Hw. by apply Hput.
      * split.
        -- intros a Ha.
           destruct (consume_loop_sliceless _ _ _ _ _ _ _ _ _ _ Hnz H3 Hin Hs Ha)
             as (tl' & Htr' & Hput).
           rewrite Htr3 in Htr'. apply app_inv_head in Htr'. subst tl'.
           by rewrite <- Hw.
        -- by eapply consume_loop_sliceless_unlinked.
Qed.

End Facts.

(** * The properties on the concrete bus *)

Import Scenario.

Lemma machine_queues_empty p : linked machine p = [].
Proof.
  unfold linked, machine. cbn [peers].
  destruct (decide (p = 1)) as [->|?]; [done|].
  destruct (decide (p = 2)) as [->|?]; [done|].
  destruct (decide (p = 3)) as [->|?]; [done|].
  destruct (decide (p = 4)) as [->|?]; [done|].
  rewrite !lookup_total_insert_ne by done. by rewrite lookup_total_empty.
Qed.

Lemma two_instantiated_entries :
  entries (fst two_instantiated) =
  [(msg 1 (Some 7) (1000, 1000, 77, 78), mk_dest 3 (Some 1016));
   (msg 0 (Some 7) (1000, 1000, 77, 78), mk_dest 2 (Some 1000))].
Proof. by vm_compute. Qed.

Lemma two_instantiated_peers : peers (snd two_instantiated) = peers machine.
Proof.
  unfold two_instantiated.
  destruct (bus1_transaction_instantiate_for_id bus (send 0) 1000 machine)
    as [[r1 t1] w1] eqn:H1.
  destruct (bus1_transaction_instantiate_for_id bus t1 1016 w1)
    as [[r2 t2] w2] eqn:H2.
  destruct (instantiate_for_id_quiet _ _ _ _ _ _ H1) as (Hp1 & _).
  destruct (instantiate_for_id_quiet _ _ _ _ _ _ H2) as (Hp2 & _).
  cbn [snd]. congruence.
Qed.

Lemma reset_unlinks_node_1 t0 w1 w2 :
  commit_staged bus (fst two_instantiated) (entries (fst two_instantiated))
    (snd two_instantiated) = (t0, w1) ->
  commit_sync_loop (entries (fst two_instantiated)) t0 w1 = (tt, w2) ->
  forall p, node_lookup 1 (linked (reset_peer_3 w2) p) = None.
Proof.
  intros H1 H2 p.
  destruct (decide (p = 3)) as [->|Hp].
  - unfold linked, reset_peer_3, set_peers. cbn [peers].
    by rewrite lookup_total_insert_eq.
  - unfold linked, reset_peer_3, set_peers. cbn [peers].
    rewrite lookup_total_insert_ne by done.
    change (nodes (queue (peers w2 !!! p))) with (linked w2 p).
    destruct (sync_loop_spec _ _ _ (clk w1) _ (fun _ => eq_refl) H2)
      as (_ & _ & _ & _ & _ & Hl & _).
    rewrite Hl, (commit_staged_frame _ _ _ _ _ _ p 1 H1).
    + unfold linked at 1. rewrite two_instantiated_peers.
      change (nodes (queue (peers machine !!! p))) with (linked machine p).
      by rewrite machine_queues_empty.
    + rewrite two_instantiated_entries. cbn. intros Hin.
      apply elem_of_cons in Hin as [Heq|Hin]; [injection Heq as ->; by apply Hp|].
      apply elem_of_cons in Hin as [Heq|Hin]; [discriminate Heq|].
      by apply elem_of_nil in Hin.
Qed.

(** C1 on the bus: two destinations with clocks 4 and 100. *)
Lemma commit_single_timestamp_witness :
  entries (fst two_instantiated) =
    (msg 1 (Some 7) (1000, 1000, 77, 78), mk_dest 3 (Some 1016))
    :: [(msg 0 (Some 7) (1000, 1000, 77, 78), mk_dest 2 (Some 1000))] /\
  exists t0 tl,
    t0 <> 0 /\
    omap consume_call tl =
      map (fun e => (qnode (fst e), t0)) (entries (fst two_instantiated)).
Proof.
  split; [exact two_instantiated_entries|].
  destruct (commit_single_timestamp bus (fst two_instantiated) _ _
              (snd two_instantiated) two_instantiated_entries)
    as (t0 & w1 & w2 & res & w3 & tl & _ & _ & _ & _ & Hnz & Hcc & _).
  exists t0, tl. split; [exact Hnz|exact Hcc].
Defined.

Lemma mixed_instantiated_entries :
  entries (fst Race.mixed_instantiated) =
  [(msg 1 (Some 7) (1000, 1000, 77, 78), mk_dest 3 (Some 1008));
   (msg 0 (Some 7) (1000, 1000, 77, 78), mk_dest 2 (Some 1000))].
Proof. vm_compute. reflexivity. Qed.

(** C2 on the bus: the id pointer of the entry for peer 3 is read-only, so
    its write-back faults and commit returns [-EFAULT]; the entry for
    peer 2 is exported and linked at the commit timestamp all the same. *)
Lemma commit_latches_faults_witness :
  let t := fst Race.mixed_instantiated in
  let w := snd Race.mixed_instantiated in
  let t0 := fst (commit_staged bus t (entries t) w) in
  NoDup (map entry_key (entries t)) /\
  exists res w' (post : list event) id,
    bus1_transaction_commit bus t w = ((res, set_entries [] t), w') /\
    res = neg_errno EFAULT /\
    EvPutUser 1008 id false ∈ post /\
    exists id',
      EvExport 2 t0 id' ∈ post /\
      node_lookup 0 (linked w' 2) =
        if id' =? U64_MAX then None
        else Some (t0, set_destination id' (msg 0 (Some 7) (1000, 1000, 77, 78))).
Proof.
  cbv zeta.
  assert (Hnd : NoDup (map entry_key (entries (fst Race.mixed_instantiated)))).
  { rewrite mixed_instantiated_entries. cbn [map]. apply NoDup_cons. split.
    - intros Hin. apply elem_of_cons in Hin as [Hin|Hin]; [discriminate Hin|].
      apply elem_of_nil in Hin. destruct Hin.
    - apply NoDup_cons. split; [apply not_elem_of_nil|apply NoDup_nil_2]. }
  split; [exact Hnd|].
  destruct (commit_latches_faults bus (fst Race.mixed_instantiated)
              (snd Race.mixed_instantiated))
    as (res & w' & pre & post & Hc & _ & Hq & _ & _ & _ & _ & Hres & Hrest).
  cbv zeta in Hrest. destruct Hrest as (_ & _ & _ & _ & Hall).
  specialize (Hall Hnd). rewrite mixed_instantiated_entries in Hall.
  apply Forall_cons in Hall as [H3 Hall]. apply Forall_cons in Hall as [H2 _].
  cbn [fst snd slice msg raw_peer idp qnode] in H3, H2.
  destruct H3 as (id3 & _ & Hput3 & _). destruct H2 as (id2 & Hex2 & _ & Hlk2).
  specialize (Hput3 1008 eq_refl).
  assert (Hro : writable (snd Race.mixed_instantiated) 1008 = false)
    by (vm_compute; reflexivity).
  rewrite Hro in Hput3.
  exists res, w', post, id3. split; [exact Hc|]. split.
  - rewrite Hres, existsb_app, (quiet_no_fault pre Hq).
    rewrite (existsb_is_fault_elem _ _ _ Hput3). reflexivity.
  - split; [exact Hput3|]. exists id2. split; [exact Hex2|exact Hlk2].
Defined.



(** C4: with no vectors and one descriptor, the one file slot keeps what
    the stack buffer held; the import of the descriptor fails and teardown
    calls [fput] on that stale word. *)
Lemma init_clears_n_vecs_slots_only :
  let p := mk_param 0 0 0 0 0 2000 1 in
  let made := bus1_transaction_new_from_user bus [Some 57005] 4096 1 p
                (mk_task (0, 0) 1 1) machine in
  files (fst (bus1_transaction_init [Some 57005] false 1 p (mk_task (0, 0) 1 1)
                machine)) = [Some 57005] /\
  fst made = inl (neg_errno EBADF) /\
  trace (snd made) = [EvTransferInit 0; EvFput 57005; EvTransferDestroy].
Proof. vm_compute. repeat split. Qed.

(** C5 fails where the write-back of the invalid id faults: the dropped
    destination makes commit return [-EFAULT]. *)
Lemma dropped_entry_can_fail_commit :
  flag_set (flags (param (send 1))) (BUS1_SEND_FLAG_CONTINUE bus) = true /\
  x_message_allocate bus (peers machine !!! 4) (length_vecs (send 1))
    (user (peers machine !!! 1)) = inl EDQUOT /\
  fst (fst dropped_instantiated) = 0%Z /\
  entries (snd (fst dropped_instantiated)) =
    [(msg 0 None (0, 0, 0, 0), mk_dest 4 (Some 1024))] /\
  fst (fst (bus1_transaction_commit bus (snd (fst dropped_instantiated))
              (snd dropped_instantiated))) = neg_errno EFAULT.
Proof. vm_compute. repeat split. Qed.

(** C5, as amended, on the bus. *)
Lemma continue_turns_full_pool_into_drop_witness :
  u_val <$> umem machine !! 1024 = Some 4 /\
  x_handle_resolve bus (peer (send 1)) 4 = inr 4 /\
  exists w1,
    bus1_transaction_instantiate_for_id bus (send 1) 1024 machine =
      ((0%Z, set_entries [(fresh_message bus (send 1) machine,
                           mk_dest 4 (Some 1024))] (send 1)), w1).
Proof.
  split; [reflexivity|]. split; [reflexivity|].
  destruct (continue_turns_full_pool_into_drop bus (send 1) 1024 machine 4 4 EDQUOT
              eq_refl eq_refl eq_refl eq_refl NoDup_nil_2
              (not_elem_of_nil _)) as [Hc _].
  destruct (Hc eq_refl) as (w1 & Hi & _).
  exists w1. exact Hi.
Defined.

(** C6: one destination, pool with room, id pointer writable.  Instantiate
    then commit returns 0, links node 0 at peer 2 at timestamp 102 and
    writes id 102 back; the fast path returns [-EHOSTUNREACH], links
    nothing and writes nothing. *)
Lemma unicast_fast_path_drops_the_message :
  (let '((r1, t1), w1) :=
     bus1_transaction_instantiate_for_id bus (send 0) 1000 machine in
   let '((r2, _), w2) := bus1_transaction_commit bus t1 w1 in
   r1 = 0%Z /\ r2 = 0%Z /\
   linked w2 2 = [(0, (102, set_destination 102 (msg 0 (Some 7) (1000, 1000, 77, 78))))] /\
   u_val <$> umem w2 !! 1000 = Some 102) /\
  (let '(r, w) := bus1_transaction_commit_for_id bus (send 0) 1000 machine in
   r = neg_errno EHOSTUNREACH /\
   linked w 2 = [] /\
   u_val <$> umem w !! 1000 = Some 2 /\
   existsb is_put_user (trace w) = false).
Proof. vm_compute. repeat split. Qed.

(** C7 on the bus: peer 3 resets its queue after the sync pass. *)
Lemma commit_survives_queue_reset_witness :
  let t := fst two_instantiated in
  let w := snd two_instantiated in
  let s1 := commit_staged bus t (entries t) w in
  let s2 := commit_sync_loop (entries t) (fst s1) (snd s1) in
  NoDup (map entry_key (entries t)) /\
  exists res w3,
    commit_interrupted bus reset_peer_3 t w = ((res, set_entries [] t), w3) /\
    res = 0%Z /\
    (forall p, node_lookup 1 (linked w3 p) = None).
Proof.
  cbv zeta.
  assert (Hnd : NoDup (map entry_key (entries (fst two_instantiated)))).
  { rewrite two_instantiated_entries. cbn.
    apply NoDup_cons_2; [|apply NoDup_singleton].
    intros Hin. apply elem_of_cons in Hin as [Heq|Hin]; [discriminate Heq|].
    by apply elem_of_nil in Hin. }
  split; [exact Hnd|].
  destruct (commit_staged bus (fst two_instantiated)
              (entries (fst two_instantiated)) (snd two_instantiated))
    as [t0 w1] eqn:H1.
  destruct (commit_sync_loop (entries (fst two_instantiated)) t0 w1)
    as [[] w2] eqn:H2.
  destruct (commit_survives_queue_reset bus reset_peer_3 (fst two_instantiated)
              (snd two_instantiated) (msg 1 (Some 7) (1000, 1000, 77, 78))
              (mk_dest 3 (Some 1016)) 7 t0 w1 w2 Hnd)
    as (res & w3 & tl & Hc & _ & Habs & _ & _ & _ & _ & Hok & _).
  - rewrite two_instantiated_entries. apply elem_of_cons. by left.
  - reflexivity.
  - exact H1.
  - exact H2.
  - exact (reset_unlinks_node_1 _ _ _ H1 H2).
  - exists res, w3. split; [exact Hc|]. split; [|exact Habs].
    apply Hok. rewrite two_instantiated_entries. intros e a He Ha.
    assert (Hw : writable (snd two_instantiated) a = true).
    { apply elem_of_cons in He as [Heq|He].
      - subst e. cbn in Ha. injection Ha as <-. vm_compute. reflexivity.
      - apply elem_of_cons in He as [Heq|He].
        + subst e. cbn in Ha. injection Ha as <-. vm_compute. reflexivity.
        + apply elem_of_nil in He. destruct He. }
    destruct (commit_staged_spec bus _ _ _ (clk (snd two_instantiated)) _ _
                (fun _ => eq_refl) H1) as (_ & _ & _ & _ & _ & _ & _ & Hu1 & _).
    destruct (sync_loop_spec _ _ _ (clk w1) _ (fun _ => eq_refl) H2)
      as (_ & _ & _ & _ & _ & _ & Hu2 & _).
    unfold writable, reset_peer_3, set_peers in *. cbn [umem].
    rewrite Hu2, Hu1. exact Hw.
Defined.

(** C7 fails as stated: peer 2 resets its queue after the sync pass, which
    leaves node 0 on no queue; the id pointer of the entry for peer 3 is
    read-only.  The commit pass frees message 0, commits node 1 at peer 3
    at timestamp 102, and commit returns [-EFAULT], not 0. *)
Lemma queue_reset_beside_a_fault :
  let t := fst Race.mixed_instantiated in
  let w := snd Race.mixed_instantiated in
  let s1 := commit_staged bus t (entries t) w in
  let w2 := snd (commit_sync_loop (entries t) (fst s1) (snd s1)) in
  let r := commit_interrupted bus Race.reset_peer_2 t w in
  entries t =
    [(msg 1 (Some 7) (1000, 1000, 77, 78), mk_dest 3 (Some 1008));
     (msg 0 (Some 7) (1000, 1000, 77, 78), mk_dest 2 (Some 1000))] /\
  map fst (linked w2 2) = [0] /\
  Forall (fun p => node_lookup 0 (linked (Race.reset_peer_2 w2) p) = None)
    [1; 2; 3; 4] /\
  fst (fst r) = neg_errno EFAULT /\
  linked (snd r) 2 = [] /\
  linked (snd r) 3 =
    [(1, (102, set_destination 103 (msg 1 (Some 7) (1000, 1000, 77, 78))))] /\
  trace_since (Race.reset_peer_2 w2) (snd r) =
    [EvConsume 1 102; EvInstall 3 1; EvLock 3; EvExport 3 102 103;
     EvPutUser 1008 103 false; EvStage 3 1 102 true; EvWake 3; EvUnlock 3;
     EvMessageFree None; EvDestDestroy (Some 3);
     EvConsume 0 102; EvInstall 2 0; EvLock 2; EvRemove 2 0 false;
     EvDeallocate 2 0; EvUnlock 2; EvMessageFree (Some 0);
     EvDestDestroy (Some 2)].
Proof. vm_compute. repeat split; repeat constructor. Qed.

(** C8 fails as stated: the id for node 1 is written to user memory while
    the node is only staged at 13; it is staged at the final timestamp 102
    afterwards. *)
Lemma write_back_precedes_final_stage :
  let '((_, _), w') :=
    bus1_transaction_commit bus (fst two_instantiated) (snd two_instantiated) in
  exists pre post,
    trace_since (snd two_instantiated) w' =
      pre ++ EvPutUser 1016 103 true :: EvStage 3 1 102 true :: post /\
    omap stage_call pre = [(3, 1, 13); (2, 0, 101)].
Proof.
  vm_compute.
  exists [EvLock 1; EvTick 1 12; EvUnlock 1; EvLock 3; EvSync 3 12 12;
          EvTick 3 14; EvStage 3 1 13 false; EvUnlock 3; EvLock 2;
          EvSync 2 14 100; EvTick 2 102; EvStage 2 0 101 false; EvUnlock 2;
          EvLock 3; EvSync 3 102 102; EvUnlock 3; EvLock 2; EvSync 2 102 102;
          EvUnlock 2; EvConsume 1 102; EvInstall 3 1; EvLock 3;
          EvExport 3 102 103].
  eexists. split; reflexivity.
Qed.

(** C10 on the bus: the dropped destination's id pointer is read-only. *)
Lemma sliceless_entry_writes_invalid_witness :
  (msg 0 None (0, 0, 0, 0), mk_dest 4 (Some 1024))
    ∈ entries (snd (fst dropped_instantiated)) /\
  exists res w' tl,
    bus1_transaction_commit bus (snd (fst dropped_instantiated))
      (snd dropped_instantiated) = ((res, set_entries [] (snd (fst dropped_instantiated))), w') /\
    trace w' = trace (snd dropped_instantiated) ++ tl /\
    EvPutUser 1024 U64_MAX false ∈ tl.
Proof.
  assert (He : (msg 0 None (0, 0, 0, 0), mk_dest 4 (Some 1024))
                 ∈ entries (snd (fst dropped_instantiated))).
  { apply elem_of_cons. left. reflexivity. }
  split; [exact He|].
  destruct (sliceless_entry_writes_invalid bus (snd (fst dropped_instantiated))
              (snd dropped_instantiated) _ _ 1024 He eq_refl eq_refl)
    as (res & w' & tl & Hc & Htr & Hin & _).
  exists res, w', tl. split; [exact Hc|]. split; [exact Htr|exact Hin].
Defined.

(** * Further properties on the concrete bus *)

Import Faults.

(** X20: the fast path on the bus: peer 2 is addressed through the word at 1000;
    all queues are empty. *)
Lemma commit_for_id_links_nothing_witness :
  (forall q, node_lookup (next_node machine) (linked machine q) = None) /\
  let '(r, w') := bus1_transaction_commit_for_id bus (send 0) 1000 machine in
  (forall q, linked w' q = linked machine q) /\
  omap stage_call (trace_since machine w') = [].
Proof.
  assert (H : forall q, node_lookup (next_node machine) (linked machine q) = None).
  { intros q. rewrite machine_queues_empty. reflexivity. }
  split; [exact H|].
  pose proof (commit_for_id_links_nothing bus (send 0) 1000 machine H) as Hc.
  destruct (bus1_transaction_commit_for_id bus (send 0) 1000 machine) as [r w'].
  destruct Hc as (Hl & Hs & _). split; [exact Hl|exact Hs].
Defined.

(** X11: the two instantiated entries are the messages 1 and 0, and the
    allocator is at 2; a third destination is instantiated through the word
    at 1000, giving three pairwise distinct entries. *)
Lemma instantiate_for_id_keeps_entries_distinct_witness :
  entries_fresh (fst two_instantiated) (snd two_instantiated) /\
  let '((r, t'), w') :=
    bus1_transaction_instantiate_for_id bus (fst two_instantiated) 1000
      (snd two_instantiated) in
  map entry_key (entries t') = [(2, 2); (1, 3); (0, 2)] /\
  entries_fresh t' w' /\ NoDup (map entry_key (entries t')).
Proof.
  assert (Hf : entries_fresh (fst two_instantiated) (snd two_instantiated)).
  { unfold entries_fresh. rewrite two_instantiated_entries.
    cbn [map fst qnode msg]. split.
    - apply NoDup_cons. split.
      + intros Hin. apply elem_of_cons in Hin as [Hin|Hin]; [discriminate Hin|].
        apply elem_of_nil in Hin. destruct Hin.
      + apply NoDup_cons. split; [apply not_elem_of_nil|apply NoDup_nil_2].
    - assert (Hnn : next_node (snd two_instantiated) = 2)
        by (vm_compute; reflexivity).
      rewrite Hnn. apply Forall_cons. split; [reflexivity|].
      apply Forall_cons. split; [reflexivity|apply Forall_nil_2]. }
  split; [exact Hf|].
  assert (Hk : map entry_key
                 (entries (snd (fst (bus1_transaction_instantiate_for_id bus
                                       (fst two_instantiated) 1000
                                       (snd two_instantiated)))))
               = [(2, 2); (1, 3); (0, 2)])
    by (vm_compute; reflexivity).
  pose proof (instantiate_for_id_keeps_entries_distinct bus
                (fst two_instantiated) 1000 (snd two_instantiated) Hf) as H.
  destruct (bus1_transaction_instantiate_for_id bus (fst two_instantiated) 1000
              (snd two_instantiated)) as [[r t'] w'].
  cbn [fst snd] in Hk. split; [exact Hk|exact H].
Defined.

(** X6: peer 2, addressed through the word at 1000, has room for the message. *)
Lemma instantiate_for_id_success_witness :
  u_val <$> umem machine !! 1000 = Some 2 /\
  x_handle_resolve bus (peer (send 0)) 2 = inr 2 /\
  bus1_transaction_instantiate_for_id bus (send 0) 1000 machine =
    ((0%Z, set_entries [(msg 0 (Some 7) (1000, 1000, 77, 78),
                         mk_dest 2 (Some 1000))] (send 0)),
     mk_world (peers machine) (umem machine) 1
       [EvLock 2; EvAllocate 2 0 true; EvUnlock 2]).
Proof.
  split; [reflexivity|]. split; [reflexivity|].
  exact (instantiate_for_id_success bus (send 0) 1000 machine 2 2 7
           eq_refl eq_refl eq_refl eq_refl eq_refl eq_refl).
Defined.

(** X9: on the bus whose pools reject writes, with CONTINUE set. *)
Lemma payload_failure_aborts_despite_continue_witness :
  flag_set (flags (param (send 1))) (BUS1_SEND_FLAG_CONTINUE bus_write_error) = true /\
  x_pool_write_iovec bus_write_error (umem machine) 7 (vecs (send 1))
    (length_vecs (send 1)) = Some EIO /\
  bus1_transaction_instantiate_for_id bus_write_error (send 1) 1000 machine =
    ((neg_errno EIO, send 1),
     mk_world (peers machine) (umem machine) 1
       [EvLock 2; EvAllocate 2 0 true; EvUnlock 2;
        EvLock 2; EvDeallocate 2 0; EvUnlock 2;
        EvMessageFree (Some 0); EvDestDestroy (Some 2)]).
Proof.
  split; [reflexivity|]. split; [reflexivity|].
  exact (payload_failure_aborts_despite_continue bus_write_error (send 1) 1000
           machine 2 2 7 EIO eq_refl eq_refl eq_refl eq_refl
           (or_introl eq_refl)).
Defined.

(** X10: the word at 2000 is not mapped. *)
Lemma unresolved_destination_creates_nothing_witness :
  (fst (fst (bus1_handle_dest_import bus (peer (send 0)) 2000 machine)) < 0)%Z /\
  bus1_transaction_instantiate_for_id bus (send 0) 2000 machine =
    ((neg_errno EFAULT, send 0),
     set_trace (fun tr => tr ++ [EvDestDestroy None]) machine).
Proof.
  assert (H : (fst (fst (bus1_handle_dest_import bus (peer (send 0)) 2000 machine)) < 0)%Z)
    by reflexivity.
  split; [exact H|].
  exact (unresolved_destination_creates_nothing bus (send 0) 2000 machine H).
Defined.

(** X5: two instantiated entries, given up before any commit. *)
Lemma abort_is_invisible_witness :
  Forall (fun e => node_lookup (qnode (fst e))
                     (linked (snd two_instantiated) (raw_peer (snd e))) = None)
    (entries (fst two_instantiated)) /\
  forall q,
    peers (snd (bus1_transaction_free bus (Some (fst two_instantiated))
                  (snd two_instantiated))) !!! q
    = peers (snd two_instantiated) !!! q.
Proof.
  assert (H : Forall (fun e => node_lookup (qnode (fst e))
                     (linked (snd two_instantiated) (raw_peer (snd e))) = None)
                (entries (fst two_instantiated))).
  { apply Forall_forall. intros e _. unfold linked.
    rewrite two_instantiated_peers.
    change (nodes (queue (peers machine !!! raw_peer (snd e))))
      with (linked machine (raw_peer (snd e))).
    rewrite machine_queues_empty. reflexivity. }
  split; [exact H|].
  exact (proj1 (abort_is_invisible bus (fst two_instantiated)
                  (snd two_instantiated) H)).
Defined.

(** X1: one descriptor and no vector, on the caller's buffer. *)
Lemma new_from_user_outcome_witness :
  well_sized bus one_fd /\
  let '(res, w') :=
    bus1_transaction_new_from_user bus [Some 57005] 1000 1 one_fd sender_task
      machine in
  peers w' = peers machine /\ umem w' = umem machine /\
  next_node w' = next_node machine.
Proof.
  assert (Hw : well_sized bus one_fd)
    by (split; [reflexivity|intros H; discriminate H]).
  split; [exact Hw|].
  pose proof (new_from_user_outcome bus [Some 57005] 1000 1 one_fd sender_task
                machine Hw) as H.
  cbv zeta in H.
  destruct (bus1_transaction_new_from_user bus [Some 57005] 1000 1 one_fd
              sender_task machine) as [res w'].
  destruct H as (H1 & H2 & H3 & _).
  split; [exact H1|]. split; [exact H2|exact H3].
Defined.

(** X2: one descriptor, imported from the word at 1000, into the caller's
    buffer. *)
Lemma new_from_user_success_witness :
  well_sized bus one_fd /\
  x_import_fd bus (umem machine) (ptr_fds one_fd + 4 * N.of_nat 0) = inr 2 /\
  fst (bus1_transaction_new_from_user bus [Some 57005; Some 48879] 1000 1
         one_fd sender_task machine) =
    inr (mk_transaction 1 one_fd (1000, 1000) 77 78 [] [Some 2; Some 48879]
           4 [] 0 false).
Proof.
  assert (Hw : well_sized bus one_fd)
    by (split; [reflexivity|intros H; discriminate H]).
  split; [exact Hw|]. split; [reflexivity|].
  assert (Hfd : forall i, (i < N.to_nat (n_fds one_fd))%nat ->
            x_import_fd bus (umem machine) (ptr_fds one_fd + 4 * N.of_nat i) = inr 2).
  { intros [|i] Hi; [reflexivity|]. cbn in Hi. lia. }
  destruct (new_from_user_success bus [Some 57005; Some 48879] 1000 1 one_fd
              sender_task machine [Some 57005; Some 48879] [] 4 (fun _ => 2)
              Hw eq_refl (le_S _ _ (le_n 1)) eq_refl eq_refl Hfd) as [Hn _].
  rewrite Hn. reflexivity.
Defined.

(** X3: two descriptors, the second of which is not mapped.  With two
    vectors both slots were cleared and only the imported file is released;
    with one vector the second slot still holds the word the buffer held,
    and teardown releases it too. *)
Lemma failed_fd_import_releases_the_imported_witness :
  well_sized bus two_fds /\ well_sized bus one_vec_two_fds /\
  x_import_fd bus (umem machine) (ptr_fds two_fds + 4 * N.of_nat 1) = inl EBADF /\
  bus1_transaction_new_from_user bus [Some 57005; Some 48879] 1000 1 two_fds
    sender_task machine =
    (inl (neg_errno EBADF),
     set_trace (fun tr => tr ++ [EvTransferInit 0; EvFput 2; EvTransferDestroy])
       machine) /\
  bus1_transaction_new_from_user bus [Some 57005; Some 48879] 1000 1
    one_vec_two_fds sender_task machine =
    (inl (neg_errno EBADF),
     set_trace (fun tr => tr ++ [EvTransferInit 0; EvFput 2; EvFput 48879;
                                 EvTransferDestroy])
       machine).
Proof.
  assert (Hw2 : well_sized bus two_fds)
    by (split; [reflexivity|intros H; discriminate H]).
  assert (Hw1 : well_sized bus one_vec_two_fds)
    by (split; [reflexivity|intros H; discriminate H]).
  split; [exact Hw2|]. split; [exact Hw1|]. split; [reflexivity|].
  assert (Hfd : forall i, (i < 1)%nat ->
            x_import_fd bus (umem machine) (1000 + 4 * N.of_nat i) = inr 2).
  { intros [|i] Hi; [reflexivity|lia]. }
  split.
  - exact (proj1 (failed_fd_import_releases_the_imported bus
             [Some 57005; Some 48879] 1000 1 two_fds sender_task machine
             [Some 57005; Some 48879] [] 4 (fun _ => 2) 1 EBADF Hw2 eq_refl
             (le_n 2) eq_refl eq_refl (le_n 2) Hfd eq_refl)).
  - exact (proj1 (failed_fd_import_releases_the_imported bus
             [Some 57005; Some 48879] 1000 1 one_vec_two_fds sender_task machine
             [Some 57005; Some 48879] [] 4 (fun _ => 2) 1 EBADF Hw1 eq_refl
             (le_n 2) eq_refl eq_refl (le_n 2) Hfd eq_refl)).
Defined.

(** X15: the two instantiated entries are the messages 1 and 0. *)
Lemma commit_delivers_or_frees_witness :
  NoDup (map (fun e => qnode (fst e)) (entries (fst two_instantiated))) /\
  length (omap free_call
            (trace_since (snd two_instantiated)
               (snd (bus1_transaction_commit bus (fst two_instantiated)
                       (snd two_instantiated))))) = 2%nat.
Proof.
  assert (H : NoDup (map (fun e => qnode (fst e)) (entries (fst two_instantiated)))).
  { rewrite two_instantiated_entries. cbn [map fst qnode msg].
    apply NoDup_cons. split.
    - intros Hin. apply elem_of_cons in Hin as [Hin|Hin]; [discriminate Hin|].
      by apply elem_of_nil in Hin.
    - apply NoDup_cons. split; [apply not_elem_of_nil|apply NoDup_nil_2]. }
  split; [exact H|].
  destruct (commit_delivers_or_frees bus (fst two_instantiated)
              (snd two_instantiated) H) as [Hl _].
  rewrite Hl, two_instantiated_entries. reflexivity.
Defined.

(** X23: the two instantiated entries are distinct. *)
Lemma commit_reports_the_delivered_id_witness :
  NoDup (map entry_key (entries (fst two_instantiated))) /\
  Forall (fun e =>
    match slice (fst e), idp (snd e) with
    | Some _, Some a =>
        exists id,
          EvPutUser a id (writable (snd two_instantiated) a)
            ∈ trace_since (snd two_instantiated)
                (snd (bus1_transaction_commit bus (fst two_instantiated)
                        (snd two_instantiated)))
    | _, _ => True
    end) (entries (fst two_instantiated)).
Proof.
  assert (H : NoDup (map entry_key (entries (fst two_instantiated)))).
  { rewrite two_instantiated_entries. cbn [map].
    apply NoDup_cons. split.
    - intros Hin. apply elem_of_cons in Hin as [Hin|Hin]; [discriminate Hin|].
      by apply elem_of_nil in Hin.
    - apply NoDup_cons. split; [apply not_elem_of_nil|apply NoDup_nil_2]. }
  split; [exact H|].
  pose proof (commit_reports_the_delivered_id bus (fst two_instantiated)
                (snd two_instantiated) H) as Hr.
  cbv zeta in Hr. eapply Forall_impl; [exact Hr|]. cbn beta.
  intros e He. destruct (slice (fst e)); [|exact I].
  destruct (idp (snd e)); [|exact I].
  destruct He as (id & Hin & _). exists id. exact Hin.
Defined.
